(** * Parcel simulation core: engine, store reducer and hook actions

    A shallow embedding of [src/lib/simulation-engine.ts] and of the reducer
    and action handlers of [src/hooks/useSimulation.ts], with the decisions
    that the map component [EnhancedMap] and the form [ParcelCreationForm]
    take from the store.

    Conventions of the embedding.
    - A JavaScript [number] is an IEEE 754 binary64 value: Rocq's primitive
      [float], whose [+ * / <=? <?] are the processor operations that the
      JavaScript operators denote.
    - [new Date(v)] is the constructor call recorded with its argument; the
      current time read by [new Date()] and [Date.now()] is an explicit
      argument [now] of the functions that read it.
    - A JavaScript [Map<string, V>] is the list of its entries in insertion
      order ([JSMap]).
    - [wkt-parser.ts] is not among the sources: its three functions are the
      fields of the interface [WktParser], and every theorem is proved for
      an arbitrary implementation of it. *)

From Stdlib Require Import ZArith Zpower List String Ascii Bool Lia.
From Stdlib Require Import Floats.
Import ListNotations.

Set Warnings "-inexact-float".

(* ================================================================== *)
(** * JavaScript numbers *)
(* ================================================================== *)

Module JSNumber.

Abbreviation number := float (only parsing).

(** [a >= b] and [a > b] of JavaScript: false as soon as one side is NaN. *)
Definition ge (a b : number) : bool := (b <=? a)%float.
Definition gt (a b : number) : bool := (b <? a)%float.

(** [Math.min(a, b)]: NaN when an argument is NaN, and [-0] below [+0]. *)
Definition Math_min (a b : number) : number :=
  if is_nan a || is_nan b then nan
  else if (a <? b)%float then a
  else if (b <? a)%float then b
  else if get_sign a then a else b.

(** [Number.isFinite]. *)
Definition isFinite (a : number) : bool := is_finite a.

End JSNumber.
Import JSNumber.

(* ================================================================== *)
(** * JavaScript maps with string keys *)
(* ================================================================== *)

Module JSMap.

Section WithValues.
Context {V : Type}.

Definition t := list (string * V).

Definition empty : t := [].

Fixpoint get (k : string) (m : t) : option V :=
  match m with
  | [] => None
  | (k', v) :: rest => if String.eqb k k' then Some v else get k rest
  end.

(** [m.set(k, v)]: an existing key keeps its place in the iteration
    order, a new key goes last. *)
Fixpoint set (k : string) (v : V) (m : t) : t :=
  match m with
  | [] => [(k, v)]
  | (k', v') :: rest =>
      if String.eqb k k' then (k', v) :: rest else (k', v') :: set k v rest
  end.

Fixpoint delete (k : string) (m : t) : t :=
  match m with
  | [] => []
  | (k', v') :: rest =>
      if String.eqb k k' then rest else (k', v') :: delete k rest
  end.

Definition values (m : t) : list V := map snd m.
Definition keys (m : t) : list string := map fst m.

(** [new Map(m)]: a fresh map with the entries of [m], in order. *)
Definition copy (m : t) : t := m.

End WithValues.
Arguments t : clear implicits.

End JSMap.

(* ================================================================== *)
(** * Data model ([lib/type.ts], [lib/api-client.ts]) *)
(* ================================================================== *)

Record Position := { lat : number; lng : number }.

Inductive Date := NewDate (value : number).

Inductive ParcelState := PLANNED | TRANSIT | INCIDENT | DELIVERED.

Inductive IncidentType := ROAD_CLOSURE | TRAFFIC | VEHICLE_BREAKDOWN | WEATHER.

Definition ParcelState_eqb (a b : ParcelState) : bool :=
  match a, b with
  | PLANNED, PLANNED | TRANSIT, TRANSIT
  | INCIDENT, INCIDENT | DELIVERED, DELIVERED => true
  | _, _ => false
  end.

Definition IncidentType_eqb (a b : IncidentType) : bool :=
  match a, b with
  | ROAD_CLOSURE, ROAD_CLOSURE | TRAFFIC, TRAFFIC
  | VEHICLE_BREAKDOWN, VEHICLE_BREAKDOWN | WEATHER, WEATHER => true
  | _, _ => false
  end.

Definition IncidentType_name (t : IncidentType) : string :=
  match t with
  | ROAD_CLOSURE => "ROAD_CLOSURE"
  | TRAFFIC => "TRAFFIC"
  | VEHICLE_BREAKDOWN => "VEHICLE_BREAKDOWN"
  | WEATHER => "WEATHER"
  end.

Module GeoPointResponse.
Record t := {
    id : string;
    address : string;
    latitude : number;
    longitude : number;
    type : string
  }.
End GeoPointResponse.

Module ParcelResponse.
Record t := {
    id : string;
    trackingCode : string;
    currentState : string;
    pickupLocation : string;
    deliveryLocation : string;
    senderName : option string;
    recipientName : option string;
    weightKg : option number
  }.
End ParcelResponse.

Module RouteResponse.
Record t := {
    id : string;
    routeGeometry : string;
    totalDistanceKm : number;
    estimatedDurationMin : number
  }.
End RouteResponse.

Module Incident.
Record t := {
    id : string;
    type : IncidentType;
    position : Position;
    radius : number;
    affectedRouteIds : list string;
    timestamp : Date;
    resolved : bool;
    description : string
  }.

(** [{ ...incident, resolved: true }] *)
Definition with_resolved (i : t) (b : bool) : t :=
    {| id := id i; type := type i; position := position i;
       radius := radius i; affectedRouteIds := affectedRouteIds i;
       timestamp := timestamp i; resolved := b;
       description := description i |}.
End Incident.

Module SimulatedParcel.
Record t := {
    id : string;
    trackingCode : string;
    parcelData : ParcelResponse.t;
    route : option RouteResponse.t;
    routePath : list Position;
    currentPosition : Position;
    state : ParcelState;
    progress : number;
    pathIndex : number;
    startTime : option Date;
    estimatedArrival : option Date;
    actualArrival : option Date;
    speed : number;
    affectedByIncidents : list string
  }.
End SimulatedParcel.

(* ================================================================== *)
(** * The geometry helpers of [lib/wkt-parser.ts] *)
(* ================================================================== *)

(** The object [{ position, segmentIndex }] returned by
    [interpolateAlongPath]. *)
Record Interpolated := { position : Position; segmentIndex : number }.

Class WktParser := {
  interpolateAlongPath : list Position -> number -> Interpolated;
  isWithinRadius : Position -> Position -> number -> bool;
  parseWKTLineString : string -> list Position
}.

(* ================================================================== *)
(** * [SimulationEngine] ([lib/simulation-engine.ts]) *)
(* ================================================================== *)

Module SimulationEngine.
Import SimulatedParcel.

Definition BASE_SPEED : number := 40.
Definition UPDATE_INTERVAL_MS : number := 100.

(** [array.includes(x)] on an array of strings. *)
Definition includes (l : list string) (x : string) : bool :=
  existsb (String.eqb x) l.

Section WithGeometry.
Context {wkt : WktParser}.

(** [updateParcelPosition(parcel, deltaTimeMs, simulationSpeed)];
    [now] is the instant read by [new Date()]. *)
Definition updateParcelPosition (now : number) (parcel : t)
    (deltaTimeMs simulationSpeed : number) : t :=
  match state parcel, route parcel, routePath parcel with
  | TRANSIT, Some route0, _ :: _ =>
      (* Calculate distance traveled in this frame *)
      let actualSpeed := (speed parcel * simulationSpeed)%float in
      let hoursElapsed := (deltaTimeMs / 1000 / 60 / 60)%float in
      let distanceTraveledKm := (actualSpeed * hoursElapsed)%float in
      (* Calculate total route distance *)
      let totalDistanceKm := RouteResponse.totalDistanceKm route0 in
      (* Update progress *)
      let progressIncrement := (distanceTraveledKm / totalDistanceKm)%float in
      let newProgress :=
        Math_min (progress parcel + progressIncrement)%float 1%float in
      (* Interpolate new position *)
      let ip := interpolateAlongPath (routePath parcel) newProgress in
      (* Check if delivered *)
      let isDelivered := ge newProgress 0.99%float in
      {| id := id parcel;
         trackingCode := trackingCode parcel;
         parcelData := parcelData parcel;
         route := route parcel;
         routePath := routePath parcel;
         currentPosition := position ip;
         state := if isDelivered then DELIVERED else state parcel;
         progress := newProgress;
         pathIndex := segmentIndex ip;
         startTime := startTime parcel;
         estimatedArrival := estimatedArrival parcel;
         actualArrival :=
           if isDelivered then Some (NewDate now) else actualArrival parcel;
         speed := speed parcel;
         affectedByIncidents := affectedByIncidents parcel |}
  | _, _, _ => parcel
  end.

(** The progress increment of one frame, as [updateParcelPosition]
    computes it from the parcel's speed and the route's distance. *)
Definition progressIncrement (parcel : t) (totalDistanceKm : number)
    (deltaTimeMs simulationSpeed : number) : number :=
  ((speed parcel * simulationSpeed)
     * (deltaTimeMs / 1000 / 60 / 60) / totalDistanceKm)%float.

(** The body of the [for (const incident of incidents.values())] loop
    of [checkIncidentCollision], over the values still to visit. *)
Fixpoint checkIncidentCollision_loop (parcel : t)
    (incidents : list Incident.t) : option Incident.t :=
  match incidents with
  | [] => None
  | incident :: rest =>
      if Incident.resolved incident
      then checkIncidentCollision_loop parcel rest
      else
        (* Check if parcel is within incident radius *)
        let isAffected :=
          isWithinRadius (currentPosition parcel)
            (Incident.position incident)
            (Incident.radius incident / 1000)%float in
        if isAffected
           && negb (includes (affectedByIncidents parcel)
                             (Incident.id incident))
        then Some incident
        else checkIncidentCollision_loop parcel rest
  end.

Definition checkIncidentCollision (parcel : t)
    (incidents : JSMap.t Incident.t) : option Incident.t :=
  checkIncidentCollision_loop parcel (JSMap.values incidents).

(** [routePath[0] || { lat: 0, lng: 0 }] *)
Definition firstPointOr (routePath : list Position) (d : Position) :=
  match routePath with
  | p :: _ => p
  | [] => d
  end.

Definition createSimulatedParcel (now : number)
    (parcelData : ParcelResponse.t) (route : RouteResponse.t)
    (routePath : list Position) : t :=
  let estimatedArrival :=
    NewDate (now + RouteResponse.estimatedDurationMin route * 60 * 1000)%float in
  {| id := ParcelResponse.id parcelData;
     trackingCode := ParcelResponse.trackingCode parcelData;
     parcelData := parcelData;
     route := Some route;
     routePath := routePath;
     currentPosition := firstPointOr routePath {| lat := 0; lng := 0 |};
     state := PLANNED;
     progress := 0;
     pathIndex := 0;
     startTime := None;
     estimatedArrival := Some estimatedArrival;
     actualArrival := None;
     speed := BASE_SPEED;
     affectedByIncidents := [] |}.

Definition startParcel (now : number) (parcel : t) : t :=
  {| id := id parcel;
     trackingCode := trackingCode parcel;
     parcelData := parcelData parcel;
     route := route parcel;
     routePath := routePath parcel;
     currentPosition := currentPosition parcel;
     state := TRANSIT;
     progress := progress parcel;
     pathIndex := pathIndex parcel;
     startTime := Some (NewDate now);
     estimatedArrival := estimatedArrival parcel;
     actualArrival := actualArrival parcel;
     speed := speed parcel;
     affectedByIncidents := affectedByIncidents parcel |}.

Definition updateParcelRoute (now : number) (parcel : t)
    (newRoute : RouteResponse.t) (newRoutePath : list Position) : t :=
  (* Keep current progress but update to new path *)
  let ip := interpolateAlongPath newRoutePath (progress parcel) in
  {| id := id parcel;
     trackingCode := trackingCode parcel;
     parcelData := parcelData parcel;
     route := Some newRoute;
     routePath := newRoutePath;
     currentPosition := position ip;
     state := TRANSIT; (* Resume transit after recalculation *)
     progress := progress parcel;
     pathIndex := pathIndex parcel;
     startTime := startTime parcel;
     estimatedArrival :=
       Some (NewDate
               (now + RouteResponse.estimatedDurationMin newRoute * 60 * 1000)%float);
     actualArrival := actualArrival parcel;
     speed := speed parcel;
     affectedByIncidents := affectedByIncidents parcel |}.

Definition markParcelIncident (parcel : t) (incidentId : string) : t :=
  {| id := id parcel;
     trackingCode := trackingCode parcel;
     parcelData := parcelData parcel;
     route := route parcel;
     routePath := routePath parcel;
     currentPosition := currentPosition parcel;
     state := INCIDENT;
     progress := progress parcel;
     pathIndex := pathIndex parcel;
     startTime := startTime parcel;
     estimatedArrival := estimatedArrival parcel;
     actualArrival := actualArrival parcel;
     speed := speed parcel;
     affectedByIncidents := affectedByIncidents parcel ++ [incidentId] |}.

Definition calculateETA (now : number) (parcel : t) : option Date :=
  match route parcel, state parcel with
  | Some route0, TRANSIT =>
      let remainingProgress := (1 - progress parcel)%float in
      let remainingDistanceKm :=
        (RouteResponse.totalDistanceKm route0 * remainingProgress)%float in
      let hoursRemaining := (remainingDistanceKm / speed parcel)%float in
      let msRemaining := (hoursRemaining * 60 * 60 * 1000)%float in
      Some (NewDate (now + msRemaining)%float)
  | _, _ => estimatedArrival parcel
  end.

Definition doesIncidentAffectRoute (incident : Incident.t)
    (routePath : list Position) : bool :=
  existsb
    (fun position =>
       isWithinRadius position (Incident.position incident)
         (Incident.radius incident / 1000)%float)
    routePath.

End WithGeometry.

(** [array.length] as a number; exact below 2^53. *)
Definition lengthOf {A : Type} (l : list A) : number :=
  fold_left (fun n _ => (n + 1)%float) l 0%float.

(** [x || 0] on a number: 0 when [x] is 0 or NaN. *)
Definition orZero (x : number) : number :=
  if is_nan x || (x =? 0)%float then 0%float else x.

Record SimulationStats := {
  totalParcels : number;
  inTransit : number;
  delivered : number;
  withIncidents : number;
  totalDistance : number;
  averageSpeed : number
}.

Definition getSimulationStats (parcels : JSMap.t t) : SimulationStats :=
  let parcelsArray := JSMap.values parcels in
  let inState s := filter (fun p => ParcelState_eqb (state p) s) parcelsArray in
  {| totalParcels := lengthOf parcelsArray;
     inTransit := lengthOf (inState TRANSIT);
     delivered := lengthOf (inState DELIVERED);
     withIncidents := lengthOf (inState INCIDENT);
     totalDistance :=
       fold_left
         (fun sum p =>
            (sum + match route p with
                   | Some r => orZero (RouteResponse.totalDistanceKm r)
                   | None => 0
                   end)%float)
         parcelsArray 0%float;
     averageSpeed :=
       if gt (lengthOf parcelsArray) 0
       then (fold_left (fun sum p => (sum + speed p)%float) parcelsArray 0
             / lengthOf parcelsArray)%float
       else 0%float |}.

End SimulationEngine.

(* ================================================================== *)
(** * The store: state, actions and reducer ([hooks/useSimulation.ts]) *)
(* ================================================================== *)

Module SimulationState.
Record t := {
    parcels : JSMap.t SimulatedParcel.t;
    incidents : JSMap.t Incident.t;
    hubs : list GeoPointResponse.t;
    isPlaying : bool;
    speed : number;
    incidentPlacementMode : bool;
    selectedIncidentType : option IncidentType;
    selectedParcelId : option string
  }.
End SimulationState.

(** [Partial<SimulatedParcel>]: [Some v] for a property the object has. *)
Module ParcelUpdates.
Record t := {
    id : option string;
    trackingCode : option string;
    parcelData : option ParcelResponse.t;
    route : option (option RouteResponse.t);
    routePath : option (list Position);
    currentPosition : option Position;
    state : option ParcelState;
    progress : option number;
    pathIndex : option number;
    startTime : option (option Date);
    estimatedArrival : option (option Date);
    actualArrival : option (option Date);
    speed : option number;
    affectedByIncidents : option (list string)
  }.

Definition override {A : Type} (old : A) (new : option A) : A :=
  match new with
  | Some v => v
  | None => old
  end.

(** [{ ...existing, ...updates }] *)
Definition spread (existing : SimulatedParcel.t) (updates : t)
    : SimulatedParcel.t :=
  {| SimulatedParcel.id := override (SimulatedParcel.id existing) (id updates);
     SimulatedParcel.trackingCode :=
       override (SimulatedParcel.trackingCode existing) (trackingCode updates);
     SimulatedParcel.parcelData :=
       override (SimulatedParcel.parcelData existing) (parcelData updates);
     SimulatedParcel.route :=
       override (SimulatedParcel.route existing) (route updates);
     SimulatedParcel.routePath :=
       override (SimulatedParcel.routePath existing) (routePath updates);
     SimulatedParcel.currentPosition :=
       override (SimulatedParcel.currentPosition existing) (currentPosition updates);
     SimulatedParcel.state :=
       override (SimulatedParcel.state existing) (state updates);
     SimulatedParcel.progress :=
       override (SimulatedParcel.progress existing) (progress updates);
     SimulatedParcel.pathIndex :=
       override (SimulatedParcel.pathIndex existing) (pathIndex updates);
     SimulatedParcel.startTime :=
       override (SimulatedParcel.startTime existing) (startTime updates);
     SimulatedParcel.estimatedArrival :=
       override (SimulatedParcel.estimatedArrival existing) (estimatedArrival updates);
     SimulatedParcel.actualArrival :=
       override (SimulatedParcel.actualArrival existing) (actualArrival updates);
     SimulatedParcel.speed :=
       override (SimulatedParcel.speed existing) (speed updates);
     SimulatedParcel.affectedByIncidents :=
       override (SimulatedParcel.affectedByIncidents existing)
                (affectedByIncidents updates) |}.

(** A whole parcel passed where a [Partial<SimulatedParcel>] is expected. *)
Definition ofParcel (p : SimulatedParcel.t) : t :=
    {| id := Some (SimulatedParcel.id p);
       trackingCode := Some (SimulatedParcel.trackingCode p);
       parcelData := Some (SimulatedParcel.parcelData p);
       route := Some (SimulatedParcel.route p);
       routePath := Some (SimulatedParcel.routePath p);
       currentPosition := Some (SimulatedParcel.currentPosition p);
       state := Some (SimulatedParcel.state p);
       progress := Some (SimulatedParcel.progress p);
       pathIndex := Some (SimulatedParcel.pathIndex p);
       startTime := Some (SimulatedParcel.startTime p);
       estimatedArrival := Some (SimulatedParcel.estimatedArrival p);
       actualArrival := Some (SimulatedParcel.actualArrival p);
       speed := Some (SimulatedParcel.speed p);
       affectedByIncidents := Some (SimulatedParcel.affectedByIncidents p) |}.
End ParcelUpdates.

Inductive SimulationAction :=
| SET_HUBS (payload : list GeoPointResponse.t)
| ADD_PARCEL (payload : SimulatedParcel.t)
| UPDATE_PARCEL (id : string) (updates : ParcelUpdates.t)
| REMOVE_PARCEL (payload : string)
| ADD_INCIDENT (payload : Incident.t)
| RESOLVE_INCIDENT (payload : string)
| PLAY
| PAUSE
| SET_SPEED (payload : number)
| TOGGLE_INCIDENT_MODE (active : bool) (type : option IncidentType)
| SELECT_PARCEL (payload : option string)
| UPDATE_ALL_PARCELS (payload : JSMap.t SimulatedParcel.t).

Module Store.
Import SimulationState.

Definition initialState : t :=
  {| parcels := JSMap.empty;
     incidents := JSMap.empty;
     hubs := [];
     isPlaying := false;
     speed := 1;
     incidentPlacementMode := false;
     selectedIncidentType := None;
     selectedParcelId := None |}.

(** [{ ...state, parcels: newParcels }] and its siblings. *)
Definition with_parcels (state : t) (newParcels : JSMap.t SimulatedParcel.t) : t :=
  {| parcels := newParcels;
     incidents := incidents state;
     hubs := hubs state;
     isPlaying := isPlaying state;
     speed := speed state;
     incidentPlacementMode := incidentPlacementMode state;
     selectedIncidentType := selectedIncidentType state;
     selectedParcelId := selectedParcelId state |}.

Definition with_incidents (state : t) (newIncidents : JSMap.t Incident.t) : t :=
  {| parcels := parcels state;
     incidents := newIncidents;
     hubs := hubs state;
     isPlaying := isPlaying state;
     speed := speed state;
     incidentPlacementMode := incidentPlacementMode state;
     selectedIncidentType := selectedIncidentType state;
     selectedParcelId := selectedParcelId state |}.

Definition simulationReducer (state : t) (action : SimulationAction) : t :=
  match action with
  | SET_HUBS payload =>
      {| parcels := parcels state;
         incidents := incidents state;
         hubs := payload;
         isPlaying := isPlaying state;
         speed := speed state;
         incidentPlacementMode := incidentPlacementMode state;
         selectedIncidentType := selectedIncidentType state;
         selectedParcelId := selectedParcelId state |}
  | ADD_PARCEL payload =>
      let newParcels := JSMap.copy (parcels state) in
      let newParcels := JSMap.set (SimulatedParcel.id payload) payload newParcels in
      with_parcels state newParcels
  | UPDATE_PARCEL id updates =>
      let newParcels := JSMap.copy (parcels state) in
      let newParcels :=
        match JSMap.get id newParcels with
        | Some existing =>
            JSMap.set id (ParcelUpdates.spread existing updates) newParcels
        | None => newParcels
        end in
      with_parcels state newParcels
  | REMOVE_PARCEL payload =>
      let newParcels := JSMap.copy (parcels state) in
      with_parcels state (JSMap.delete payload newParcels)
  | ADD_INCIDENT payload =>
      let newIncidents := JSMap.copy (incidents state) in
      with_incidents state (JSMap.set (Incident.id payload) payload newIncidents)
  | RESOLVE_INCIDENT payload =>
      let newIncidents := JSMap.copy (incidents state) in
      let newIncidents :=
        match JSMap.get payload newIncidents with
        | Some incident =>
            JSMap.set payload (Incident.with_resolved incident true) newIncidents
        | None => newIncidents
        end in
      with_incidents state newIncidents
  | PLAY =>
      {| parcels := parcels state;
         incidents := incidents state;
         hubs := hubs state;
         isPlaying := true;
         speed := speed state;
         incidentPlacementMode := incidentPlacementMode state;
         selectedIncidentType := selectedIncidentType state;
         selectedParcelId := selectedParcelId state |}
  | PAUSE =>
      {| parcels := parcels state;
         incidents := incidents state;
         hubs := hubs state;
         isPlaying := false;
         speed := speed state;
         incidentPlacementMode := incidentPlacementMode state;
         selectedIncidentType := selectedIncidentType state;
         selectedParcelId := selectedParcelId state |}
  | SET_SPEED payload =>
      {| parcels := parcels state;
         incidents := incidents state;
         hubs := hubs state;
         isPlaying := isPlaying state;
         speed := payload;
         incidentPlacementMode := incidentPlacementMode state;
         selectedIncidentType := selectedIncidentType state;
         selectedParcelId := selectedParcelId state |}
  | TOGGLE_INCIDENT_MODE active type =>
      {| parcels := parcels state;
         incidents := incidents state;
         hubs := hubs state;
         isPlaying := isPlaying state;
         speed := speed state;
         incidentPlacementMode := active;
         selectedIncidentType := type;
         selectedParcelId := selectedParcelId state |}
  | SELECT_PARCEL payload =>
      {| parcels := parcels state;
         incidents := incidents state;
         hubs := hubs state;
         isPlaying := isPlaying state;
         speed := speed state;
         incidentPlacementMode := incidentPlacementMode state;
         selectedIncidentType := selectedIncidentType state;
         selectedParcelId := payload |}
  | UPDATE_ALL_PARCELS payload => with_parcels state payload
  end.

End Store.

(* ================================================================== *)
(** * The hook [useSimulation]: clock tick and action handlers *)
(* ================================================================== *)

(** Strings are byte strings here; [toUpperCase] maps the ASCII letters
    and leaves every other byte alone. On ASCII text this is the
    [toUpperCase] of JavaScript. JavaScript also maps letters outside
    ASCII, a few of them to ASCII letters (U+0131 to [I], U+017F to [S]), so
    that a text with such letters can contain [LINESTRING] once put in upper
    case by JavaScript and not by [toUpperCase]: what is stated of a text
    that fails the format check of [addParcel] is stated of ASCII text. *)
Module JSString.

Definition upperAscii (c : ascii) : ascii :=
  let n := N_of_ascii c in
  if ((97 <=? n) && (n <=? 122))%N then ascii_of_N (n - 32) else c.

Fixpoint toUpperCase (s : string) : string :=
  match s with
  | EmptyString => EmptyString
  | String c rest => String (upperAscii c) (toUpperCase rest)
  end.

(** [s.includes(sub)] *)
Fixpoint includes (s sub : string) : bool :=
  String.prefix sub s
  || match s with
     | EmptyString => false
     | String _ rest => includes rest sub
     end.

(** Text made of ASCII characters only. *)
Fixpoint isAscii (s : string) : bool :=
  match s with
  | EmptyString => true
  | String c rest => (N_of_ascii c <? 128)%N && isAscii rest
  end.

(** [!s] on a string: true for the empty string. *)
Definition falsy (s : string) : bool :=
  match s with
  | EmptyString => true
  | String _ _ => false
  end.

End JSString.

Inductive ToastKind := toast_success | toast_error | toast_loading.

(** What a handler does besides computing, in program order: the actions
    it dispatches to the store, the toasts it shows, the calls of
    [handleIncidentRecalculation] it starts, its write to
    [lastUpdateRef.current] and the animation frame it asks for. The
    [console] lines are left out. *)
Inductive Effect :=
| Dispatch (action : SimulationAction)
| Toast (kind : ToastKind) (message : string)
| StartRecalculation (parcel : SimulatedParcel.t) (incident : Incident.t)
| SetLastUpdate (now : number)
| RequestAnimationFrame.

Module UseSimulation.
Import SimulationState.

(** The store after the dispatched actions of [effects] went through the
    reducer, in order. *)
Definition reduceEffects (state : t) (effects : list Effect) : t :=
  fold_left
    (fun s e =>
       match e with
       | Dispatch action => Store.simulationReducer s action
       | _ => s
       end)
    effects state.

Definition dispatched (effects : list Effect) : list SimulationAction :=
  flat_map (fun e => match e with Dispatch a => [a] | _ => [] end) effects.

Section WithGeometry.
Context {wkt : WktParser}.

(** [updated !== parcel] in the loop: [updateParcelPosition] returns
    its argument itself exactly when its guard returns early. *)
Definition isNewObject (parcel : SimulatedParcel.t) : bool :=
  match SimulatedParcel.state parcel, SimulatedParcel.route parcel,
        SimulatedParcel.routePath parcel with
  | TRANSIT, Some _, _ :: _ => true
  | _, _, _ => false
  end.

(** The loop variables of [simulationLoop]. *)
Record LoopState := {
  updatedParcels : JSMap.t SimulatedParcel.t;
  hasChanges : bool;
  recalculations : list Effect
}.

(** One iteration of [for (const [id, parcel] of updatedParcels.entries())]. *)
Definition loopBody (now deltaTimeMs : number) (state : t)
    (acc : LoopState) (entry : string * SimulatedParcel.t) : LoopState :=
  let '(id, parcel) := entry in
  match SimulatedParcel.state parcel with
  | TRANSIT =>
      (* Update position *)
      let updated :=
        SimulationEngine.updateParcelPosition now parcel deltaTimeMs
          (speed state) in
      (* Check for incident collision *)
      match SimulationEngine.checkIncidentCollision updated (incidents state) with
      | Some collidingIncident =>
          (* Mark as incident and trigger recalculation *)
          let markedParcel :=
            SimulationEngine.markParcelIncident updated
              (Incident.id collidingIncident) in
          {| updatedParcels := JSMap.set id markedParcel (updatedParcels acc);
             hasChanges := true;
             recalculations :=
               recalculations acc
               ++ [StartRecalculation markedParcel collidingIncident] |}
      | None =>
          if isNewObject parcel
          then {| updatedParcels := JSMap.set id updated (updatedParcels acc);
                  hasChanges := true;
                  recalculations := recalculations acc |}
          else acc
      end
  | _ => acc
  end.

(** The loop of one tick. Setting an existing key keeps the iteration
    order, and every key is visited once, so the loop over the live
    map visits the entries the copy had when the loop began. *)
Definition loopParcels (now deltaTimeMs : number) (state : t) : LoopState :=
  let start := JSMap.copy (parcels state) in
  fold_left (loopBody now deltaTimeMs state) start
    {| updatedParcels := start; hasChanges := false; recalculations := [] |}.

(** [simulationLoop], one tick at instant [now]; [lastUpdate] is
    [lastUpdateRef.current]. *)
Definition simulationLoop (now lastUpdate : number) (state : t) : list Effect :=
  if negb (isPlaying state) then []
  else
    let deltaTimeMs := (now - lastUpdate)%float in
    let r := loopParcels now deltaTimeMs state in
    SetLastUpdate now
    :: recalculations r
    ++ (if hasChanges r then [Dispatch (UPDATE_ALL_PARCELS (updatedParcels r))]
        else [])
    ++ [RequestAnimationFrame].

(** [loadHubs()], with the outcome of the awaited
    [LogisticsService.getAllHubs] as [response]: the hubs, or [None] when
    the request failed. *)
Definition loadHubs (response : option (list GeoPointResponse.t)) : list Effect :=
  match response with
  | Some hubs => [Dispatch (SET_HUBS hubs)]
  | None => [Toast toast_error "Erreur lors du chargement des hubs"]
  end.

(** [addParcel(parcelData, route)]; [now] and [now'] are the two
    instants read by [new Date()]. *)
Definition addParcel (now now' : number) (state : t)
    (parcelData : ParcelResponse.t) (route : option RouteResponse.t)
    : list Effect :=
  match route with
  | Some route =>
      (* Validate route geometry before parsing *)
      if JSString.falsy (RouteResponse.routeGeometry route)
      then [Toast toast_error "Itinéraire invalide: géométrie manquante"]
      else if negb (JSString.includes
                      (JSString.toUpperCase (RouteResponse.routeGeometry route))
                      "LINESTRING")
      then [Toast toast_error "Itinéraire invalide: format de géométrie incorrect"]
      else
        let routePath := parseWKTLineString (RouteResponse.routeGeometry route) in
        if (List.length routePath =? 0)%nat
        then [Toast toast_error "Impossible de tracer l'itinéraire (parsing WKT échoué)"]
        else if (List.length routePath <? 2)%nat
        then [Toast toast_error "Itinéraire invalide: moins de 2 points"]
        else
          let simulatedParcel :=
            SimulationEngine.createSimulatedParcel now parcelData route routePath in
          (* Auto-start immediately *)
          let simulatedParcel :=
            {| SimulatedParcel.id := SimulatedParcel.id simulatedParcel;
               SimulatedParcel.trackingCode := SimulatedParcel.trackingCode simulatedParcel;
               SimulatedParcel.parcelData := SimulatedParcel.parcelData simulatedParcel;
               SimulatedParcel.route := SimulatedParcel.route simulatedParcel;
               SimulatedParcel.routePath := SimulatedParcel.routePath simulatedParcel;
               SimulatedParcel.currentPosition := SimulatedParcel.currentPosition simulatedParcel;
               SimulatedParcel.state := TRANSIT;
               SimulatedParcel.progress := SimulatedParcel.progress simulatedParcel;
               SimulatedParcel.pathIndex := SimulatedParcel.pathIndex simulatedParcel;
               SimulatedParcel.startTime := Some (NewDate now');
               SimulatedParcel.estimatedArrival := SimulatedParcel.estimatedArrival simulatedParcel;
               SimulatedParcel.actualArrival := SimulatedParcel.actualArrival simulatedParcel;
               SimulatedParcel.speed := SimulatedParcel.speed simulatedParcel;
               SimulatedParcel.affectedByIncidents :=
                 SimulatedParcel.affectedByIncidents simulatedParcel |} in
          [Dispatch (ADD_PARCEL simulatedParcel);
           Toast toast_success
             ("Livraison démarrée: " ++ ParcelResponse.trackingCode parcelData)]
  | None =>
      (* No route: add parcel in PLANNED state so it appears in the UI
         but doesn't start *)
      let startPos :=
        (* Try to place parcel at pickup hub coordinates if available *)
        match find (fun h => String.eqb (GeoPointResponse.id h)
                               (ParcelResponse.pickupLocation parcelData))
                   (hubs state) with
        | Some pickupHub =>
            {| lat := GeoPointResponse.latitude pickupHub;
               lng := GeoPointResponse.longitude pickupHub |}
        | None => {| lat := 4.05; lng := 9.7 |}
        end in
      let simulatedParcel :=
        {| SimulatedParcel.id := ParcelResponse.id parcelData;
           SimulatedParcel.trackingCode := ParcelResponse.trackingCode parcelData;
           SimulatedParcel.parcelData := parcelData;
           SimulatedParcel.route := None;
           SimulatedParcel.routePath := [];
           SimulatedParcel.currentPosition := startPos;
           SimulatedParcel.state := PLANNED;
           SimulatedParcel.progress := 0;
           SimulatedParcel.pathIndex := 0;
           SimulatedParcel.startTime := None;
           SimulatedParcel.estimatedArrival := None;
           SimulatedParcel.actualArrival := None;
           SimulatedParcel.speed := 30;
           SimulatedParcel.affectedByIncidents := [] |} in
      [Dispatch (ADD_PARCEL simulatedParcel)]
  end.

Definition startParcel (now : number) (state : t) (parcelId : string)
    : list Effect :=
  match JSMap.get parcelId (parcels state) with
  | None => []
  | Some parcel =>
      let started := SimulationEngine.startParcel now parcel in
      [Dispatch (UPDATE_PARCEL parcelId (ParcelUpdates.ofParcel started));
       Toast toast_success
         ("Livraison démarrée: " ++ SimulatedParcel.trackingCode parcel)]
  end.

Definition resolveIncident (incidentId : string) : list Effect :=
  [Dispatch (RESOLVE_INCIDENT incidentId); Toast toast_success "Incident résolu"].

(** [handleIncidentRecalculation(parcel, incident)], with the outcome
    of the awaited [LogisticsService.recalculateRoute] as [response]:
    the new route, or [None] when the request failed. *)
Definition handleIncidentRecalculation (now : number)
    (parcel : SimulatedParcel.t) (incident : Incident.t)
    (response : option RouteResponse.t) : list Effect :=
  match SimulatedParcel.route parcel with
  | None => []
  | Some _ =>
      Toast toast_loading "Recalcul de l'itinéraire..."
      :: match response with
         | Some newRoute =>
             let newRoutePath :=
               parseWKTLineString (RouteResponse.routeGeometry newRoute) in
             let updated :=
               SimulationEngine.updateParcelRoute now parcel newRoute newRoutePath in
             [Dispatch (UPDATE_PARCEL (SimulatedParcel.id parcel)
                          (ParcelUpdates.ofParcel updated));
              Toast toast_success "Itinéraire recalculé"]
         | None => [Toast toast_error "Échec du recalcul"]
         end
  end.

(** [createIncident(position, type, description)]; [nowText] is the text
    of [Date.now()] in the template string of the id, and [None] stands
    for a description that was not given. *)
Definition createIncident (now : number) (nowText : string)
    (position : Position) (type : IncidentType) (description : option string)
    : list Effect :=
  let incident :=
    {| Incident.id := "incident-" ++ nowText;
       Incident.type := type;
       Incident.position := position;
       Incident.radius := if IncidentType_eqb type ROAD_CLOSURE then 500 else 200;
       Incident.affectedRouteIds := [];
       Incident.timestamp := NewDate now;
       Incident.resolved := false;
       Incident.description :=
         match description with
         | Some d => if JSString.falsy d then "Incident: " ++ IncidentType_name type else d
         | None => "Incident: " ++ IncidentType_name type
         end |} in
  [Dispatch (ADD_INCIDENT incident);
   Toast toast_error ("⚠️ Incident créé: " ++ IncidentType_name type);
   (* Turn off placement mode *)
   Dispatch (TOGGLE_INCIDENT_MODE false None)].

Definition toggleIncidentMode (type : option IncidentType) : list Effect :=
  [Dispatch (TOGGLE_INCIDENT_MODE
               (match type with Some _ => true | None => false end) type)].

Definition play : list Effect := [Dispatch PLAY].
Definition pause : list Effect := [Dispatch PAUSE].
Definition setSpeed (speed : number) : list Effect := [Dispatch (SET_SPEED speed)].
Definition selectParcel (id : option string) : list Effect :=
  [Dispatch (SELECT_PARCEL id)].

End WithGeometry.

End UseSimulation.

(* ================================================================== *)
(** * The map component ([EnhancedMap]) *)
(* ================================================================== *)

(** What the component decides from the store: where a click places an
    incident, and which routes and incidents it draws, with which
    attributes. The Leaflet widgets themselves are not modelled. *)
Module EnhancedMap.

(** The background colour of the marker of [incidentIcon(type)]. *)
Definition incidentIcon_color (type : IncidentType) : string :=
  let color := "#F44336"%string in (* red *)
  if IncidentType_eqb type TRAFFIC then "#FF9800" (* orange *) else color.

(** The [click] handler of [MapClickHandler]: the calls
    [onIncidentPlace(position, type)] it makes for a click at [latlng]. *)
Definition click (incidentPlacementMode : bool)
    (selectedIncidentType : option IncidentType) (latlng : Position)
    : list (Position * IncidentType) :=
  match incidentPlacementMode, selectedIncidentType with
  | true, Some type =>
      let position := {| lat := lat latlng; lng := lng latlng |} in
      [(position, type)]
  | _, _ => []
  end.

Definition getRouteColor (parcel : SimulatedParcel.t) : string :=
  match SimulatedParcel.state parcel with
  | PLANNED => "#9E9E9E" (* grey *)
  | TRANSIT => "#FF9800" (* orange *)
  | INCIDENT => "#F44336" (* red *)
  | DELIVERED => "#4CAF50" (* green *)
  end.

(** The attributes of a [<Polyline>]. *)
Record Polyline := {
  polyline_key : string;
  positions : list (number * number);
  color : string;
  weight : number;
  opacity : number;
  dashArray : option string
}.

(** The polylines of the routes: one for each parcel with a non-empty
    path, in the order of the map. *)
Definition routes (parcels : JSMap.t SimulatedParcel.t)
    (selectedParcelId : option string) : list Polyline :=
  flat_map
    (fun parcel =>
       match SimulatedParcel.routePath parcel with
       | [] => []
       | _ :: _ =>
           let positions :=
             map (fun pos => (lat pos, lng pos)) (SimulatedParcel.routePath parcel) in
           let isSelected :=
             match selectedParcelId with
             | Some selected => String.eqb (SimulatedParcel.id parcel) selected
             | None => false
             end in
           [{| polyline_key := SimulatedParcel.id parcel;
               positions := positions;
               color := getRouteColor parcel;
               weight := if isSelected then 6 else 4;
               opacity := if isSelected then 1 else 0.7;
               dashArray :=
                 if ParcelState_eqb (SimulatedParcel.state parcel) INCIDENT
                 then Some "10, 10"%string else None |}]
       end)
    (JSMap.values parcels).

(** The circle and the marker drawn for an incident. *)
Record IncidentLayer := {
  layer_key : string;
  center : number * number;
  circle_radius : number;
  icon_color : string
}.

Definition incidentLayer (incident : Incident.t) : IncidentLayer :=
  {| layer_key := Incident.id incident;
     center := (lat (Incident.position incident), lng (Incident.position incident));
     circle_radius := Incident.radius incident;
     icon_color := incidentIcon_color (Incident.type incident) |}.

(** The incidents drawn: those that are not resolved, in the order of the
    map. *)
Definition incidentLayers (incidents : JSMap.t Incident.t) : list IncidentLayer :=
  flat_map
    (fun incident =>
       if Incident.resolved incident then [] else [incidentLayer incident])
    (JSMap.values incidents).

End EnhancedMap.

(* ================================================================== *)
(** * The parcel form ([ParcelCreationForm]) *)
(* ================================================================== *)

Module ParcelCreationForm.

Record FormData := {
  senderName : string;
  senderPhone : string;
  recipientName : string;
  recipientPhone : string;
  pickupHubId : string;
  deliveryHubId : string;
  weightKg : number;
  notes : string
}.

(** The form as it is first shown, and after a successful submission. *)
Definition emptyForm : FormData :=
  {| senderName := ""; senderPhone := ""; recipientName := "";
     recipientPhone := ""; pickupHubId := ""; deliveryHubId := "";
     weightKg := 5; notes := "" |}.

(** The fields of [ParcelRequest] that the form fills in. *)
Record ParcelRequest := {
  request_senderName : string;
  request_senderPhone : string;
  request_recipientName : string;
  request_recipientPhone : string;
  pickupLocation : string;
  deliveryLocation : string;
  request_weightKg : number;
  request_notes : string
}.

Record RouteCalculationRequest := {
  parcelId : string;
  startHubId : string;
  endHubId : string;
  algorithm : string;
  vehicleType : string
}.

(** What [handleSubmit] does, in program order: the toasts it shows, its
    writes to the [loading] and [formData] states, the two requests it
    sends through [LogisticsService] and its call of [onParcelCreated].
    The toasts that [LogisticsService] shows by itself and the [console]
    lines are left out. *)
Inductive FormEffect :=
| PreventDefault
| FormToast (kind : ToastKind) (message : string)
| SetLoading (loading : bool)
| CreateParcel (request : ParcelRequest)
| CalculateRoute (request : RouteCalculationRequest)
| OnParcelCreated (parcel : ParcelResponse.t) (route : RouteResponse.t)
| SetFormData (formData : FormData).

(** [handleSubmit(e)], with the outcomes of the two awaited requests:
    [created] for [LogisticsService.createParcel] and [routed] for
    [LogisticsService.calculateRoute], [None] standing for a request that
    failed. [onParcelCreated] is taken to return normally. *)
Definition handleSubmit (formData : FormData)
    (created : option ParcelResponse.t) (routed : option RouteResponse.t)
    : list FormEffect :=
  PreventDefault
  :: if JSString.falsy (pickupHubId formData)
        || JSString.falsy (deliveryHubId formData)
     then [FormToast toast_error "Veuillez sélectionner origine et destination"]
     else if String.eqb (pickupHubId formData) (deliveryHubId formData)
     then [FormToast toast_error "Origine et destination doivent être différentes"]
     else
       SetLoading true
       :: (* Step 1: Create parcel *)
          let parcelRequest :=
            {| request_senderName := senderName formData;
               request_senderPhone := senderPhone formData;
               request_recipientName := recipientName formData;
               request_recipientPhone := recipientPhone formData;
               pickupLocation := pickupHubId formData;
               deliveryLocation := deliveryHubId formData;
               request_weightKg := weightKg formData;
               request_notes := notes formData |} in
          CreateParcel parcelRequest
          :: match created with
             | Some parcel =>
                 (* Step 2: Calculate route *)
                 CalculateRoute
                   {| parcelId := ParcelResponse.id parcel;
                      startHubId := pickupHubId formData;
                      endHubId := deliveryHubId formData;
                      algorithm := "DIJKSTRA";
                      vehicleType := "VAN" |}
                 :: match routed with
                    | Some route =>
                        [ (* Step 3: Notify parent *)
                          OnParcelCreated parcel route;
                          (* Reset form *)
                          SetFormData emptyForm;
                          FormToast toast_success "Colis créé et itinéraire calculé !";
                          SetLoading false ]
                    | None =>
                        [FormToast toast_error "Erreur lors de la création du colis";
                         SetLoading false]
                    end
             | None =>
                 [FormToast toast_error "Erreur lors de la création du colis";
                  SetLoading false]
             end.

End ParcelCreationForm.

(* ================================================================== *)
(** * A sample geometry collaborator *)
(* ================================================================== *)

(** Modelled from the spec: [lib/wkt-parser.ts] (the functions
    [parseWKTLineString], [interpolateAlongPath] and [isWithinRadius]) is
    not among the sources. The spec (sections 2, 4.1 and 6) describes a
    decoder from line-string text to an ordered point sequence that yields
    the empty sequence on failure, a linear interpolation along consecutive
    path points, and a circular geofence test under a planar metric. The
    instance below follows these words in the simplest way (coordinates are
    unsigned decimal integers, path segments weigh the same) and serves
    only to run the code on concrete inputs: the theorems hold for every
    [WktParser]. *)
Module SampleWkt.

Definition digit (c : ascii) : option number :=
  let n := N_of_ascii c in
  if ((48 <=? n) && (n <=? 57))%N
  then nth_error [0; 1; 2; 3; 4; 5; 6; 7; 8; 9]%float (N.to_nat (n - 48))
  else None.

Fixpoint readDigits (s : string) (acc : number) : option number :=
  match s with
  | EmptyString => Some acc
  | String c rest =>
      match digit c with
      | Some d => readDigits rest (acc * 10 + d)%float
      | None => None
      end
  end.

Definition readCoordinate (s : string) : option number :=
  match s with
  | EmptyString => None
  | _ => readDigits s 0%float
  end.

Fixpoint splitOn (sep : ascii) (s : string) : list string :=
  match s with
  | EmptyString => [EmptyString]
  | String c rest =>
      if Ascii.eqb c sep then EmptyString :: splitOn sep rest
      else match splitOn sep rest with
           | h :: t => String c h :: t
           | [] => [String c EmptyString]
           end
  end.

Definition words (s : string) : list string :=
  filter (fun w => negb (JSString.falsy w)) (splitOn " " s).

(** A WKT point is [x y], that is longitude then latitude. *)
Definition readPoint (s : string) : option Position :=
  match words s with
  | [x; y] =>
      match readCoordinate x, readCoordinate y with
      | Some x, Some y => Some {| lat := y; lng := x |}
      | _, _ => None
      end
  | _ => None
  end.

Fixpoint readPoints (l : list string) : option (list Position) :=
  match l with
  | [] => Some []
  | s :: rest =>
      match readPoint s, readPoints rest with
      | Some p, Some ps => Some (p :: ps)
      | _, _ => None
      end
  end.

(** Modelled from the spec: the decoder of [LINESTRING(x y, x y, ...)],
    empty on anything else. *)
Definition parse (wkt : string) : list Position :=
  match splitOn "(" wkt with
  | [head; tail] =>
      match words head, splitOn ")" tail with
      | ["LINESTRING"%string], [inner; _] =>
          match readPoints (splitOn "," inner) with
          | Some ps => ps
          | None => []
          end
      | _, _ => []
      end
  | _ => []
  end.

Definition lerp (a b t : number) : number := (a + (b - a) * t)%float.

(** Walks the segments; [t] counts segments from the point [p]. *)
Fixpoint walk (p : Position) (rest : list Position) (t index : number)
    : Interpolated :=
  match rest with
  | [] => {| position := p; segmentIndex := index |}
  | q :: rest' =>
      if (t <=? 1)%float
      then {| position := {| lat := lerp (lat p) (lat q) t;
                             lng := lerp (lng p) (lng q) t |};
              segmentIndex := index |}
      else walk q rest' (t - 1)%float (index + 1)%float
  end.

(** Modelled from the spec: linear interpolation along consecutive path
    points, every segment weighing the same. *)
Definition interpolate (path : list Position) (progress : number)
    : Interpolated :=
  match path with
  | [] => {| position := {| lat := 0; lng := 0 |}; segmentIndex := 0 |}
  | p :: rest =>
      let segments := fold_left (fun n _ => (n + 1)%float) rest 0%float in
      walk p rest (progress * segments)%float 0%float
  end.

(** Modelled from the spec: the circular geofence under the planar
    metric of the coordinates. *)
Definition within (point center : Position) (radius : number) : bool :=
  let dlat := (lat point - lat center)%float in
  let dlng := (lng point - lng center)%float in
  (dlat * dlat + dlng * dlng <=? radius * radius)%float.

(** Modelled from the spec: the three functions above as a [WktParser]. *)
Definition planar : WktParser :=
  {| interpolateAlongPath := interpolate;
     isWithinRadius := within;
     parseWKTLineString := parse |}.

End SampleWkt.

(* ================================================================== *)
(** * Notions used to state the properties *)
(* ================================================================== *)

Module Props.

Section WithGeometry.
Context {wkt : WktParser}.

(** An incident collides with a parcel when it is unresolved, its geofence
    (the circle of its radius, in km, around its position) contains the
    parcel's current position, and its id is not yet among the parcel's
    [affectedByIncidents]. *)
Definition collides (parcel : SimulatedParcel.t) (incident : Incident.t) : Prop :=
  Incident.resolved incident = false /\
  isWithinRadius (SimulatedParcel.currentPosition parcel)
    (Incident.position incident) (Incident.radius incident / 1000)%float = true /\
  ~ In (Incident.id incident) (SimulatedParcel.affectedByIncidents parcel).

(** The same, as the boolean test the loop of [checkIncidentCollision]
    performs on one incident. *)
Definition collidesb (parcel : SimulatedParcel.t) (incident : Incident.t) : bool :=
  negb (Incident.resolved incident)
  && (isWithinRadius (SimulatedParcel.currentPosition parcel)
        (Incident.position incident) (Incident.radius incident / 1000)%float
      && negb (SimulationEngine.includes
                 (SimulatedParcel.affectedByIncidents parcel)
                 (Incident.id incident))).

(** What one tick of [simulationLoop] leaves in the map for a parcel it
    found there. *)
Definition tickParcel (now deltaTimeMs : number) (state : SimulationState.t)
    (parcel : SimulatedParcel.t) : SimulatedParcel.t :=
  match SimulatedParcel.state parcel with
  | TRANSIT =>
      let updated :=
        SimulationEngine.updateParcelPosition now parcel deltaTimeMs
          (SimulationState.speed state) in
      match SimulationEngine.checkIncidentCollision updated
              (SimulationState.incidents state) with
      | Some collidingIncident =>
          SimulationEngine.markParcelIncident updated (Incident.id collidingIncident)
      | None => updated
      end
  | _ => parcel
  end.

(** The recalculation that one tick starts for a parcel it found in the
    map, if any. *)
Definition tickStarts (now deltaTimeMs : number) (state : SimulationState.t)
    (parcel : SimulatedParcel.t) : list Effect :=
  match SimulatedParcel.state parcel with
  | TRANSIT =>
      let updated :=
        SimulationEngine.updateParcelPosition now parcel deltaTimeMs
          (SimulationState.speed state) in
      match SimulationEngine.checkIncidentCollision updated
              (SimulationState.incidents state) with
      | Some collidingIncident =>
          [StartRecalculation
             (SimulationEngine.markParcelIncident updated
                (Incident.id collidingIncident))
             collidingIncident]
      | None => []
      end
  | _ => []
  end.

End WithGeometry.

End Props.

(* ================================================================== *)
(** * Runs of the simulation *)
(* ================================================================== *)

(** The store together with the recalculation requests in flight, and the
    events that move them: a clock tick, the completion of a request, and
    a store action that carries no parcel (play, pause, speed, hubs,
    incidents, selection). *)
Module Runs.

(** The spec's state machine: [PLANNED -> TRANSIT -> INCIDENT -> TRANSIT
    -> DELIVERED], with [TRANSIT -> DELIVERED] directly. *)
Inductive edge : ParcelState -> ParcelState -> Prop :=
| edge_start : edge PLANNED TRANSIT
| edge_collision : edge TRANSIT INCIDENT
| edge_recovery : edge INCIDENT TRANSIT
| edge_delivery : edge TRANSIT DELIVERED.

(** Zero or more edges. *)
Inductive path : ParcelState -> ParcelState -> Prop :=
| path_here s : path s s
| path_step s1 s2 s3 : path s1 s2 -> edge s2 s3 -> path s1 s3.

Record System := {
  store : SimulationState.t;
  pending : list (SimulatedParcel.t * Incident.t)
}.

Inductive Event :=
| Tick (now lastUpdate : number)
| RecalculationDone (index : nat) (now : number)
    (response : option RouteResponse.t)
| Control (action : SimulationAction).

Definition carriesNoParcel (action : SimulationAction) : bool :=
  match action with
  | ADD_PARCEL _ | UPDATE_PARCEL _ _ | REMOVE_PARCEL _
  | UPDATE_ALL_PARCELS _ => false
  | _ => true
  end.

(** The requests that the effects of a tick start. *)
Definition started (effects : list Effect)
    : list (SimulatedParcel.t * Incident.t) :=
  flat_map
    (fun e => match e with StartRecalculation p i => [(p, i)] | _ => [] end)
    effects.

(** The id of the parcel a request is for. *)
Definition idOf (r : SimulatedParcel.t * Incident.t) : string :=
  SimulatedParcel.id (fst r).

Fixpoint removeNth {A : Type} (n : nat) (l : list A) : list A :=
  match n, l with
  | _, [] => []
  | O, _ :: rest => rest
  | S n', x :: rest => x :: removeNth n' rest
  end.

Section WithGeometry.
Context {wkt : WktParser}.

Definition step (sys : System) (event : Event) : System :=
  match event with
  | Tick now lastUpdate =>
      let effects := UseSimulation.simulationLoop now lastUpdate (store sys) in
      {| store := UseSimulation.reduceEffects (store sys) effects;
         pending := pending sys ++ started effects |}
  | RecalculationDone index now response =>
      match nth_error (pending sys) index with
      | Some (parcel, incident) =>
          {| store :=
               UseSimulation.reduceEffects (store sys)
                 (UseSimulation.handleIncidentRecalculation now parcel incident
                    response);
             pending := removeNth index (pending sys) |}
      | None => sys
      end
  | Control action =>
      (* an action that carries a parcel is not an event of these runs *)
      if carriesNoParcel action
      then {| store := Store.simulationReducer (store sys) action;
              pending := pending sys |}
      else sys
  end.

Definition run (sys : System) (events : list Event) : System :=
  fold_left step events sys.

End WithGeometry.

(** What holds of the system between events: the map has one entry per
    key, every parcel sits under its own id, and every request in flight
    belongs to a parcel that the store still holds as the request saw it,
    stopped in [INCIDENT]; no parcel has two requests in flight. *)
Record Consistent (sys : System) : Prop := {
  keys_distinct : NoDup (JSMap.keys (SimulationState.parcels (store sys)));
  keyed_by_id :
    Forall (fun e => SimulatedParcel.id (snd e) = fst e)
      (SimulationState.parcels (store sys));
  pending_stopped :
    Forall
      (fun r =>
         JSMap.get (idOf r) (SimulationState.parcels (store sys)) = Some (fst r) /\
         SimulatedParcel.state (fst r) = INCIDENT)
      (pending sys);
  pending_distinct : NoDup (map idOf (pending sys))
}.

End Runs.

(* ================================================================== *)
(** * Sessions of the hook *)
(* ================================================================== *)

(** Everything that reaches the store of a mounted hook, one event at a
    time: a clock tick, the completion of a recalculation request, a call
    of the handler [startParcel] or [addParcel], and the dispatch of a store
    action, which always goes through the reducer. The handlers
    [loadHubs], [createIncident], [resolveIncident], [toggleIncidentMode],
    [play], [pause], [setSpeed] and [selectParcel] dispatch actions that
    carry no parcel: a call of one of them is a sequence of [Dispatched]
    events. *)
Module Session.
Import Runs.

Inductive Event :=
| Tick (now lastUpdate : number)
| RecalculationDone (index : nat) (now : number)
    (response : option RouteResponse.t)
| StartParcel (now : number) (parcelId : string)
| AddParcel (now now' : number) (parcelData : ParcelResponse.t)
    (route : option RouteResponse.t)
| Dispatched (action : SimulationAction).

Section WithGeometry.
Context {wkt : WktParser}.

Definition step (sys : System) (event : Event) : System :=
  match event with
  | Tick now lastUpdate =>
      let effects := UseSimulation.simulationLoop now lastUpdate (store sys) in
      {| store := UseSimulation.reduceEffects (store sys) effects;
         pending := pending sys ++ started effects |}
  | RecalculationDone index now response =>
      match nth_error (pending sys) index with
      | Some (parcel, incident) =>
          {| store :=
               UseSimulation.reduceEffects (store sys)
                 (UseSimulation.handleIncidentRecalculation now parcel incident
                    response);
             pending := removeNth index (pending sys) |}
      | None => sys
      end
  | StartParcel now parcelId =>
      {| store :=
           UseSimulation.reduceEffects (store sys)
             (UseSimulation.startParcel now (store sys) parcelId);
         pending := pending sys |}
  | AddParcel now now' parcelData route =>
      {| store :=
           UseSimulation.reduceEffects (store sys)
             (UseSimulation.addParcel now now' (store sys) parcelData route);
         pending := pending sys |}
  | Dispatched action =>
      {| store := Store.simulationReducer (store sys) action;
         pending := pending sys |}
  end.

Definition run (sys : System) (events : list Event) : System :=
  fold_left step events sys.

(** The events that keep to the life cycle of a parcel: every tick and
    every completed recalculation; a start of a parcel that is planned or
    already moving (or of an id the map does not hold); an addition under
    an id the map does not hold, or one that dispatches nothing; the
    dispatch of an action that carries no parcel. The hook does not
    enforce any of this. *)
Definition allowed (sys : System) (event : Event) : Prop :=
  match event with
  | Tick _ _ | RecalculationDone _ _ _ => True
  | StartParcel _ parcelId =>
      match JSMap.get parcelId (SimulationState.parcels (store sys)) with
      | Some parcel =>
          SimulatedParcel.state parcel = PLANNED \/
          SimulatedParcel.state parcel = TRANSIT
      | None => True
      end
  | AddParcel now now' parcelData route =>
      JSMap.get (ParcelResponse.id parcelData)
        (SimulationState.parcels (store sys)) = None \/
      UseSimulation.dispatched
        (UseSimulation.addParcel now now' (store sys) parcelData route) = []
  | Dispatched action => carriesNoParcel action = true
  end.

(** A sequence of events each of which is allowed when it happens. *)
Fixpoint allowedRun (sys : System) (events : list Event) : Prop :=
  match events with
  | [] => True
  | event :: rest => allowed sys event /\ allowedRun (step sys event) rest
  end.

End WithGeometry.

End Session.
(* ================================================================== *)
(** * Sample data for the closed examples *)
(* ================================================================== *)

Module Samples.

Definition parcelData : ParcelResponse.t :=
  {| ParcelResponse.id := "p1";
     ParcelResponse.trackingCode := "TRK-1";
     ParcelResponse.currentState := "CREATED";
     ParcelResponse.pickupLocation := "hub-1";
     ParcelResponse.deliveryLocation := "hub-2";
     ParcelResponse.senderName := None;
     ParcelResponse.recipientName := None;
     ParcelResponse.weightKg := None |}.

Definition geometry : string := "LINESTRING(9 4, 10 5)".

(** A route of the given total distance along [geometry]. *)
Definition route (totalDistanceKm : number) : RouteResponse.t :=
  {| RouteResponse.id := "r1";
     RouteResponse.routeGeometry := geometry;
     RouteResponse.totalDistanceKm := totalDistanceKm;
     RouteResponse.estimatedDurationMin := 15 |}.

Definition path : list Position := [ {| lat := 4; lng := 9 |}; {| lat := 5; lng := 10 |} ].

(** A parcel on [route totalDistanceKm] with the given state and progress,
    at nominal speed 40. *)
Definition parcel (state : ParcelState) (totalDistanceKm progress : number)
    : SimulatedParcel.t :=
  {| SimulatedParcel.id := "p1";
     SimulatedParcel.trackingCode := "TRK-1";
     SimulatedParcel.parcelData := parcelData;
     SimulatedParcel.route := Some (route totalDistanceKm);
     SimulatedParcel.routePath := path;
     SimulatedParcel.currentPosition := {| lat := 4; lng := 9 |};
     SimulatedParcel.state := state;
     SimulatedParcel.progress := progress;
     SimulatedParcel.pathIndex := 0;
     SimulatedParcel.startTime := Some (NewDate 1000);
     SimulatedParcel.estimatedArrival := Some (NewDate 901000);
     SimulatedParcel.actualArrival := None;
     SimulatedParcel.speed := 40;
     SimulatedParcel.affectedByIncidents := [] |}.

(** The parcel that [addParcel] creates for [parcelData] without a route,
    no hub being known: [PLANNED], at the fallback position. *)
Definition routelessParcel : SimulatedParcel.t :=
  {| SimulatedParcel.id := "p1";
     SimulatedParcel.trackingCode := "TRK-1";
     SimulatedParcel.parcelData := parcelData;
     SimulatedParcel.route := None;
     SimulatedParcel.routePath := [];
     SimulatedParcel.currentPosition := {| lat := 4.05; lng := 9.7 |};
     SimulatedParcel.state := PLANNED;
     SimulatedParcel.progress := 0;
     SimulatedParcel.pathIndex := 0;
     SimulatedParcel.startTime := None;
     SimulatedParcel.estimatedArrival := None;
     SimulatedParcel.actualArrival := None;
     SimulatedParcel.speed := 30;
     SimulatedParcel.affectedByIncidents := [] |}.

(** The store after [ADD_PARCEL] of one parcel into the initial state. *)
Definition storeWith (p : SimulatedParcel.t) : SimulationState.t :=
  Store.simulationReducer Store.initialState (ADD_PARCEL p).

(** An unresolved incident of radius 200 m at the start of [path]. *)
Definition incident (id : string) (type : IncidentType) : Incident.t :=
  {| Incident.id := id;
     Incident.type := type;
     Incident.position := {| lat := 4; lng := 9 |};
     Incident.radius := 200;
     Incident.affectedRouteIds := [];
     Incident.timestamp := NewDate 500;
     Incident.resolved := false;
     Incident.description := "Incident" |}.

(** A playing store with one parcel in transit at the start of [path] and
    an incident around that point. *)
Definition playingStore : SimulationState.t :=
  Store.simulationReducer
    (Store.simulationReducer (storeWith (parcel TRANSIT 10 0))
       (ADD_INCIDENT (incident "i1" TRAFFIC)))
    PLAY.

(** A route whose geometry decodes to a single point. *)
Definition shortRoute : RouteResponse.t :=
  {| RouteResponse.id := "r2";
     RouteResponse.routeGeometry := "LINESTRING(9 4)";
     RouteResponse.totalDistanceKm := 10;
     RouteResponse.estimatedDurationMin := 15 |}.

(** A route whose geometry is not a line string. *)
Definition pointRoute : RouteResponse.t :=
  {| RouteResponse.id := "r3";
     RouteResponse.routeGeometry := "POINT(9 4)";
     RouteResponse.totalDistanceKm := 10;
     RouteResponse.estimatedDurationMin := 15 |}.

(** The pickup hub of [parcelData], and another hub. *)
Definition hub (id : string) (latitude longitude : number) : GeoPointResponse.t :=
  {| GeoPointResponse.id := id;
     GeoPointResponse.address := "Hub";
     GeoPointResponse.latitude := latitude;
     GeoPointResponse.longitude := longitude;
     GeoPointResponse.type := "HUB" |}.

Definition hubs : list GeoPointResponse.t :=
  [hub "hub-2" 5 10; hub "hub-1" 4 9; hub "hub-1" 6 11].

(** A parcel in transit half way along a 10 km route, at speed 0. *)
Definition stalledParcel : SimulatedParcel.t :=
  {| SimulatedParcel.id := "p1";
     SimulatedParcel.trackingCode := "TRK-1";
     SimulatedParcel.parcelData := parcelData;
     SimulatedParcel.route := Some (route 10);
     SimulatedParcel.routePath := path;
     SimulatedParcel.currentPosition := {| lat := 4.5; lng := 9.5 |};
     SimulatedParcel.state := TRANSIT;
     SimulatedParcel.progress := 0.5;
     SimulatedParcel.pathIndex := 0;
     SimulatedParcel.startTime := Some (NewDate 1000);
     SimulatedParcel.estimatedArrival := Some (NewDate 901000);
     SimulatedParcel.actualArrival := None;
     SimulatedParcel.speed := 0;
     SimulatedParcel.affectedByIncidents := [] |}.

(** A filled form, from hub 1 to hub 2. *)
Definition form : ParcelCreationForm.FormData :=
  {| ParcelCreationForm.senderName := "A";
     ParcelCreationForm.senderPhone := "1";
     ParcelCreationForm.recipientName := "B";
     ParcelCreationForm.recipientPhone := "2";
     ParcelCreationForm.pickupHubId := "hub-1";
     ParcelCreationForm.deliveryHubId := "hub-2";
     ParcelCreationForm.weightKg := 5;
     ParcelCreationForm.notes := "" |}.

(** An unresolved incident of radius 200 m at the end of [path]. *)
Definition endIncident : Incident.t :=
  {| Incident.id := "i9";
     Incident.type := ROAD_CLOSURE;
     Incident.position := {| lat := 5; lng := 10 |};
     Incident.radius := 200;
     Incident.affectedRouteIds := [];
     Incident.timestamp := NewDate 500;
     Incident.resolved := false;
     Incident.description := "Incident" |}.

(** The updates object [{ state }]. *)
Definition stateOnly (state : ParcelState) : ParcelUpdates.t :=
  {| ParcelUpdates.id := None;
     ParcelUpdates.trackingCode := None;
     ParcelUpdates.parcelData := None;
     ParcelUpdates.route := None;
     ParcelUpdates.routePath := None;
     ParcelUpdates.currentPosition := None;
     ParcelUpdates.state := Some state;
     ParcelUpdates.progress := None;
     ParcelUpdates.pathIndex := None;
     ParcelUpdates.startTime := None;
     ParcelUpdates.estimatedArrival := None;
     ParcelUpdates.actualArrival := None;
     ParcelUpdates.speed := None;
     ParcelUpdates.affectedByIncidents := None |}.

(** The updates object [{ progress }]. *)
Definition progressOnly (progress : number) : ParcelUpdates.t :=
  {| ParcelUpdates.id := None;
     ParcelUpdates.trackingCode := None;
     ParcelUpdates.parcelData := None;
     ParcelUpdates.route := None;
     ParcelUpdates.routePath := None;
     ParcelUpdates.currentPosition := None;
     ParcelUpdates.state := None;
     ParcelUpdates.progress := Some progress;
     ParcelUpdates.pathIndex := None;
     ParcelUpdates.startTime := None;
     ParcelUpdates.estimatedArrival := None;
     ParcelUpdates.actualArrival := None;
     ParcelUpdates.speed := None;
     ParcelUpdates.affectedByIncidents := None |}.

(** The data of a second parcel. *)
Definition otherParcelData : ParcelResponse.t :=
  {| ParcelResponse.id := "p2";
     ParcelResponse.trackingCode := "TRK-2";
     ParcelResponse.currentState := "CREATED";
     ParcelResponse.pickupLocation := "hub-2";
     ParcelResponse.deliveryLocation := "hub-1";
     ParcelResponse.senderName := None;
     ParcelResponse.recipientName := None;
     ParcelResponse.weightKg := None |}.

(** A playing store with one planned parcel at the start of [path] and an
    incident around that point. *)
Definition plannedStore : SimulationState.t :=
  Store.simulationReducer
    (Store.simulationReducer (storeWith (parcel PLANNED 10 0))
       (ADD_INCIDENT (incident "i1" TRAFFIC)))
    PLAY.

(** A playing store with one parcel in transit at the start of [path] and
    an incident around the end of it. *)
Definition arrivalStore : SimulationState.t :=
  Store.simulationReducer
    (Store.simulationReducer (storeWith (parcel TRANSIT 10 0))
       (ADD_INCIDENT endIncident))
    PLAY.

End Samples.

(* ================================================================== *)
(** * Signs of specified floats *)
(* ================================================================== *)

(** The order [0 <= x] and [0 < x] of binary64 values, on the
    specification side ([-0] counts as zero). *)
Definition SFnonneg (x : spec_float) : bool :=
  match x with
  | S754_zero _ | S754_infinity false | S754_finite false _ _ => true
  | _ => false
  end.

Definition SFpos (x : spec_float) : bool :=
  match x with
  | S754_infinity false | S754_finite false _ _ => true
  | _ => false
  end.

(** Neither zero nor a finite number: an infinity or NaN. *)
Definition SFnonfinite (x : spec_float) : bool :=
  match x with
  | S754_nan | S754_infinity _ => true
  | _ => false
  end.

Definition SFiszero (x : spec_float) : bool :=
  match x with
  | S754_zero _ => true
  | _ => false
  end.

Definition SFfinite (x : spec_float) : bool :=
  match x with
  | S754_zero _ | S754_finite _ _ _ => true
  | _ => false
  end.

Definition SFhas_sign (sx : bool) (x : spec_float) : bool :=
  match x with
  | S754_zero s | S754_infinity s | S754_finite s _ _ => Bool.eqb s sx
  | S754_nan => false
  end.

(* ================================================================== *)
(** * Facts on IEEE 754 arithmetic, from the specification [SpecFloat] *)
(* ================================================================== *)

Section SpecFloatFacts.
Local Open Scope Z_scope.
Variables prec emax : Z.
Hypothesis prec_pos : 0 < prec.

Abbreviation fexp := (SpecFloat.fexp prec emax).
Abbreviation emin := (SpecFloat.emin prec emax).

Lemma fexp_ge_emin e : emin <= fexp e.
Proof. unfold SpecFloat.fexp. lia. Qed.

Lemma fexp_mono a b : a <= b -> fexp a <= fexp b.
Proof. unfold SpecFloat.fexp. lia. Qed.

Lemma digits2_pos_bounds m :
  2 ^ (Zpos (digits2_pos m) - 1) <= Zpos m < 2 ^ Zpos (digits2_pos m).
Proof.
  induction m as [p IH | p IH |]; cbn [digits2_pos].
  - rewrite Pos2Z.inj_succ, Pos2Z.inj_xI.
    replace (Z.succ (Zpos (digits2_pos p)) - 1) with (Z.succ (Zpos (digits2_pos p) - 1)) by lia.
    rewrite !Z.pow_succ_r by lia.
    generalize dependent (2 ^ (Zpos (digits2_pos p) - 1)).
    generalize dependent (2 ^ Zpos (digits2_pos p)). lia.
  - rewrite Pos2Z.inj_succ. change (Zpos p~0) with (2 * Zpos p).
    replace (Z.succ (Zpos (digits2_pos p)) - 1) with (Z.succ (Zpos (digits2_pos p) - 1)) by lia.
    rewrite !Z.pow_succ_r by lia.
    generalize dependent (2 ^ (Zpos (digits2_pos p) - 1)).
    generalize dependent (2 ^ Zpos (digits2_pos p)). lia.
  - cbn. lia.
Qed.

Lemma digits2_pos_mono m n :
  (m <= n)%positive -> Zpos (digits2_pos m) <= Zpos (digits2_pos n).
Proof.
  intros Hle.
  destruct (Z_le_gt_dec (Zpos (digits2_pos m)) (Zpos (digits2_pos n))) as [|Hgt]; [assumption|].
  exfalso.
  pose proof (digits2_pos_bounds m) as [Hm _].
  pose proof (digits2_pos_bounds n) as [_ Hn].
  assert (2 ^ Zpos (digits2_pos n) <= 2 ^ (Zpos (digits2_pos m) - 1))
    by (apply Z.pow_le_mono_r; lia).
  lia.
Qed.

Lemma iter_xO_value m d : Zpos (Pos.iter xO m d) = Zpos m * 2 ^ Zpos d.
Proof.
  change (Pos.iter xO m d) with (shift_pos d m).
  rewrite shift_pos_correct, Z.pow_pos_fold. apply Z.mul_comm.
Qed.

Lemma iter_xO_digits m d :
  Zpos (digits2_pos (Pos.iter xO m d)) = Zpos (digits2_pos m) + Zpos d.
Proof.
  induction d as [|d IH] using Pos.peano_ind.
  - cbn. lia.
  - rewrite Pos.iter_succ. cbn [digits2_pos]. lia.
Qed.

Lemma shr_1_m mrs : 0 <= shr_m mrs -> shr_m (shr_1 mrs) = shr_m mrs / 2.
Proof.
  destruct mrs as [m r s]. cbn [shr_m]. intros Hm.
  destruct m as [|[p|p|]|p]; cbn [shr_1 shr_m].
  - reflexivity.
  - apply Z.div_unique with 1; lia.
  - apply Z.div_unique with 0; lia.
  - reflexivity.
  - lia.
Qed.

Lemma iter_shr_1_m p : forall mrs,
  0 <= shr_m mrs ->
  shr_m (iter_pos shr_1 p mrs) = shr_m mrs / 2 ^ Zpos p.
Proof.
  induction p as [p IH | p IH |]; intros mrs Hm; cbn [iter_pos].
  - assert (H1 : 0 <= shr_m (shr_1 mrs))
      by (rewrite shr_1_m by assumption; apply Z.div_pos; lia).
    assert (H2 : 0 <= shr_m (iter_pos shr_1 p (shr_1 mrs)))
      by (rewrite IH by assumption; apply Z.div_pos; lia).
    rewrite IH by assumption. rewrite IH by assumption.
    rewrite shr_1_m by assumption.
    rewrite !Z.div_div by lia.
    f_equal.
    replace (Zpos p~1) with (Zpos p + Zpos p + 1) by lia.
    rewrite !Z.pow_add_r by lia. change (2 ^ 1) with 2. ring.
  - assert (H2 : 0 <= shr_m (iter_pos shr_1 p mrs))
      by (rewrite IH by assumption; apply Z.div_pos; lia).
    rewrite IH by assumption. rewrite IH by assumption.
    rewrite !Z.div_div by lia.
    f_equal.
    replace (Zpos p~0) with (Zpos p + Zpos p) by lia.
    rewrite !Z.pow_add_r by lia. ring.
  - rewrite shr_1_m by assumption. reflexivity.
Qed.

Lemma shr_record_of_loc_m m l : shr_m (shr_record_of_loc m l) = m.
Proof. destruct l as [|[]]; reflexivity. Qed.

(** [shr_fexp] divides the mantissa by the power of two that brings the
    exponent up to [fexp]. *)
Lemma shr_fexp_spec m e l :
  0 <= m ->
  let r := shr_fexp prec emax m e l in
  snd r = Z.max e (fexp (Zdigits2 m + e)) /\
  shr_m (fst r) = m / 2 ^ (snd r - e).
Proof.
  intros Hm. unfold shr_fexp, shr.
  destruct (fexp (Zdigits2 m + e) - e) as [|p|p] eqn:Hd; cbn [fst snd].
  - split; [lia|]. rewrite Z.sub_diag, Z.div_1_r. apply shr_record_of_loc_m.
  - split; [lia|].
    rewrite iter_shr_1_m by (rewrite shr_record_of_loc_m; assumption).
    rewrite shr_record_of_loc_m. do 2 f_equal. lia.
  - split; [lia|]. rewrite Z.sub_diag, Z.div_1_r. apply shr_record_of_loc_m.
Qed.

Lemma round_nearest_even_ge m l : m <= round_nearest_even m l.
Proof. destruct l as [|[]]; cbn; try lia. destruct (Z.even m); lia. Qed.

(** The two-stage rounding of [binary_round_aux], read off its code. *)
Lemma binary_round_aux_shape sx m e l :
  0 <= m ->
  exists m1 m2 e1 e2,
    e1 = Z.max e (fexp (Zdigits2 m + e)) /\
    m / 2 ^ (e1 - e) <= m1 /\
    e2 = Z.max e1 (fexp (Zdigits2 m1 + e1)) /\
    m2 = m1 / 2 ^ (e2 - e1) /\
    binary_round_aux prec emax sx m e l =
      match m2 with
      | Z0 => S754_zero sx
      | Zpos p => if e2 <=? emax - prec then S754_finite sx p e2
                  else S754_infinity sx
      | Zneg _ => S754_nan
      end.
Proof.
  intros Hm. unfold binary_round_aux.
  pose proof (shr_fexp_spec m e l Hm) as H1. cbv zeta in H1.
  destruct (shr_fexp prec emax m e l) as [mrs1 e1]. cbn [fst snd] in H1.
  destruct H1 as [He1 Hm1].
  set (m1 := round_nearest_even (shr_m mrs1) (loc_of_shr_record mrs1)).
  assert (Hge : shr_m mrs1 <= m1) by apply round_nearest_even_ge.
  assert (Hm1pos : 0 <= m1).
  { rewrite Hm1 in Hge. assert (0 <= m / 2 ^ (e1 - e)) by (apply Z.div_pos; lia). lia. }
  pose proof (shr_fexp_spec m1 e1 loc_Exact Hm1pos) as H2. cbv zeta in H2.
  destruct (shr_fexp prec emax m1 e1 loc_Exact) as [mrs2 e2]. cbn [fst snd] in H2.
  destruct H2 as [He2 Hm2].
  exists m1, (shr_m mrs2), e1, e2.
  repeat split; try assumption.
  rewrite <- Hm1. assumption.
Qed.

(** The sign of a rounded non-negative mantissa is the one asked for. *)
Lemma binary_round_aux_sign sx m e l :
  0 <= m -> SFhas_sign sx (binary_round_aux prec emax sx m e l) = true.
Proof.
  intros Hm.
  destruct (binary_round_aux_shape sx m e l Hm)
    as (m1 & m2 & e1 & e2 & He1 & Hm1 & He2 & Hm2 & ->).
  assert (0 <= m2).
  { subst m2. apply Z.div_pos; [|lia].
    assert (0 <= m / 2 ^ (e1 - e)) by (apply Z.div_pos; lia). lia. }
  destruct m2; [| |lia]; cbn.
  - apply eqb_reflx.
  - destruct (e2 <=? emax - prec); cbn; apply eqb_reflx.
Qed.

Lemma shl_align_down mx ex ex' :
  ex' <= ex ->
  Zpos (fst (shl_align mx ex ex')) = Zpos mx * 2 ^ (ex - ex') /\
  Zpos (digits2_pos (fst (shl_align mx ex ex'))) =
    Zpos (digits2_pos mx) + (ex - ex').
Proof.
  intros Hle. unfold shl_align.
  destruct (ex' - ex) as [|d|d] eqn:Hd; cbn [fst]; try lia.
  - replace (ex - ex') with 0 by lia. cbn. lia.
  - replace (ex - ex') with (Zpos d) by lia.
    split; [apply iter_xO_value | apply iter_xO_digits].
Qed.

Lemma shl_align_up mx ex ex' : ex <= ex' -> shl_align mx ex ex' = (mx, ex).
Proof.
  intros Hle. unfold shl_align.
  destruct (ex' - ex) as [|d|d] eqn:Hd; try reflexivity. lia.
Qed.

(** The second rounding stage keeps a positive mantissa positive. *)
Lemma second_stage_pos m1 e1 :
  0 < m1 -> emin <= e1 ->
  0 < m1 / 2 ^ (Z.max e1 (fexp (Zdigits2 m1 + e1)) - e1).
Proof.
  intros Hm He.
  destruct m1 as [|p|p]; try lia. cbn [Zdigits2].
  pose proof (digits2_pos_bounds p) as [Hlo _].
  set (d := Zpos (digits2_pos p)) in *.
  assert (Hd : 0 < d) by (unfold d; lia).
  set (k := Z.max e1 (fexp (d + e1)) - e1).
  assert (Hk : 0 <= k <= d - 1) by (unfold k, SpecFloat.fexp; lia).
  apply Z.div_str_pos. split; [apply Z.pow_pos_nonneg; lia|].
  apply Z.le_trans with (2 ^ (d - 1)); [|assumption].
  apply Z.pow_le_mono_r; lia.
Qed.

Lemma SFleb_finite_pos ma ea m2 e2 :
  0 < m2 -> ea < e2 \/ (e2 = ea /\ Zpos ma <= m2) ->
  SFleb (S754_finite false ma ea)
    match m2 with
    | Z0 => S754_zero false
    | Zpos p => if e2 <=? emax - prec then S754_finite false p e2
                else S754_infinity false
    | Zneg _ => S754_nan
    end = true.
Proof.
  intros Hm H. destruct m2 as [|p|p]; try lia.
  destruct (e2 <=? emax - prec); [|reflexivity].
  unfold SFleb, SFcompare.
  destruct H as [Hlt | [-> Hle]].
  - apply Z.compare_lt_iff in Hlt. rewrite Hlt. reflexivity.
  - rewrite Z.compare_refl.
    change (Pos.compare_cont Eq ma p) with (Pos.compare ma p).
    destruct (Pos.compare_spec ma p); try reflexivity. lia.
Qed.

(** Adding a positive float to a positive float does not go below the
    first one. *)
Lemma SFadd_finite_ge ma ea mb eb :
  canonical_mantissa prec emax ma ea = true ->
  SFleb (S754_finite false ma ea)
    (SFadd prec emax (S754_finite false ma ea) (S754_finite false mb eb))
  = true.
Proof.
  intros Hcan. unfold canonical_mantissa in Hcan. apply Z.eqb_eq in Hcan.
  unfold SFadd. cbn [cond_Zopp].
  set (ez := Z.min ea eb).
  destruct (shl_align_down ma ea ez ltac:(lia)) as [HA HdA].
  set (A := fst (shl_align ma ea ez)) in *.
  set (B := fst (shl_align mb eb ez)).
  change (Zpos A + Zpos B) with (Zpos (A + B)).
  cbn [binary_normalize]. unfold binary_round.
  assert (Hdig : Zpos (digits2_pos A) <= Zpos (digits2_pos (A + B)))
    by (apply digits2_pos_mono; lia).
  assert (He1 : ea <= fexp (Zpos (digits2_pos (A + B)) + ez)).
  { rewrite <- Hcan at 1. apply fexp_mono. lia. }
  rewrite shl_align_up by lia.
  destruct (binary_round_aux_shape false (Zpos (A + B)) ez loc_Exact ltac:(lia))
    as (m1 & m2 & e1 & e2 & E1 & Hm1 & E2 & Hm2 & ->).
  cbn [Zdigits2] in E1.
  assert (Hemin : emin <= ea) by (rewrite <- Hcan; apply fexp_ge_emin).
  assert (He1' : e1 = fexp (Zpos (digits2_pos (A + B)) + ez)) by lia.
  assert (Hm1pos : 0 < m1 /\ (e1 = ea -> Zpos ma <= m1)).
  { split.
    - apply Z.lt_le_trans with (Zpos (A + B) / 2 ^ (e1 - ez)); [|assumption].
      pose proof (digits2_pos_bounds (A + B)) as [Hlo _].
      set (d := Zpos (digits2_pos (A + B))) in *.
      assert (Hk : 0 <= e1 - ez <= d - 1).
      { rewrite He1'. unfold SpecFloat.fexp in *. lia. }
      apply Z.div_str_pos. split; [apply Z.pow_pos_nonneg; lia|].
      apply Z.le_trans with (2 ^ (d - 1)); [|assumption].
      apply Z.pow_le_mono_r; lia.
    - intros ->.
      apply Z.le_trans with (Zpos (A + B) / 2 ^ (ea - ez)); [|assumption].
      apply Z.div_le_lower_bound; [apply Z.pow_pos_nonneg; lia|].
      rewrite Pos2Z.inj_add, HA. lia. }
  destruct Hm1pos as [Hm1pos Hm1ge].
  assert (Hm2pos : 0 < m2).
  { subst m2 e2. apply second_stage_pos; lia. }
  apply SFleb_finite_pos; [assumption|].
  destruct (Z.eq_dec e2 ea) as [Heq|Hne]; [right|left; lia].
  split; [assumption|].
  assert (e1 = ea) by lia.
  subst m2. replace (e2 - e1) with 0 by lia.
  rewrite Z.div_1_r. auto.
Qed.

Lemma SFltb_zero_l x : SFltb (S754_zero false) x = SFpos x.
Proof. destruct x as [s|[]| |[] m e]; reflexivity. Qed.

Lemma SFleb_zero_l x : SFleb (S754_zero false) x = SFnonneg x.
Proof. destruct x as [s|[]| |[] m e]; reflexivity. Qed.

Lemma SFnonneg_leb x y :
  SFnonneg x = true -> SFleb x y = true -> SFnonneg y = true.
Proof.
  destruct x as [sx|[]| |[] mx ex]; destruct y as [sy|[]| |[] my ey];
    cbn; try reflexivity; try discriminate.
Qed.

Lemma SFcompare_refl x : x <> S754_nan -> SFcompare x x = Some Eq.
Proof.
  destruct x as [s|[]| |[] m e]; intros H; try reflexivity; try congruence;
    cbn; rewrite Z.compare_refl, Pos.compare_cont_refl; reflexivity.
Qed.

Lemma SFcompare_antisym x y :
  SFcompare y x = option_map CompOpp (SFcompare x y).
Proof.
  destruct x as [sx|[]| |[] mx ex]; destruct y as [sy|[]| |[] my ey];
    try reflexivity; cbn;
    rewrite (Z.compare_antisym ex ey);
    destruct (ex ?= ey) eqn:He; cbn; try reflexivity;
    rewrite <- (Pos.compare_cont_antisym _ _ Eq);
    try rewrite CompOpp_involutive; reflexivity.
Qed.

Lemma SFltb_leb x y : SFltb x y = true -> SFleb x y = true.
Proof. unfold SFltb, SFleb. destruct (SFcompare x y) as [[]|]; auto. Qed.

Lemma SFleb_of_not_ltb x y :
  x <> S754_nan -> y <> S754_nan -> SFltb y x = false -> SFleb x y = true.
Proof.
  intros Hx Hy. unfold SFltb, SFleb. rewrite (SFcompare_antisym x y).
  assert (Hc : SFcompare x y <> None)
    by (destruct x as [sx|[]| |[] mx ex]; destruct y as [sy|[]| |[] my ey];
        cbn; congruence).
  destruct (SFcompare x y) as [[]|]; cbn; congruence.
Qed.

Lemma SFleb_not_nan x y :
  SFleb x y = true -> x <> S754_nan /\ y <> S754_nan.
Proof.
  destruct x as [sx|[]| |[] mx ex]; destruct y as [sy|[]| |[] my ey];
    cbn; split; congruence.
Qed.

(** [a <= a + b] for non-negative [a] and [b]. *)
Lemma SFadd_nonneg_ge x y :
  SpecFloat.valid_binary prec emax x = true ->
  SFnonneg x = true -> SFnonneg y = true ->
  SFleb x (SFadd prec emax x y) = true.
Proof.
  intros Hv Hx Hy.
  destruct x as [sx|[]| |[] mx ex]; try discriminate;
    destruct y as [sy|[]| |[] my ey]; try discriminate;
    try reflexivity.
  - destruct sx, sy; reflexivity.
  - unfold SFadd, SFleb. rewrite SFcompare_refl by discriminate. reflexivity.
  - cbn in Hv. apply andb_prop in Hv as [Hc _].
    apply SFadd_finite_ge; assumption.
Qed.

(** Products and quotients of non-negative floats are non-negative,
    unless they are NaN ([inf * 0], [inf / inf], [0 / 0]). *)
Lemma SFmul_nonneg x y :
  SFnonneg x = true -> SFnonneg y = true ->
  SFmul prec emax x y <> S754_nan ->
  SFnonneg (SFmul prec emax x y) = true.
Proof.
  intros Hx Hy.
  destruct x as [sx|[]| |[] mx ex]; try discriminate;
    destruct y as [sy|[]| |[] my ey]; try discriminate;
    cbn; try reflexivity; try congruence.
  intros _.
  pose proof (binary_round_aux_sign false (Zpos (mx * my)) (ex + ey) loc_Exact
                ltac:(lia)) as H.
  destruct (binary_round_aux _ _ _ _ _ _) as [s|s| |s m e];
    cbn in H |- *; try discriminate; destruct s; cbn in H; congruence.
Qed.

Lemma SFdiv_core_binary_nonneg mx ex my ey :
  0 <= fst (fst (SFdiv_core_binary prec emax (Zpos mx) ex (Zpos my) ey)).
Proof.
  unfold SFdiv_core_binary.
  set (m' := match _ with Zpos _ => _ | Z0 => _ | Zneg _ => _ end).
  assert (0 <= m').
  { unfold m'. destruct (_ - _ - _); try lia. apply Z.shiftl_nonneg. lia. }
  pose proof (Z_div_mod m' (Zpos my) ltac:(lia)) as Hdm.
  destruct (Z.div_eucl m' (Zpos my)) as [q r]. cbn [fst].
  destruct Hdm as [Heq Hr]. nia.
Qed.

(** A quotient of finite floats is a zero, a finite float or an infinity
    of the expected sign. *)
Lemma SFdiv_finite_sign sx mx ex sy my ey :
  SFhas_sign (xorb sx sy)
    (SFdiv prec emax (S754_finite sx mx ex) (S754_finite sy my ey)) = true.
Proof.
  unfold SFdiv.
  pose proof (SFdiv_core_binary_nonneg mx ex my ey) as Hmz.
  destruct (SFdiv_core_binary prec emax (Zpos mx) ex (Zpos my) ey) as [[mz ez] lz].
  cbn [fst] in Hmz. apply binary_round_aux_sign. assumption.
Qed.

Lemma SFdiv_nonneg x y :
  SFnonneg x = true -> SFpos y = true ->
  SFdiv prec emax x y <> S754_nan ->
  SFnonneg (SFdiv prec emax x y) = true.
Proof.
  intros Hx Hy.
  destruct x as [sx|[]| |[] mx ex]; try discriminate;
    destruct y as [sy|[]| |[] my ey]; try discriminate;
    try (cbn; first [reflexivity | congruence]).
  intros _.
  pose proof (SFdiv_finite_sign false mx ex false my ey) as H.
  destruct (SFdiv _ _ _ _) as [s|s| |s m e];
    cbn in H |- *; try discriminate; destruct s; cbn in H; congruence.
Qed.

(** A finite float divided by a positive one is not NaN. *)
Lemma SFdiv_finite_pos_not_nan x y :
  match x with S754_zero _ | S754_finite _ _ _ => True | _ => False end ->
  SFpos y = true ->
  SFdiv prec emax x y <> S754_nan.
Proof.
  intros Hx Hy.
  destruct x as [sx|sx| |sx mx ex]; try contradiction;
    destruct y as [sy|[]| |[] my ey]; try discriminate;
    try (cbn; discriminate).
  pose proof (SFdiv_finite_sign sx mx ex false my ey) as H.
  destruct (SFdiv _ _ _ _); cbn in H; congruence.
Qed.

End SpecFloatFacts.

(** ** Facts on binary64 floats, from their specification *)

Section Binary64.
Local Open Scope float_scope.

Let prec_pos64 : (0 < prec)%Z := eq_refl.

Lemma leb_zero_nonneg a : (0 <=? a) = SFnonneg (Prim2SF a).
Proof. rewrite leb_spec. apply SFleb_zero_l. Qed.

Lemma ltb_zero_pos a : (0 <? a) = SFpos (Prim2SF a).
Proof. rewrite ltb_spec. apply SFltb_zero_l. Qed.

Lemma is_nan_spec a :
  is_nan a = match Prim2SF a with S754_nan => true | _ => false end.
Proof.
  unfold is_nan. rewrite eqb_spec. unfold SFeqb.
  destruct (Prim2SF a) eqn:E; try reflexivity;
    rewrite SFcompare_refl by discriminate; reflexivity.
Qed.

Lemma is_nan_false a : is_nan a = false <-> Prim2SF a <> S754_nan.
Proof.
  rewrite is_nan_spec. destruct (Prim2SF a); split; congruence.
Qed.

Lemma leb_not_nan a b :
  (a <=? b) = true -> is_nan a = false /\ is_nan b = false.
Proof.
  rewrite leb_spec. intros H. apply SFleb_not_nan in H.
  rewrite !is_nan_false. exact H.
Qed.

Lemma add_nonneg_ge a b :
  (0 <=? a) = true -> (0 <=? b) = true -> (a <=? a + b) = true.
Proof.
  rewrite !leb_zero_nonneg, leb_spec, add_spec. intros Ha Hb.
  apply SFadd_nonneg_ge; auto using Prim2SF_valid.
Qed.

Lemma leb_nonneg_trans a b :
  (0 <=? a) = true -> (a <=? b) = true -> (0 <=? b) = true.
Proof.
  rewrite !leb_zero_nonneg, leb_spec. apply SFnonneg_leb.
Qed.

Lemma ltb_leb a b : (a <? b) = true -> (a <=? b) = true.
Proof. rewrite ltb_spec, leb_spec. apply SFltb_leb. Qed.

Lemma leb_of_not_ltb a b :
  is_nan a = false -> is_nan b = false ->
  (b <? a) = false -> (a <=? b) = true.
Proof.
  rewrite !is_nan_false, ltb_spec, leb_spec. apply SFleb_of_not_ltb.
Qed.

Lemma mul_nan_or_nonneg a b :
  (0 <=? a) = true -> (0 <=? b) = true ->
  is_nan (a * b) = false -> (0 <=? a * b) = true.
Proof.
  rewrite !leb_zero_nonneg, is_nan_false, mul_spec. intros Ha Hb Hn.
  apply SFmul_nonneg; auto.
Qed.

Lemma div_nan_or_nonneg a b :
  (0 <=? a) = true -> (0 <? b) = true ->
  is_nan (a / b) = false -> (0 <=? a / b) = true.
Proof.
  rewrite !leb_zero_nonneg, ltb_zero_pos, is_nan_false, div_spec.
  intros Ha Hb Hn. apply SFdiv_nonneg; auto.
Qed.

Lemma mul_not_nan a b :
  is_nan (a * b) = false -> is_nan a = false /\ is_nan b = false.
Proof.
  rewrite !is_nan_false, mul_spec.
  destruct (Prim2SF a), (Prim2SF b); cbn; intros H; split; congruence.
Qed.

Lemma div_not_nan a b :
  is_nan (a / b) = false -> is_nan a = false /\ is_nan b = false.
Proof.
  rewrite !is_nan_false, div_spec.
  destruct (Prim2SF a), (Prim2SF b); cbn; intros H; split; congruence.
Qed.

Lemma is_infinity_spec a :
  is_infinity a = match Prim2SF a with S754_infinity _ => true | _ => false end.
Proof.
  unfold is_infinity. rewrite eqb_spec, abs_spec.
  destruct (Prim2SF a) as [s|s| |s m e]; reflexivity.
Qed.

Lemma is_finite_spec a :
  is_finite a =
  match Prim2SF a with S754_zero _ | S754_finite _ _ _ => true | _ => false end.
Proof.
  unfold is_finite. rewrite is_nan_spec, is_infinity_spec.
  destruct (Prim2SF a); reflexivity.
Qed.

Lemma div_finite_pos_not_nan a b :
  is_finite a = true -> (0 <? b) = true -> is_nan (a / b) = false.
Proof.
  rewrite is_finite_spec, ltb_zero_pos, is_nan_false, div_spec. intros Ha Hb.
  apply SFdiv_finite_pos_not_nan; auto.
  destruct (Prim2SF a); try discriminate; exact I.
Qed.

End Binary64.

(* ================================================================== *)
(** * [updateParcelPosition] *)
(* ================================================================== *)

Section Advance.
Context {wkt : WktParser}.
Import SimulatedParcel SimulationEngine.
Local Open Scope float_scope.

(** [Math.min(s, 1)] stays within the bounds that [s] and [1] share. *)
Lemma Math_min_one_bounds p s :
  (0 <=? p) = true -> (p <=? 1) = true -> (p <=? s) = true ->
  (p <=? Math_min s 1) = true /\
  (0 <=? Math_min s 1) = true /\
  (Math_min s 1 <=? 1) = true.
Proof.
  intros H0 H1 Hs.
  destruct (leb_not_nan _ _ Hs) as [_ Hnan].
  assert (H0s : (0 <=? s) = true) by (eapply leb_nonneg_trans; eassumption).
  unfold Math_min. rewrite Hnan. cbn [orb].
  change (is_nan 1) with false. cbn iota.
  destruct (s <? 1) eqn:Hlt; [auto using ltb_leb|].
  destruct (1 <? s) eqn:Hgt; [repeat split; auto|].
  assert (Hle : (s <=? 1) = true) by (apply leb_of_not_ltb; auto).
  destruct (get_sign s); repeat split; auto.
Qed.

(** The progress increment of a frame is a number [>= 0] or NaN. *)
Lemma progressIncrement_nonneg parcel totalDistanceKm deltaTimeMs simulationSpeed :
  (0 <=? speed parcel) = true ->
  (0 <? totalDistanceKm) = true ->
  (0 <=? deltaTimeMs) = true ->
  (0 <=? simulationSpeed) = true ->
  is_nan (progressIncrement parcel totalDistanceKm deltaTimeMs simulationSpeed) = false ->
  (0 <=? progressIncrement parcel totalDistanceKm deltaTimeMs simulationSpeed) = true.
Proof.
  unfold progressIncrement. intros Hs Ht Hd Hm Hn.
  destruct (div_not_nan _ _ Hn) as [Hn1 _].
  destruct (mul_not_nan _ _ Hn1) as [Hn2 Hn3].
  destruct (div_not_nan _ _ Hn3) as [Hn4 _].
  destruct (div_not_nan _ _ Hn4) as [Hn5 _].
  apply div_nan_or_nonneg; auto.
  apply mul_nan_or_nonneg; auto.
  - apply mul_nan_or_nonneg; auto.
  - repeat (apply div_nan_or_nonneg; auto).
Qed.

(** The increment is not NaN as soon as the distance travelled in the
    frame is finite and the route's total distance is positive. *)
Lemma progressIncrement_defined parcel totalDistanceKm deltaTimeMs simulationSpeed :
  isFinite (speed parcel * simulationSpeed * (deltaTimeMs / 1000 / 60 / 60)) = true ->
  gt totalDistanceKm 0 = true ->
  is_nan (progressIncrement parcel totalDistanceKm deltaTimeMs simulationSpeed) = false.
Proof.
  unfold progressIncrement, isFinite, gt. apply div_finite_pos_not_nan.
Qed.

(** What [updateParcelPosition] computes once its guard has let the
    parcel through. *)
Lemma updateParcelPosition_advancing now parcel route0 deltaTimeMs simulationSpeed :
  state parcel = TRANSIT -> route parcel = Some route0 -> routePath parcel <> [] ->
  let newProgress :=
    Math_min (progress parcel
              + progressIncrement parcel (RouteResponse.totalDistanceKm route0)
                  deltaTimeMs simulationSpeed) 1 in
  let ip := interpolateAlongPath (routePath parcel) newProgress in
  let isDelivered := ge newProgress 0.99 in
  updateParcelPosition now parcel deltaTimeMs simulationSpeed =
  {| id := id parcel;
     trackingCode := trackingCode parcel;
     parcelData := parcelData parcel;
     route := route parcel;
     routePath := routePath parcel;
     currentPosition := position ip;
     state := if isDelivered then DELIVERED else TRANSIT;
     progress := newProgress;
     pathIndex := segmentIndex ip;
     startTime := startTime parcel;
     estimatedArrival := estimatedArrival parcel;
     actualArrival :=
       if isDelivered then Some (NewDate now) else actualArrival parcel;
     speed := speed parcel;
     affectedByIncidents := affectedByIncidents parcel |}.
Proof.
  intros Hst Hr Hp. unfold updateParcelPosition, progressIncrement.
  rewrite Hst, Hr. destruct (routePath parcel) as [|pt rest]; [congruence|].
  reflexivity.
Qed.

(** The guard of [updateParcelPosition]: anything but a [TRANSIT] parcel
    with a route and a non-empty path comes back as it is. *)
Lemma updateParcelPosition_guard now parcel deltaTimeMs simulationSpeed :
  state parcel <> TRANSIT \/ route parcel = None \/ routePath parcel = [] ->
  updateParcelPosition now parcel deltaTimeMs simulationSpeed = parcel.
Proof.
  unfold updateParcelPosition.
  intros [H | [H | H]].
  - destruct (state parcel); try reflexivity. congruence.
  - rewrite H. destruct (state parcel); reflexivity.
  - rewrite H. destruct (state parcel), (route parcel); reflexivity.
Qed.

(** C1 (amended): for a [TRANSIT] parcel with a route and a non-empty
    path whose progress lies in [0,1], whose speed is [>= 0] and whose
    route has a total distance [> 0], and for all [deltaTime >= 0] and
    [speedMultiplier >= 0] for which the frame's progress increment is not
    NaN (it is not as soon as the distance travelled in the frame is
    finite, [progressIncrement_defined]), [updateParcelPosition] returns a
    progress that is [>=] the input progress and lies in [0,1]. The
    comparisons are those of IEEE 754 binary64, rounding and overflow
    included. *)
Theorem updateParcelPosition_progress_monotone_bounded
    now parcel route0 deltaTimeMs simulationSpeed :
  state parcel = TRANSIT -> route parcel = Some route0 -> routePath parcel <> [] ->
  ge (progress parcel) 0 = true -> ge 1 (progress parcel) = true ->
  ge (speed parcel) 0 = true ->
  gt (RouteResponse.totalDistanceKm route0) 0 = true ->
  ge deltaTimeMs 0 = true -> ge simulationSpeed 0 = true ->
  is_nan (progressIncrement parcel (RouteResponse.totalDistanceKm route0)
            deltaTimeMs simulationSpeed) = false ->
  let parcel' := updateParcelPosition now parcel deltaTimeMs simulationSpeed in
  ge (progress parcel') (progress parcel) = true /\
  ge (progress parcel') 0 = true /\
  ge 1 (progress parcel') = true.
Proof.
  intros Hst Hr Hp H0 H1 Hs Ht Hd Hm Hn parcel'. subst parcel'.
  unfold ge, gt in *.
  rewrite (updateParcelPosition_advancing now parcel route0) by assumption.
  cbn [progress].
  apply Math_min_one_bounds; auto.
  apply add_nonneg_ge; auto.
  apply progressIncrement_nonneg; auto.
Qed.

(** C2: once the guard has let the parcel through, [updateParcelPosition]
    moves it to [DELIVERED] and stamps [actualArrival] exactly when the
    newly computed progress is [>= 0.99], and otherwise leaves both as they
    were: a resulting progress of 0.989 stays [TRANSIT], one of 0.991
    becomes [DELIVERED]; and a parcel with speed 40, progress 0 and a route
    of total distance 10 reaches progress exactly 1 and [DELIVERED] in one
    call with [deltaTimeMs = 900000] and [simulationSpeed = 1]. *)
Theorem updateParcelPosition_delivered_iff
    now parcel route0 deltaTimeMs simulationSpeed :
  state parcel = TRANSIT -> route parcel = Some route0 -> routePath parcel <> [] ->
  let parcel' := updateParcelPosition now parcel deltaTimeMs simulationSpeed in
  (state parcel' = DELIVERED <-> ge (progress parcel') 0.99 = true) /\
  (state parcel' = TRANSIT <-> ge (progress parcel') 0.99 = false) /\
  actualArrival parcel' =
    (if ge (progress parcel') 0.99 then Some (NewDate now)
     else actualArrival parcel) /\
  (progress parcel' = 0.989 -> state parcel' = TRANSIT) /\
  (progress parcel' = 0.991 -> state parcel' = DELIVERED) /\
  (speed parcel = 40 ->
   RouteResponse.totalDistanceKm route0 = 10 ->
   progress parcel = 0 ->
   let delivered := updateParcelPosition now parcel 900000 1 in
   progress delivered = 1 /\ state delivered = DELIVERED /\
   actualArrival delivered = Some (NewDate now)).
Proof.
  intros Hst Hr Hp parcel'. subst parcel'.
  rewrite (updateParcelPosition_advancing now parcel route0) by assumption.
  cbn [progress state actualArrival].
  set (newProgress := Math_min _ 1).
  repeat split.
  - destruct (ge newProgress 0.99); [reflexivity|discriminate].
  - destruct (ge newProgress 0.99); [reflexivity|discriminate].
  - destruct (ge newProgress 0.99); [discriminate|reflexivity].
  - destruct (ge newProgress 0.99); [discriminate|reflexivity].
  - intros ->. reflexivity.
  - intros ->. reflexivity.
  - rewrite (updateParcelPosition_advancing now parcel route0) by assumption.
    cbn [progress]. unfold progressIncrement. rewrite H, H0, H1. reflexivity.
  - rewrite (updateParcelPosition_advancing now parcel route0) by assumption.
    cbn [state]. unfold progressIncrement. rewrite H, H0, H1. reflexivity.
  - rewrite (updateParcelPosition_advancing now parcel route0) by assumption.
    cbn [actualArrival]. unfold progressIncrement. rewrite H, H0, H1. reflexivity.
Qed.

(** C6: on a parcel that is [PLANNED], [INCIDENT] or [DELIVERED], or whose
    path is empty, [updateParcelPosition] returns the parcel itself, for
    every [deltaTimeMs] and [simulationSpeed], and calling it again on the
    result changes nothing either. *)
Theorem updateParcelPosition_noop now parcel deltaTimeMs simulationSpeed :
  state parcel = PLANNED \/ state parcel = INCIDENT \/
  state parcel = DELIVERED \/ routePath parcel = [] ->
  updateParcelPosition now parcel deltaTimeMs simulationSpeed = parcel /\
  forall now' deltaTimeMs' simulationSpeed',
    updateParcelPosition now'
      (updateParcelPosition now parcel deltaTimeMs simulationSpeed)
      deltaTimeMs' simulationSpeed'
    = updateParcelPosition now parcel deltaTimeMs simulationSpeed.
Proof.
  intros H.
  assert (G : state parcel <> TRANSIT \/ route parcel = None \/ routePath parcel = [])
    by (destruct H as [H | [H | [H | H]]]; auto; left; congruence).
  rewrite (updateParcelPosition_guard now) by assumption.
  split; [reflexivity|].
  intros. apply updateParcelPosition_guard. assumption.
Qed.

(** C4, the code at a route of total distance zero: the division is not
    guarded. With [deltaTimeMs = 0] the increment is [0 / 0] and the new
    progress is NaN; with [deltaTimeMs = 16] it is [Infinity], the
    progress jumps to 1 and the parcel is [DELIVERED]. *)
Theorem updateParcelPosition_zero_distance now parcel route0 :
  state parcel = TRANSIT -> route parcel = Some route0 -> routePath parcel <> [] ->
  RouteResponse.totalDistanceKm route0 = 0 ->
  speed parcel = 40 -> progress parcel = 0.5 ->
  is_nan (progress (updateParcelPosition now parcel 0 1)) = true /\
  state (updateParcelPosition now parcel 0 1) = TRANSIT /\
  progress (updateParcelPosition now parcel 16 1) = 1 /\
  state (updateParcelPosition now parcel 16 1) = DELIVERED.
Proof.
  intros Hst Hr Hp Ht Hs Hpr.
  rewrite !(updateParcelPosition_advancing now parcel route0) by assumption.
  cbn [progress state]. unfold progressIncrement. rewrite Ht, Hs, Hpr.
  repeat split; reflexivity.
Qed.

(** C5 (amended): [updateParcelRoute] keeps the progress exactly, sets the
    state to [TRANSIT], replaces [route], [routePath], [currentPosition]
    (the interpolation of the new path at the same progress) and
    [estimatedArrival] (from the new route's duration), and leaves every
    other field as it was. *)
Theorem updateParcelRoute_frame now parcel newRoute newRoutePath :
  let parcel' := updateParcelRoute now parcel newRoute newRoutePath in
  progress parcel' = progress parcel /\
  state parcel' = TRANSIT /\
  route parcel' = Some newRoute /\
  routePath parcel' = newRoutePath /\
  currentPosition parcel' =
    position (interpolateAlongPath newRoutePath (progress parcel)) /\
  estimatedArrival parcel' =
    Some (NewDate (now + RouteResponse.estimatedDurationMin newRoute * 60 * 1000)) /\
  id parcel' = id parcel /\
  trackingCode parcel' = trackingCode parcel /\
  parcelData parcel' = parcelData parcel /\
  pathIndex parcel' = pathIndex parcel /\
  startTime parcel' = startTime parcel /\
  actualArrival parcel' = actualArrival parcel /\
  speed parcel' = speed parcel /\
  affectedByIncidents parcel' = affectedByIncidents parcel.
Proof. cbn. repeat split. Qed.

End Advance.

(* ================================================================== *)
(** * [checkIncidentCollision] *)
(* ================================================================== *)

Section Collision.
Context {wkt : WktParser}.
Import SimulatedParcel SimulationEngine Props.

Lemma includes_In l x : includes l x = true <-> In x l.
Proof.
  unfold includes. rewrite existsb_exists. split.
  - intros (y & Hy & E). apply String.eqb_eq in E. subst. assumption.
  - intros H. exists x. split; [assumption | apply String.eqb_refl].
Qed.

Lemma collidesb_spec parcel incident :
  collidesb parcel incident = true <-> collides parcel incident.
Proof.
  unfold collidesb, collides.
  rewrite !andb_true_iff, !negb_true_iff, <- includes_In.
  destruct (includes _ _); intuition congruence.
Qed.

Lemma checkIncidentCollision_loop_cons parcel incident rest :
  checkIncidentCollision_loop parcel (incident :: rest) =
  if collidesb parcel incident then Some incident
  else checkIncidentCollision_loop parcel rest.
Proof.
  cbn [checkIncidentCollision_loop]. unfold collidesb.
  destruct (Incident.resolved incident); reflexivity.
Qed.

Lemma checkIncidentCollision_loop_sound parcel incidents :
  match checkIncidentCollision_loop parcel incidents with
  | Some incident =>
      exists before after,
        incidents = before ++ incident :: after /\
        collides parcel incident /\
        Forall (fun i => ~ collides parcel i) before
  | None => Forall (fun i => ~ collides parcel i) incidents
  end.
Proof.
  induction incidents as [|i rest IH]; [constructor|].
  rewrite checkIncidentCollision_loop_cons.
  destruct (collidesb parcel i) eqn:E.
  - exists [], rest. apply collidesb_spec in E. auto.
  - assert (Hi : ~ collides parcel i)
      by (rewrite <- collidesb_spec; congruence).
    destruct (checkIncidentCollision_loop parcel rest) as [found|].
    + destruct IH as (before & after & -> & Hc & Hb).
      exists (i :: before), after. auto.
    + constructor; assumption.
Qed.

Lemma checkIncidentCollision_loop_complete parcel before incident after :
  collides parcel incident ->
  Forall (fun i => ~ collides parcel i) before ->
  checkIncidentCollision_loop parcel (before ++ incident :: after) = Some incident.
Proof.
  intros Hc Hb. induction Hb as [|i before Hi Hb IH]; cbn [app];
    rewrite checkIncidentCollision_loop_cons.
  - apply collidesb_spec in Hc. rewrite Hc. reflexivity.
  - destruct (collidesb parcel i) eqn:E; [|assumption].
    apply collidesb_spec in E. contradiction.
Qed.

(** C3: [checkIncidentCollision] returns the first incident, in the
    iteration order of the map, that is unresolved, whose geofence
    contains the parcel's position and whose id is not among the parcel's
    [affectedByIncidents]; it returns null exactly when no incident meets
    the three conditions. So it never returns a resolved incident or one
    already recorded for the parcel, whatever the geometry says, and of
    two colliding incidents it returns the one inserted first. *)
Theorem checkIncidentCollision_first_match parcel incidents :
  (forall incident,
     checkIncidentCollision parcel incidents = Some incident <->
     exists before after,
       JSMap.values incidents = before ++ incident :: after /\
       collides parcel incident /\
       Forall (fun i => ~ collides parcel i) before) /\
  (checkIncidentCollision parcel incidents = None <->
   Forall (fun i => ~ collides parcel i) (JSMap.values incidents)) /\
  (forall incident,
     checkIncidentCollision parcel incidents = Some incident ->
     Incident.resolved incident = false /\
     ~ In (Incident.id incident) (affectedByIncidents parcel)) /\
  (forall first second,
     Incident.id first <> Incident.id second ->
     collides parcel first -> collides parcel second ->
     checkIncidentCollision parcel
       (JSMap.set (Incident.id second) second
          (JSMap.set (Incident.id first) first JSMap.empty))
     = Some first).
Proof.
  unfold checkIncidentCollision.
  pose proof (checkIncidentCollision_loop_sound parcel (JSMap.values incidents)) as S.
  repeat split.
  - intros E. rewrite E in S. exact S.
  - intros (before & after & E & Hc & Hb). rewrite E.
    apply checkIncidentCollision_loop_complete; assumption.
  - intros E. rewrite E in S. exact S.
  - intros Hall.
    destruct (checkIncidentCollision_loop parcel (JSMap.values incidents))
      as [found|]; [|reflexivity].
    destruct S as (before & after & E & Hc & _).
    rewrite Forall_forall in Hall. exfalso. apply (Hall found); [|assumption].
    rewrite E. apply in_or_app. right. left. reflexivity.
  - rewrite H in S. destruct S as (_ & _ & _ & Hc & _). apply Hc.
  - rewrite H in S. destruct S as (_ & _ & _ & Hc & _). apply Hc.
  - intros first second Hne Hf Hs. cbn [JSMap.set JSMap.empty].
    destruct (String.eqb_spec (Incident.id second) (Incident.id first)) as [E|_];
      [congruence|].
    cbn [JSMap.values map snd].
    apply (checkIncidentCollision_loop_complete parcel [] first [second]);
      [assumption | constructor].
Qed.

End Collision.

(* ================================================================== *)
(** * Maps *)
(* ================================================================== *)

Section MapFacts.
Context {V : Type}.
Implicit Types (m : JSMap.t V) (k : string) (v : V).

Lemma get_set_same k v m : JSMap.get k (JSMap.set k v m) = Some v.
Proof.
  induction m as [|[k' v'] rest IH]; cbn.
  - rewrite String.eqb_refl. reflexivity.
  - destruct (String.eqb_spec k k') as [->|Hne]; cbn.
    + rewrite String.eqb_refl. reflexivity.
    + destruct (String.eqb_spec k k'); [contradiction | assumption].
Qed.

(** Setting a key that is not in the prefix replaces its first entry. *)
Lemma set_middle k v v0 before after :
  ~ In k (JSMap.keys before) ->
  JSMap.set k v (before ++ (k, v0) :: after) = before ++ (k, v) :: after.
Proof.
  induction before as [|[k' v'] rest IH]; cbn; intros Hnot.
  - rewrite String.eqb_refl. reflexivity.
  - destruct (String.eqb_spec k k') as [->|Hne]; [exfalso; auto|].
    rewrite IH by auto. reflexivity.
Qed.

Lemma get_map_values (f : V -> V) k m :
  JSMap.get k (map (fun e => (fst e, f (snd e))) m) = option_map f (JSMap.get k m).
Proof.
  induction m as [|[k' v'] rest IH]; cbn; [reflexivity|].
  destruct (String.eqb k k'); [reflexivity | assumption].
Qed.

Lemma get_In k v m : JSMap.get k m = Some v -> In (k, v) m.
Proof.
  induction m as [|[k' v'] rest IH]; cbn; [discriminate|].
  destruct (String.eqb_spec k k') as [->|Hne].
  - intros [= ->]. left. reflexivity.
  - intros H. right. auto.
Qed.

Lemma In_get k v m : NoDup (JSMap.keys m) -> In (k, v) m -> JSMap.get k m = Some v.
Proof.
  induction m as [|[k' v'] rest IH]; cbn; intros Hnd Hin; [contradiction|].
  inversion Hnd as [|? ? Hnot Hnd']; subst.
  destruct Hin as [[= -> ->]|Hin].
  - rewrite String.eqb_refl. reflexivity.
  - destruct (String.eqb_spec k k') as [->|Hne]; [|auto].
    exfalso. apply Hnot. change k' with (fst (k', v)). apply in_map. assumption.
Qed.

Lemma keys_set_present k v m :
  JSMap.get k m <> None -> JSMap.keys (JSMap.set k v m) = JSMap.keys m.
Proof.
  induction m as [|[k' v'] rest IH]; cbn; [congruence|].
  destruct (String.eqb_spec k k') as [->|Hne]; cbn; [reflexivity|].
  intros H. f_equal. apply IH. assumption.
Qed.

Lemma Forall_set (P : string * V -> Prop) k v m :
  Forall P m -> (forall k', In k' (JSMap.keys m) -> String.eqb k k' = true -> P (k', v)) ->
  JSMap.get k m <> None ->
  Forall P (JSMap.set k v m).
Proof.
  induction m as [|[k' v'] rest IH]; cbn; [congruence|].
  intros HF Hp Hget. inversion HF; subst.
  destruct (String.eqb k k') eqn:E.
  - constructor; [apply Hp; auto | assumption].
  - constructor; [assumption|]. apply IH; auto.
Qed.

Lemma get_None_not_key k m : JSMap.get k m = None <-> ~ In k (JSMap.keys m).
Proof.
  induction m as [|[k' v'] rest IH]; cbn.
  - intuition.
  - destruct (String.eqb_spec k k') as [->|Hne].
    + split; [discriminate | intros H; exfalso; auto].
    + rewrite IH. intuition congruence.
Qed.

Lemma set_absent k v m : JSMap.get k m = None -> JSMap.set k v m = m ++ [(k, v)].
Proof.
  induction m as [|[k' v'] rest IH]; cbn; [reflexivity|].
  destruct (String.eqb k k'); [discriminate|].
  intros H. rewrite IH by assumption. reflexivity.
Qed.

Lemma keys_map_values (f : V -> V) m :
  JSMap.keys (map (fun e => (fst e, f (snd e))) m) = JSMap.keys m.
Proof.
  unfold JSMap.keys. rewrite map_map. reflexivity.
Qed.

Lemma get_set_other k k' v m :
  k' <> k -> JSMap.get k' (JSMap.set k v m) = JSMap.get k' m.
Proof.
  intros Hne. induction m as [|[k0 v0] rest IH]; cbn.
  - destruct (String.eqb_spec k' k); [contradiction | reflexivity].
  - destruct (String.eqb_spec k k0) as [->|Hk]; cbn.
    + destruct (String.eqb_spec k' k0); [contradiction | reflexivity].
    + destruct (String.eqb_spec k' k0); [reflexivity | assumption].
Qed.

End MapFacts.

Section ListFacts.
Context {A B : Type}.

Lemma removeNth_incl n (l : list A) x : In x (Runs.removeNth n l) -> In x l.
Proof.
  revert n. induction l as [|a rest IH]; intros [|n]; cbn; auto.
  intros [->|H]; eauto.
Qed.

Lemma map_removeNth (f : A -> B) n (l : list A) :
  map f (Runs.removeNth n l) = Runs.removeNth n (map f l).
Proof.
  revert n. induction l as [|a rest IH]; intros [|n]; cbn; auto.
  f_equal. apply IH.
Qed.

Lemma NoDup_removeNth n (l : list A) : NoDup l -> NoDup (Runs.removeNth n l).
Proof.
  revert n. induction l as [|a rest IH]; intros [|n] Hnd; cbn; auto;
    inversion Hnd; subst; auto.
  constructor; auto. intros Hin. apply removeNth_incl in Hin. contradiction.
Qed.

(** With distinct images, what is left after removing the [n]-th element
    differs from it by its image. *)
Lemma removeNth_distinct (f : A -> B) n (l : list A) x y :
  NoDup (map f l) -> nth_error l n = Some x -> In y (Runs.removeNth n l) ->
  f y <> f x.
Proof.
  revert n. induction l as [|a rest IH]; intros [|n] Hnd Hn Hin; cbn in *;
    try discriminate; inversion Hnd as [|? ? Hnot Hnd']; subst.
  - injection Hn as ->. intros E. apply Hnot. rewrite <- E. apply in_map. assumption.
  - destruct Hin as [->|Hin].
    + intros E. apply Hnot. rewrite E. apply in_map.
      eapply nth_error_In. eassumption.
    + eapply IH; eassumption.
Qed.

End ListFacts.

(* ================================================================== *)
(** * The reducer and the handlers *)
(* ================================================================== *)

Section StoreFacts.
Context {wkt : WktParser}.
Import SimulationState Store UseSimulation Props.

Lemma with_parcels_same state : with_parcels state (parcels state) = state.
Proof. destruct state; reflexivity. Qed.

Lemma with_incidents_same state : with_incidents state (incidents state) = state.
Proof. destruct state; reflexivity. Qed.

(** C10: with an id that is not a key of the map, [UPDATE_PARCEL] and
    [RESOLVE_INCIDENT] return a state equal to the one they got: no entry
    is created, none is changed, and nothing fails. *)
Theorem reducer_unknown_id_noop state :
  (forall id updates,
     JSMap.get id (parcels state) = None ->
     simulationReducer state (UPDATE_PARCEL id updates) = state) /\
  (forall id,
     JSMap.get id (incidents state) = None ->
     simulationReducer state (RESOLVE_INCIDENT id) = state).
Proof.
  split; intros; cbn [simulationReducer]; unfold JSMap.copy; rewrite H.
  - apply with_parcels_same.
  - apply with_incidents_same.
Qed.

(** C9: when [parseWKTLineString] yields fewer than two points for the
    route's geometry, the empty sequence included, [addParcel] with a route
    dispatches no action and does nothing but show one error toast; the
    store is left as it was. *)
Theorem addParcel_short_geometry_aborts now now' state parcelData route :
  List.length (parseWKTLineString (RouteResponse.routeGeometry route)) < 2 ->
  let effects := addParcel now now' state parcelData (Some route) in
  dispatched effects = [] /\
  (exists message, effects = [Toast toast_error message]) /\
  reduceEffects state effects = state.
Proof.
  intros Hlen effects. subst effects. unfold addParcel.
  destruct (JSString.falsy _); [cbn; eauto|].
  destruct (JSString.includes _ _); cbn [negb]; [|cbn; eauto].
  destruct (Nat.eqb_spec
              (List.length (parseWKTLineString (RouteResponse.routeGeometry route))) 0);
    [cbn; eauto|].
  destruct (Nat.ltb_spec
              (List.length (parseWKTLineString (RouteResponse.routeGeometry route))) 2);
    [cbn; eauto | lia].
Qed.

Lemma spread_ofParcel existing parcel :
  ParcelUpdates.spread existing (ParcelUpdates.ofParcel parcel) = parcel.
Proof. destruct parcel; reflexivity. Qed.

Lemma reduceEffects_dispatched state effects :
  reduceEffects state effects =
  fold_left simulationReducer (dispatched effects) state.
Proof.
  unfold reduceEffects, dispatched. revert state.
  induction effects as [|e rest IH]; intros state; [reflexivity|].
  cbn [fold_left flat_map]. rewrite IH.
  destruct e; reflexivity.
Qed.

(** C7, the code on a parcel without a route: the handler [startParcel]
    does not look at the route, so a [PLANNED] parcel with [route = null]
    and an empty path is stored back in [TRANSIT], still without a route. *)
Theorem startParcel_starts_routeless_parcel now state parcelId parcel :
  JSMap.get parcelId (parcels state) = Some parcel ->
  SimulatedParcel.route parcel = None ->
  SimulatedParcel.routePath parcel = [] ->
  SimulatedParcel.state parcel = PLANNED ->
  SimulatedParcel.state (SimulationEngine.startParcel now parcel) = TRANSIT /\
  let state' := reduceEffects state (startParcel now state parcelId) in
  exists parcel',
    JSMap.get parcelId (parcels state') = Some parcel' /\
    SimulatedParcel.state parcel' = TRANSIT /\
    SimulatedParcel.route parcel' = None /\
    SimulatedParcel.routePath parcel' = [].
Proof.
  intros Hget Hr Hp Hs. split; [reflexivity|].
  unfold startParcel. rewrite Hget.
  cbn [reduceEffects fold_left simulationReducer]. unfold JSMap.copy.
  rewrite Hget, spread_ofParcel. cbn [parcels with_parcels].
  rewrite get_set_same. eexists. split; [reflexivity|].
  cbn. auto.
Qed.

(** The store after [ADD_PARCEL]. *)
Lemma reducer_add_parcel st parcel :
  let st' := simulationReducer st (ADD_PARCEL parcel) in
  parcels st' = JSMap.set (SimulatedParcel.id parcel) parcel (parcels st) /\
  incidents st' = incidents st /\
  hubs st' = hubs st /\
  isPlaying st' = isPlaying st /\
  speed st' = speed st /\
  incidentPlacementMode st' = incidentPlacementMode st /\
  selectedIncidentType st' = selectedIncidentType st /\
  selectedParcelId st' = selectedParcelId st.
Proof. cbn. repeat split; reflexivity. Qed.

(** The effects of [addParcel]: nothing dispatched, or one [ADD_PARCEL]
    of a parcel with the id of the parcel data. *)
Lemma addParcel_dispatched now now' st parcelData route :
  dispatched (addParcel now now' st parcelData route) = [] \/
  exists parcel,
    SimulatedParcel.id parcel = ParcelResponse.id parcelData /\
    dispatched (addParcel now now' st parcelData route) = [ADD_PARCEL parcel].
Proof.
  unfold addParcel. destruct route as [route|].
  - destruct (JSString.falsy _); [left; reflexivity|].
    destruct (negb _); [left; reflexivity|].
    destruct (_ =? 0)%nat; [left; reflexivity|].
    destruct (_ <? 2)%nat; [left; reflexivity|].
    right. eexists. split; [|reflexivity]. reflexivity.
  - right. eexists. split; [|reflexivity]. reflexivity.
Qed.

End StoreFacts.

(* ================================================================== *)
(** * The clock tick *)
(* ================================================================== *)

Section Tick.
Context {wkt : WktParser}.
Import SimulationState Store UseSimulation Props.

Variables (now deltaTimeMs : number) (state : SimulationState.t).

Let tickEntry (e : string * SimulatedParcel.t) :=
  (fst e, tickParcel now deltaTimeMs state (snd e)).

Lemma updateParcelPosition_state now0 parcel dt mult :
  let parcel' := SimulationEngine.updateParcelPosition now0 parcel dt mult in
  SimulatedParcel.state parcel' = SimulatedParcel.state parcel \/
  (SimulatedParcel.state parcel = TRANSIT /\
   SimulatedParcel.state parcel' = DELIVERED).
Proof.
  unfold SimulationEngine.updateParcelPosition.
  destruct (SimulatedParcel.state parcel) eqn:Hs; auto.
  destruct (SimulatedParcel.route parcel); auto.
  destruct (SimulatedParcel.routePath parcel); auto.
  cbn [SimulatedParcel.state]. destruct (ge _ _); auto.
Qed.

Lemma tickParcel_state parcel :
  (SimulatedParcel.state parcel <> TRANSIT ->
   tickParcel now deltaTimeMs state parcel = parcel) /\
  (SimulatedParcel.state parcel = TRANSIT ->
   let s' := SimulatedParcel.state (tickParcel now deltaTimeMs state parcel) in
   s' = TRANSIT \/ s' = INCIDENT \/ s' = DELIVERED).
Proof.
  unfold tickParcel. split.
  - destruct (SimulatedParcel.state parcel); congruence.
  - intros Hs. rewrite Hs.
    destruct (SimulationEngine.checkIncidentCollision _ _); cbn; auto.
    destruct (updateParcelPosition_state now parcel deltaTimeMs (speed state))
      as [E | [_ E]]; cbv zeta in E; rewrite E; auto.
Qed.

Lemma loopBody_updatedParcels acc k parcel before after :
  updatedParcels acc = before ++ (k, parcel) :: after ->
  ~ In k (JSMap.keys before) ->
  updatedParcels (loopBody now deltaTimeMs state acc (k, parcel)) =
  before ++ tickEntry (k, parcel) :: after.
Proof.
  intros Hacc Hk. unfold loopBody, tickEntry, tickParcel. cbn [fst snd].
  destruct (SimulatedParcel.state parcel) eqn:Hs; try assumption.
  destruct (SimulationEngine.checkIncidentCollision _ _).
  - cbn [updatedParcels]. rewrite Hacc. apply set_middle. assumption.
  - destruct (isNewObject parcel) eqn:Hnew.
    + cbn [updatedParcels]. rewrite Hacc. apply set_middle. assumption.
    + rewrite Hacc. do 2 f_equal. f_equal. symmetry.
      apply updateParcelPosition_guard. unfold isNewObject in Hnew.
      rewrite Hs in Hnew.
      destruct (SimulatedParcel.route parcel); auto.
      destruct (SimulatedParcel.routePath parcel); auto. discriminate.
Qed.

Lemma loop_updatedParcels rest : forall before acc,
  updatedParcels acc = before ++ rest ->
  NoDup (JSMap.keys (before ++ rest)) ->
  updatedParcels (fold_left (loopBody now deltaTimeMs state) rest acc) =
  before ++ map tickEntry rest.
Proof.
  induction rest as [|[k parcel] rest IH]; intros before acc Hacc Hnd.
  - cbn. rewrite app_nil_r in *. assumption.
  - cbn [fold_left map].
    assert (Hk : ~ In k (JSMap.keys before)).
    { unfold JSMap.keys in *. rewrite map_app in Hnd. cbn in Hnd.
      apply NoDup_remove_2 in Hnd. intros Hin. apply Hnd.
      apply in_or_app. left. assumption. }
    pose proof (loopBody_updatedParcels acc k parcel before rest Hacc Hk) as Hstep.
    specialize (IH (before ++ [tickEntry (k, parcel)])
                   (loopBody now deltaTimeMs state acc (k, parcel))).
    rewrite <- !app_assoc in IH. cbn [app] in IH. apply IH.
    + assumption.
    + unfold JSMap.keys in *. rewrite map_app in *. cbn in *. assumption.
Qed.

Lemma loop_no_changes rest : forall acc start,
  (hasChanges acc = false -> updatedParcels acc = start) ->
  dispatched (recalculations acc) = [] ->
  let r := fold_left (loopBody now deltaTimeMs state) rest acc in
  (hasChanges r = false -> updatedParcels r = start) /\
  dispatched (recalculations r) = [].
Proof.
  induction rest as [|[k parcel] rest IH]; intros acc start Hinv Hrec;
    [split; assumption|].
  cbn [fold_left]. apply IH.
  - unfold loopBody. destruct (SimulatedParcel.state parcel); try assumption.
    destruct (SimulationEngine.checkIncidentCollision _ _);
      [cbn; discriminate|].
    destruct (isNewObject parcel); [cbn; discriminate | assumption].
  - unfold loopBody. destruct (SimulatedParcel.state parcel); try assumption.
    destruct (SimulationEngine.checkIncidentCollision _ _).
    + cbn [recalculations]. unfold dispatched in *.
      rewrite flat_map_app, Hrec. reflexivity.
    + destruct (isNewObject parcel); assumption.
Qed.

(** One tick rewrites every parcel of the store by [tickParcel]. *)
Lemma simulationLoop_parcels lastUpdate :
  NoDup (JSMap.keys (parcels state)) ->
  deltaTimeMs = (now - lastUpdate)%float ->
  isPlaying state = true ->
  parcels (reduceEffects state (simulationLoop now lastUpdate state)) =
  map tickEntry (parcels state).
Proof.
  intros Hnd Hdt Hplay. unfold simulationLoop. rewrite Hplay. cbn [negb].
  rewrite <- Hdt. unfold loopParcels, JSMap.copy.
  set (start := {| updatedParcels := parcels state;
                   hasChanges := false; recalculations := [] |}).
  pose proof (loop_updatedParcels (parcels state) [] start eq_refl Hnd) as Hspec.
  destruct (loop_no_changes (parcels state) start (parcels state)
              (fun _ => eq_refl) eq_refl) as [Hsame Hrec].
  cbn [app] in Hspec.
  set (r := fold_left (loopBody now deltaTimeMs state) (parcels state) start) in *.
  rewrite reduceEffects_dispatched. unfold dispatched in *.
  cbn [flat_map]. rewrite !flat_map_app, Hrec. cbn [app].
  destruct (hasChanges r).
  - cbn. assumption.
  - cbn. rewrite <- Hspec. symmetry. apply Hsame. reflexivity.
Qed.

End Tick.

(* ================================================================== *)
(** * Runs: ticks, completed recalculations and store actions *)
(* ================================================================== *)

Section RunFacts.
Context {wkt : WktParser}.
Import SimulationState Store UseSimulation Props Runs.

Lemma tickParcel_id now dt st parcel :
  SimulatedParcel.id (tickParcel now dt st parcel) = SimulatedParcel.id parcel.
Proof.
  unfold tickParcel, SimulationEngine.updateParcelPosition.
  destruct (SimulatedParcel.state parcel); try reflexivity.
  destruct (SimulationEngine.checkIncidentCollision _ _); cbn;
    destruct (SimulatedParcel.route parcel); try reflexivity;
    destruct (SimulatedParcel.routePath parcel); reflexivity.
Qed.

(** The requests a tick starts are those of [tickStarts], entry by entry. *)
Lemma loop_recalculations now dt st rest : forall acc,
  recalculations (fold_left (loopBody now dt st) rest acc) =
  recalculations acc ++ flat_map (fun e => tickStarts now dt st (snd e)) rest.
Proof.
  induction rest as [|[k parcel] rest IH]; intros acc; cbn [fold_left flat_map].
  - rewrite app_nil_r. reflexivity.
  - rewrite IH. cbn [snd]. rewrite app_assoc. f_equal.
    unfold loopBody, tickStarts.
    destruct (SimulatedParcel.state parcel); try (rewrite app_nil_r; reflexivity).
    destruct (SimulationEngine.checkIncidentCollision _ _); [reflexivity|].
    destruct (isNewObject parcel); rewrite app_nil_r; reflexivity.
Qed.

Lemma started_app l1 l2 : started (l1 ++ l2) = started l1 ++ started l2.
Proof. unfold started. apply flat_map_app. Qed.

Lemma started_simulationLoop now lastUpdate st :
  started (simulationLoop now lastUpdate st) =
  if isPlaying st
  then started (flat_map (fun e => tickStarts now (now - lastUpdate)%float st (snd e))
                  (parcels st))
  else [].
Proof.
  unfold simulationLoop. destruct (isPlaying st); [|reflexivity]. cbn [negb].
  change (started (SetLastUpdate now :: ?l)) with (started l).
  rewrite !started_app. unfold loopParcels. rewrite loop_recalculations.
  cbn [recalculations app].
  destruct (hasChanges _); cbn; rewrite app_nil_r; reflexivity.
Qed.

(** A request started by a tick belongs to an entry in [TRANSIT] and
    carries the parcel that the tick stores for it, in [INCIDENT]. *)
Lemma started_tickStarts now dt st (entries : JSMap.t SimulatedParcel.t)
    (q : SimulatedParcel.t) (incident : Incident.t) :
  In (q, incident)
    (started (flat_map (fun e => tickStarts now dt st (snd e)) entries)) ->
  exists k parcel,
    In (k, parcel) entries /\
    SimulatedParcel.state parcel = TRANSIT /\
    q = tickParcel now dt st parcel /\
    SimulatedParcel.state q = INCIDENT.
Proof.
  induction entries as [|[k parcel] rest IH]; cbn [flat_map]; [intros []|].
  rewrite started_app, in_app_iff. cbn [snd]. intros [H|H].
  - exists k, parcel. unfold tickStarts, tickParcel in *.
    destruct (SimulatedParcel.state parcel) eqn:Hs; try contradiction.
    destruct (SimulationEngine.checkIncidentCollision _ _); [|contradiction].
    cbn in H. destruct H as [[= <- <-]|[]].
    repeat split; auto. left. reflexivity.
  - destruct (IH H) as (k' & p' & Hin & Hrest). exists k', p'.
    split; [right; assumption | assumption].
Qed.


Lemma tickStarts_shape now dt st parcel :
  started (tickStarts now dt st parcel) = [] \/
  exists incident,
    started (tickStarts now dt st parcel) = [(tickParcel now dt st parcel, incident)].
Proof.
  unfold tickStarts, tickParcel.
  destruct (SimulatedParcel.state parcel); auto.
  destruct (SimulationEngine.checkIncidentCollision _ _); auto.
  right. eexists. reflexivity.
Qed.

Lemma started_ids_in_keys now dt st (entries : JSMap.t SimulatedParcel.t) x :
  Forall (fun e => SimulatedParcel.id (snd e) = fst e) entries ->
  In x (map idOf
          (started (flat_map (fun e => tickStarts now dt st (snd e)) entries))) ->
  In x (JSMap.keys entries).
Proof.
  intros Hkeyed Hin. apply in_map_iff in Hin as ([q incident] & <- & Hin).
  apply started_tickStarts in Hin as (k & parcel & Hin & _ & -> & _).
  unfold idOf. cbn [fst]. rewrite tickParcel_id.
  rewrite Forall_forall in Hkeyed. specialize (Hkeyed _ Hin). cbn [fst snd] in Hkeyed.
  rewrite Hkeyed. change k with (fst (k, parcel)). apply in_map. assumption.
Qed.

Lemma started_ids_NoDup now dt st (entries : JSMap.t SimulatedParcel.t) :
  NoDup (JSMap.keys entries) ->
  Forall (fun e => SimulatedParcel.id (snd e) = fst e) entries ->
  NoDup (map idOf
           (started (flat_map (fun e => tickStarts now dt st (snd e)) entries))).
Proof.
  induction entries as [|[k parcel] rest IH]; intros Hnd Hkeyed; [constructor|].
  cbn [flat_map snd]. rewrite started_app, map_app.
  inversion Hnd as [|? ? Hnot Hnd']; subst.
  inversion Hkeyed as [|? ? Hk Hkeyed']; subst. cbn [fst snd] in Hk.
  destruct (tickStarts_shape now dt st parcel) as [-> | [incident ->]]; cbn [map app].
  - auto.
  - constructor; [|auto].
    unfold idOf at 1. cbn [fst]. rewrite tickParcel_id, Hk.
    intros Hin. apply Hnot. eapply started_ids_in_keys; eassumption.
Qed.


Lemma tick_parcels now lastUpdate st :
  NoDup (JSMap.keys (parcels st)) ->
  parcels (reduceEffects st (simulationLoop now lastUpdate st)) =
  if isPlaying st
  then map (fun e => (fst e, tickParcel now (now - lastUpdate)%float st (snd e)))
         (parcels st)
  else parcels st.
Proof.
  intros Hnd. destruct (isPlaying st) eqn:Hplay.
  - apply simulationLoop_parcels; auto.
  - unfold simulationLoop. rewrite Hplay. reflexivity.
Qed.

Lemma tickParcel_stopped now dt st parcel :
  SimulatedParcel.state parcel = INCIDENT -> tickParcel now dt st parcel = parcel.
Proof. intros H. apply tickParcel_state. congruence. Qed.

Lemma Consistent_tick sys now lastUpdate :
  Consistent sys -> Consistent (step sys (Tick now lastUpdate)).
Proof.
  intros [Hnd Hkeyed Hstop Hdist]. cbn [step].
  pose proof (tick_parcels now lastUpdate (store sys) Hnd) as Hp.
  pose proof (started_simulationLoop now lastUpdate (store sys)) as Hs.
  destruct (isPlaying (store sys)).
  2:{ constructor; cbn [store pending]; rewrite ?Hp, ?Hs, ?app_nil_r; assumption. }
  set (dt := (now - lastUpdate)%float) in *.
  constructor; cbn [store pending]; rewrite ?Hp, ?Hs.
  - rewrite keys_map_values. assumption.
  - rewrite Forall_map. cbn [fst snd].
    eapply Forall_impl; [|exact Hkeyed]. intros [k p]; cbn [fst snd].
    rewrite tickParcel_id. auto.
  - rewrite Forall_app. split.
    + eapply Forall_impl; [|exact Hstop]. intros [q incident].
      unfold idOf; cbn [fst].
      intros [Hget Hst]. split; [|assumption].
      rewrite (get_map_values (tickParcel now dt (store sys))), Hget. cbn.
      rewrite tickParcel_stopped; auto.
    + rewrite Forall_forall. intros [q incident] Hin. unfold idOf; cbn [fst].
      apply started_tickStarts in Hin as (k & parcel & Hin & _ & -> & Hst).
      split; [|assumption].
      rewrite tickParcel_id.
      rewrite Forall_forall in Hkeyed. specialize (Hkeyed _ Hin). cbn [fst snd] in Hkeyed.
      rewrite Hkeyed.
      rewrite (get_map_values (tickParcel now dt (store sys))).
      rewrite (In_get k parcel); auto.
  - rewrite map_app. apply NoDup_app; [assumption | |].
    + apply started_ids_NoDup; assumption.
    + intros x Hold Hnew.
      apply in_map_iff in Hold as ([q incident] & <- & Hq).
      rewrite Forall_forall in Hstop. destruct (Hstop _ Hq) as [Hget Hst].
      unfold idOf in Hget |- *. cbn [fst] in *.
      apply in_map_iff in Hnew as ([q' incident'] & Hid & Hq').
      apply started_tickStarts in Hq' as (k & parcel & Hin & Htr & -> & _).
      unfold idOf in Hid. cbn [fst] in Hid. rewrite tickParcel_id in Hid.
      rewrite Forall_forall in Hkeyed. specialize (Hkeyed _ Hin). cbn [fst snd] in Hkeyed.
      pose proof (In_get _ _ _ Hnd Hin) as Hget'.
      rewrite <- Hkeyed, Hid, Hget in Hget'. injection Hget' as ->.
      congruence.
Qed.


(** The store after a request completed: the parcel of the request is
    re-anchored when a new route came back, and nothing changes otherwise. *)
Lemma recalculation_parcels st now parcel incident response :
  JSMap.get (SimulatedParcel.id parcel) (parcels st) = Some parcel ->
  parcels (reduceEffects st (handleIncidentRecalculation now parcel incident response)) =
  match SimulatedParcel.route parcel, response with
  | Some _, Some newRoute =>
      JSMap.set (SimulatedParcel.id parcel)
        (SimulationEngine.updateParcelRoute now parcel newRoute
           (parseWKTLineString (RouteResponse.routeGeometry newRoute)))
        (parcels st)
  | _, _ => parcels st
  end.
Proof.
  intros Hget. unfold handleIncidentRecalculation.
  destruct (SimulatedParcel.route parcel); [|reflexivity].
  destruct response as [newRoute|]; [|reflexivity].
  cbn [reduceEffects fold_left simulationReducer]. unfold JSMap.copy.
  rewrite Hget, spread_ofParcel. reflexivity.
Qed.

Lemma Consistent_removeNth st pend index :
  Consistent {| store := st; pending := pend |} ->
  Consistent {| store := st; pending := removeNth index pend |}.
Proof.
  intros [Hnd Hkeyed Hstop Hdist]. cbn [store pending] in *.
  constructor; cbn [store pending]; auto.
  - rewrite Forall_forall in *. intros r Hin. apply Hstop.
    eapply removeNth_incl. eassumption.
  - rewrite map_removeNth. apply NoDup_removeNth. assumption.
Qed.

Lemma Consistent_recalculation sys index now response :
  Consistent sys -> Consistent (step sys (RecalculationDone index now response)).
Proof.
  intros Hc. cbn [step].
  destruct (nth_error (pending sys) index) as [[parcel incident]|] eqn:Hn;
    [|assumption].
  pose proof Hc as [Hnd Hkeyed Hstop Hdist].
  assert (Hq : JSMap.get (SimulatedParcel.id parcel) (parcels (store sys)) = Some parcel
               /\ SimulatedParcel.state parcel = INCIDENT).
  { rewrite Forall_forall in Hstop.
    apply (Hstop (parcel, incident)). eapply nth_error_In. eassumption. }
  destruct Hq as [Hget Hst].
  pose proof (recalculation_parcels (store sys) now parcel incident response Hget) as Hp.
  destruct sys as [st pend]. cbn [store pending] in *.
  apply (Consistent_removeNth st pend index) in Hc.
  destruct Hc as [_ _ Hstop' Hdist']. cbn [store pending] in *.
  destruct (SimulatedParcel.route parcel) as [r|] eqn:Hr.
  2:{ constructor; cbn [store pending]; rewrite ?Hp; assumption. }
  destruct response as [newRoute|].
  2:{ constructor; cbn [store pending]; rewrite ?Hp; assumption. }
  constructor; cbn [store pending]; rewrite ?Hp.
  - rewrite keys_set_present by congruence. assumption.
  - apply Forall_set; [assumption | | congruence].
    intros k' _ E. apply String.eqb_eq in E. subst k'. reflexivity.
  - rewrite Forall_forall in *. intros r' Hin.
    destruct (Hstop' r' Hin) as [Hget' Hst']. split; [|assumption].
    rewrite get_set_other; [assumption|].
    apply (removeNth_distinct idOf index pend (parcel, incident) r'); assumption.
  - assumption.
Qed.

Lemma reducer_no_parcel st action :
  carriesNoParcel action = true ->
  parcels (simulationReducer st action) = parcels st.
Proof. destruct action; cbn; congruence. Qed.

Lemma Consistent_control sys action :
  Consistent sys -> Consistent (step sys (Control action)).
Proof.
  intros Hc. cbn [step].
  destruct (carriesNoParcel action) eqn:E; [|assumption].
  destruct Hc as [Hnd Hkeyed Hstop Hdist].
  constructor; cbn [store pending]; rewrite ?reducer_no_parcel by assumption;
    assumption.
Qed.

Lemma Consistent_step sys event : Consistent sys -> Consistent (step sys event).
Proof.
  destruct event; auto using Consistent_tick, Consistent_recalculation,
    Consistent_control.
Qed.

(** One event moves the state of a parcel along at most one edge of the
    state machine, and leaves a [DELIVERED] or [PLANNED] parcel as it is. *)
Lemma step_edge sys event k parcel :
  Consistent sys ->
  JSMap.get k (parcels (store sys)) = Some parcel ->
  exists parcel',
    JSMap.get k (parcels (store (step sys event))) = Some parcel' /\
    (SimulatedParcel.state parcel' = SimulatedParcel.state parcel \/
     edge (SimulatedParcel.state parcel) (SimulatedParcel.state parcel')) /\
    (SimulatedParcel.state parcel = DELIVERED \/
     SimulatedParcel.state parcel = PLANNED -> parcel' = parcel).
Proof.
  intros Hc Hget. pose proof Hc as [Hnd Hkeyed Hstop Hdist].
  destruct event as [now lastUpdate | index now response | action]; cbn [step].
  - cbn [store]. rewrite tick_parcels by assumption.
    destruct (isPlaying (store sys)); [|eauto].
    set (dt := (now - lastUpdate)%float).
    rewrite (get_map_values (tickParcel now dt (store sys))), Hget. cbn [option_map].
    eexists. split; [reflexivity|].
    destruct (tickParcel_state now dt (store sys) parcel) as [Hfix Hmove].
    split; [|intros [E|E]; apply Hfix; congruence].
    destruct (SimulatedParcel.state parcel) eqn:Hs;
      try (rewrite Hfix by congruence; left; exact Hs).
    destruct (Hmove eq_refl) as [E | [E | E]]; cbv zeta in E; rewrite E;
      auto using edge.
  - destruct (nth_error (pending sys) index) as [[q incident]|] eqn:Hn; [|eauto].
    assert (Hq : JSMap.get (SimulatedParcel.id q) (parcels (store sys)) = Some q
                 /\ SimulatedParcel.state q = INCIDENT).
    { rewrite Forall_forall in Hstop.
      apply (Hstop (q, incident)). eapply nth_error_In. eassumption. }
    destruct Hq as [Hgetq Hst]. cbn [store].
    rewrite (recalculation_parcels (store sys) now q incident response Hgetq).
    destruct (SimulatedParcel.route q); [|eauto].
    destruct response as [newRoute|]; [|eauto].
    destruct (String.eqb_spec k (SimulatedParcel.id q)) as [->|Hne].
    + rewrite get_set_same. rewrite Hgetq in Hget. injection Hget as <-.
      eexists. split; [reflexivity|]. rewrite Hst. cbn.
      split; [right; constructor | intros [|]; discriminate].
    + rewrite get_set_other by assumption. eauto.
  - destruct (carriesNoParcel action) eqn:E; [|eauto].
    cbn [store]. rewrite reducer_no_parcel by assumption. eauto.
Qed.

Lemma path_trans s1 s2 s3 : path s1 s2 -> path s2 s3 -> path s1 s3.
Proof. intros H12 H23. induction H23; eauto using path. Qed.

Lemma run_path events : forall sys k parcel,
  Consistent sys ->
  JSMap.get k (parcels (store sys)) = Some parcel ->
  Consistent (run sys events) /\
  exists parcel',
    JSMap.get k (parcels (store (run sys events))) = Some parcel' /\
    path (SimulatedParcel.state parcel) (SimulatedParcel.state parcel') /\
    (SimulatedParcel.state parcel = DELIVERED \/
     SimulatedParcel.state parcel = PLANNED -> parcel' = parcel).
Proof.
  unfold run.
  induction events as [|event rest IH]; intros sys k parcel Hc Hget; cbn [fold_left].
  - split; [assumption|]. exists parcel.
    split; [assumption|]. split; [constructor | reflexivity].
  - destruct (step_edge sys event k parcel Hc Hget) as (p1 & Hget1 & Hedge & Hfix).
    destruct (IH (step sys event) k p1 (Consistent_step sys event Hc) Hget1)
      as (Hc' & p2 & Hget2 & Hpath & Hfix2).
    split; [assumption|]. exists p2. split; [assumption|]. split.
    + apply path_trans with (SimulatedParcel.state p1); [|assumption].
      destruct Hedge as [-> | Hedge]; eauto using path.
    + intros Hd. rewrite (Hfix Hd) in *. auto.
Qed.

(** The invariant holds of the initial store, and adding a parcel under
    a new id keeps it. *)
Lemma Consistent_initial : Consistent {| store := initialState; pending := [] |}.
Proof. constructor; cbn; constructor. Qed.

Lemma Consistent_addParcel sys now now' parcelData route :
  Consistent sys ->
  JSMap.get (ParcelResponse.id parcelData) (parcels (store sys)) = None ->
  Consistent
    {| store :=
         reduceEffects (store sys)
           (addParcel now now' (store sys) parcelData route);
       pending := pending sys |}.
Proof.
  intros [Hnd Hkeyed Hstop Hdist] Hfresh.
  assert (Hadd : forall p,
            SimulatedParcel.id p = ParcelResponse.id parcelData ->
            Consistent
              {| store := simulationReducer (store sys) (ADD_PARCEL p);
                 pending := pending sys |}).
  { intros p Hid. cbn [simulationReducer]. unfold JSMap.copy. rewrite Hid.
    constructor; cbn [store pending parcels with_parcels].
    - rewrite set_absent by assumption.
      unfold JSMap.keys in *. rewrite map_app. cbn [map fst].
      apply NoDup_app; [assumption | repeat constructor; intros [] |].
      intros k Hin [<-|[]]. apply get_None_not_key in Hfresh. contradiction.
    - rewrite set_absent by assumption.
      rewrite Forall_app. split; [assumption|]. repeat constructor. assumption.
    - eapply Forall_impl; [|exact Hstop]. intros r [Hget Hst]. split; [|assumption].
      rewrite <- Hget. apply get_set_other. congruence.
    - assumption. }
  unfold addParcel. destruct route as [route|].
  - destruct (JSString.falsy _); [constructor; assumption|].
    destruct (negb _); [constructor; assumption|].
    destruct (_ =? 0)%nat; [constructor; assumption|].
    destruct (_ <? 2)%nat; [constructor; assumption|].
    apply Hadd. reflexivity.
  - apply Hadd. reflexivity.
Qed.

End RunFacts.

Section SessionFacts.
Context {wkt : WktParser}.
Import SimulationState Store UseSimulation Props Runs.

(** The parcel map after the handler [startParcel]. *)
Lemma startParcel_parcels now st parcelId :
  parcels (reduceEffects st (startParcel now st parcelId)) =
  match JSMap.get parcelId (parcels st) with
  | Some parcel =>
      JSMap.set parcelId (SimulationEngine.startParcel now parcel) (parcels st)
  | None => parcels st
  end.
Proof.
  unfold startParcel.
  destruct (JSMap.get parcelId (parcels st)) as [parcel|] eqn:Hget; [|reflexivity].
  cbn [reduceEffects fold_left simulationReducer]. unfold JSMap.copy.
  rewrite Hget, spread_ofParcel. reflexivity.
Qed.

(** The parcel map after the handler [addParcel]. *)
Lemma addParcel_parcels now now' st parcelData route :
  parcels (reduceEffects st (addParcel now now' st parcelData route)) = parcels st \/
  exists parcel,
    dispatched (addParcel now now' st parcelData route) <> [] /\
    parcels (reduceEffects st (addParcel now now' st parcelData route))
    = JSMap.set (ParcelResponse.id parcelData) parcel (parcels st).
Proof.
  rewrite reduceEffects_dispatched.
  destruct (addParcel_dispatched now now' st parcelData route)
    as [-> | (parcel & Hid & ->)]; [left; reflexivity|].
  right. exists parcel. split; [discriminate|].
  cbn [fold_left simulationReducer]. unfold JSMap.copy. rewrite Hid. reflexivity.
Qed.

(** No request is in flight for a parcel that is not stopped. *)
Lemma pending_other_id sys k parcel r :
  Consistent sys ->
  JSMap.get k (parcels (store sys)) = Some parcel ->
  SimulatedParcel.state parcel <> INCIDENT ->
  In r (pending sys) -> idOf r <> k.
Proof.
  intros [_ _ Hstop _] Hget Hst Hin Hid.
  rewrite Forall_forall in Hstop. destruct (Hstop r Hin) as [Hr Hs].
  rewrite Hid, Hget in Hr. injection Hr as ->. contradiction.
Qed.

Lemma Consistent_start sys now parcelId :
  Consistent sys ->
  Session.allowed sys (Session.StartParcel now parcelId) ->
  Consistent (Session.step sys (Session.StartParcel now parcelId)).
Proof.
  intros Hc Hok. pose proof Hc as [Hnd Hkeyed Hstop Hdist].
  cbn [Session.allowed] in Hok. cbn [Session.step].
  pose proof (startParcel_parcels now (store sys) parcelId) as Hp.
  destruct (JSMap.get parcelId (parcels (store sys))) as [parcel|] eqn:Hget.
  2:{ constructor; cbn [store pending]; rewrite ?Hp; assumption. }
  assert (Hst : SimulatedParcel.state parcel <> INCIDENT)
    by (destruct Hok as [-> | ->]; discriminate).
  constructor; cbn [store pending]; rewrite ?Hp.
  - rewrite keys_set_present by congruence. assumption.
  - apply Forall_set; [assumption | | congruence].
    intros k' _ E. apply String.eqb_eq in E. subst k'. cbn [fst snd].
    apply get_In in Hget. rewrite Forall_forall in Hkeyed.
    apply (Hkeyed _ Hget).
  - rewrite Forall_forall in *. intros r Hin.
    destruct (Hstop r Hin) as [Hr Hs]. split; [|assumption].
    rewrite get_set_other; [assumption|].
    apply (pending_other_id sys parcelId parcel r); assumption.
  - assumption.
Qed.

Lemma Consistent_add sys now now' parcelData route :
  Consistent sys ->
  Session.allowed sys (Session.AddParcel now now' parcelData route) ->
  Consistent (Session.step sys (Session.AddParcel now now' parcelData route)).
Proof.
  intros Hc [Hfresh | Hnone]; cbn [Session.step].
  - apply Consistent_addParcel; assumption.
  - rewrite reduceEffects_dispatched, Hnone. cbn [fold_left].
    destruct sys; assumption.
Qed.

Lemma Consistent_session_step sys event :
  Consistent sys -> Session.allowed sys event ->
  Consistent (Session.step sys event).
Proof.
  intros Hc Hok.
  destruct event as [now lastUpdate | index now response | now parcelId
                    | now now' parcelData route | action].
  - exact (Consistent_tick sys now lastUpdate Hc).
  - exact (Consistent_recalculation sys index now response Hc).
  - apply Consistent_start; assumption.
  - apply Consistent_add; assumption.
  - cbn [Session.allowed] in Hok.
    pose proof (Consistent_control sys action Hc) as H.
    cbn [step] in H. rewrite Hok in H. exact H.
Qed.

Lemma Consistent_session_run events : forall sys,
  Consistent sys -> Session.allowedRun sys events ->
  Consistent (Session.run sys events).
Proof.
  unfold Session.run.
  induction events as [|event rest IH]; intros sys Hc Hok; cbn [fold_left];
    [assumption|].
  destruct Hok as [Hev Hrest]. apply IH; [|assumption].
  apply Consistent_session_step; assumption.
Qed.

(** One allowed event moves the state of a stored parcel along at most
    one edge of the state machine; it leaves a [DELIVERED] parcel as it
    is, and a [PLANNED] one too unless it is the start of that parcel. *)
Lemma session_step_edge sys event k parcel :
  Consistent sys ->
  Session.allowed sys event ->
  JSMap.get k (parcels (store sys)) = Some parcel ->
  exists parcel',
    JSMap.get k (parcels (store (Session.step sys event))) = Some parcel' /\
    (SimulatedParcel.state parcel' = SimulatedParcel.state parcel \/
     edge (SimulatedParcel.state parcel) (SimulatedParcel.state parcel')) /\
    (SimulatedParcel.state parcel = DELIVERED -> parcel' = parcel) /\
    (SimulatedParcel.state parcel = PLANNED ->
     match event with
     | Session.StartParcel _ parcelId => parcelId <> k
     | _ => True
     end ->
     parcel' = parcel).
Proof.
  intros Hc Hok Hget.
  assert (Hsame : exists parcel',
            JSMap.get k (parcels (store sys)) = Some parcel' /\
            (SimulatedParcel.state parcel' = SimulatedParcel.state parcel \/
             edge (SimulatedParcel.state parcel) (SimulatedParcel.state parcel')) /\
            (SimulatedParcel.state parcel = DELIVERED -> parcel' = parcel) /\
            (SimulatedParcel.state parcel = PLANNED ->
             match event with
             | Session.StartParcel _ parcelId => parcelId <> k
             | _ => True
             end ->
             parcel' = parcel)) by (exists parcel; auto).
  destruct event as [now lastUpdate | index now response | now parcelId
                    | now now' parcelData route | action].
  - destruct (step_edge sys (Tick now lastUpdate) k parcel Hc Hget)
      as (p' & Hget' & Hedge & Hfix).
    exists p'. split; [exact Hget'|]. split; [exact Hedge|]. split; auto.
  - destruct (step_edge sys (RecalculationDone index now response) k parcel Hc Hget)
      as (p' & Hget' & Hedge & Hfix).
    exists p'. split; [exact Hget'|]. split; [exact Hedge|]. split; auto.
  - cbn [Session.step store]. cbn [Session.allowed] in Hok.
    rewrite startParcel_parcels.
    destruct (JSMap.get parcelId (parcels (store sys))) as [q|] eqn:Hq;
      [|exact Hsame].
    destruct (String.eqb_spec k parcelId) as [->|Hne].
    + rewrite Hq in Hget. injection Hget as ->. rewrite get_set_same.
      eexists. split; [reflexivity|]. cbn [SimulatedParcel.state SimulationEngine.startParcel].
      split; [|split].
      * destruct Hok as [-> | ->]; [right; constructor | left; reflexivity].
      * intros Hd. destruct Hok; congruence.
      * intros _ Hno. congruence.
    + rewrite get_set_other by assumption. exact Hsame.
  - cbn [Session.step store].
    destruct (addParcel_parcels now now' (store sys) parcelData route)
      as [-> | (q & Hsome & ->)]; [exact Hsame|].
    destruct Hok as [Hfresh | Hnone]; [|contradiction].
    rewrite get_set_other; [exact Hsame|]. congruence.
  - cbn [Session.step store]. cbn [Session.allowed] in Hok.
    rewrite reducer_no_parcel by assumption. exact Hsame.
Qed.

Lemma session_run_path events : forall sys k parcel,
  Consistent sys ->
  Session.allowedRun sys events ->
  JSMap.get k (parcels (store sys)) = Some parcel ->
  exists parcel',
    JSMap.get k (parcels (store (Session.run sys events))) = Some parcel' /\
    path (SimulatedParcel.state parcel) (SimulatedParcel.state parcel') /\
    (SimulatedParcel.state parcel = DELIVERED -> parcel' = parcel).
Proof.
  unfold Session.run.
  induction events as [|event rest IH]; intros sys k parcel Hc Hok Hget;
    cbn [fold_left].
  - exists parcel. split; [assumption|]. split; [constructor | reflexivity].
  - destruct Hok as [Hev Hrest].
    destruct (session_step_edge sys event k parcel Hc Hev Hget)
      as (p1 & Hget1 & Hedge & Hfix & _).
    destruct (IH (Session.step sys event) k p1
                (Consistent_session_step sys event Hc Hev) Hrest Hget1)
      as (p2 & Hget2 & Hpath & Hfix2).
    exists p2. split; [assumption|]. split.
    + apply path_trans with (SimulatedParcel.state p1); [|assumption].
      destruct Hedge as [-> | Hedge]; eauto using path.
    + intros Hd. rewrite (Hfix Hd) in *. auto.
Qed.

End SessionFacts.

Section Transitions.
Context {wkt : WktParser}.
Import SimulationState Store UseSimulation Props Runs.

(** C8 (amended): in every session of the hook made of clock ticks,
    completed recalculations, starts of parcels that are planned or already
    moving, additions of parcels under ids the map does not hold and
    dispatches of actions that carry no parcel, from a store keyed by parcel
    id whose requests in flight belong to parcels stopped in [INCIDENT], the
    state of a stored parcel moves only along the edges
    [PLANNED -> TRANSIT -> INCIDENT -> TRANSIT -> DELIVERED] (with
    [TRANSIT -> DELIVERED] directly), one edge per event at most; a stored
    [DELIVERED] parcel is never changed again, and a [PLANNED] parcel is
    changed by its own start only. This is said of the parcels as stored
    between events: within one tick a parcel that [updateParcelPosition]
    returns [DELIVERED] is stored as [INCIDENT] when
    [checkIncidentCollision] reports an incident for it. The engine
    operations by themselves are setters without a guard:
    [updateParcelPosition] alone keeps to [TRANSIT -> DELIVERED], but
    [startParcel] and [updateParcelRoute] yield [TRANSIT] and
    [markParcelIncident] yields [INCIDENT] from every state, [DELIVERED]
    included. *)
Theorem state_transitions sys events :
  Consistent sys ->
  Session.allowedRun sys events ->
  (forall k parcel,
     JSMap.get k (parcels (store sys)) = Some parcel ->
     exists parcel',
       JSMap.get k (parcels (store (Session.run sys events))) = Some parcel' /\
       path (SimulatedParcel.state parcel) (SimulatedParcel.state parcel') /\
       (SimulatedParcel.state parcel = DELIVERED -> parcel' = parcel)) /\
  (forall event k parcel,
     Session.allowed (Session.run sys events) event ->
     JSMap.get k (parcels (store (Session.run sys events))) = Some parcel ->
     exists parcel',
       JSMap.get k (parcels (store (Session.step (Session.run sys events) event)))
       = Some parcel' /\
       (SimulatedParcel.state parcel' = SimulatedParcel.state parcel \/
        edge (SimulatedParcel.state parcel) (SimulatedParcel.state parcel')) /\
       (SimulatedParcel.state parcel = DELIVERED -> parcel' = parcel) /\
       (SimulatedParcel.state parcel = PLANNED ->
        match event with
        | Session.StartParcel _ parcelId => parcelId <> k
        | _ => True
        end ->
        parcel' = parcel)) /\
  (forall now parcelId parcel,
     JSMap.get parcelId (parcels (store (Session.run sys events))) = Some parcel ->
     SimulatedParcel.state parcel = PLANNED ->
     option_map SimulatedParcel.state
       (JSMap.get parcelId
          (parcels (store (Session.step (Session.run sys events)
                             (Session.StartParcel now parcelId)))))
     = Some TRANSIT) /\
  (forall now deltaTimeMs st parcel incident,
     SimulatedParcel.state parcel = TRANSIT ->
     SimulationEngine.checkIncidentCollision
       (SimulationEngine.updateParcelPosition now parcel deltaTimeMs (speed st))
       (incidents st) = Some incident ->
     SimulatedParcel.state (tickParcel now deltaTimeMs st parcel) = INCIDENT) /\
  (forall now parcel deltaTimeMs simulationSpeed,
     let parcel' :=
       SimulationEngine.updateParcelPosition now parcel deltaTimeMs simulationSpeed in
     (SimulatedParcel.state parcel' = SimulatedParcel.state parcel \/
      (SimulatedParcel.state parcel = TRANSIT /\
       SimulatedParcel.state parcel' = DELIVERED)) /\
     (SimulatedParcel.state parcel <> TRANSIT -> parcel' = parcel)) /\
  (forall now parcel,
     SimulatedParcel.state (SimulationEngine.startParcel now parcel) = TRANSIT) /\
  (forall now parcel newRoute newRoutePath,
     SimulatedParcel.state
       (SimulationEngine.updateParcelRoute now parcel newRoute newRoutePath)
     = TRANSIT) /\
  (forall parcel incidentId,
     SimulatedParcel.state (SimulationEngine.markParcelIncident parcel incidentId)
     = INCIDENT).
Proof.
  intros Hc Hok.
  pose proof (Consistent_session_run events sys Hc Hok) as Hc'.
  repeat apply conj.
  - intros k parcel Hget. apply session_run_path; assumption.
  - intros event k parcel Hev Hget. apply session_step_edge; assumption.
  - intros now parcelId parcel Hget Hst. cbn [Session.step store].
    rewrite startParcel_parcels, Hget, get_set_same. reflexivity.
  - intros now dt st parcel incident Hst Hcol. unfold tickParcel.
    rewrite Hst, Hcol. reflexivity.
  - intros now parcel dt mult parcel'. split.
    + apply updateParcelPosition_state.
    + intros Hs. apply updateParcelPosition_guard. auto.
  - reflexivity.
  - reflexivity.
  - reflexivity.
Qed.

End Transitions.

(* ================================================================== *)
(** * The properties on concrete inputs *)
(* ================================================================== *)

Section Examples.
Import SimulationState Store UseSimulation Props Runs.
Local Open Scope float_scope.
Local Open Scope string_scope.

#[local] Existing Instance SampleWkt.planar.

(** C1 holds at a parcel a quarter of the way along a 10 km route, after
    a frame of 100 ms. *)
Lemma updateParcelPosition_progress_monotone_bounded_witness :
  let parcel := Samples.parcel TRANSIT 10 0.25 in
  let parcel' :=
    SimulationEngine.updateParcelPosition 2000 parcel 100 1 in
  ge (SimulatedParcel.progress parcel') (SimulatedParcel.progress parcel) = true /\
  ge (SimulatedParcel.progress parcel') 0 = true /\
  ge 1 (SimulatedParcel.progress parcel') = true.
Proof.
  apply (updateParcelPosition_progress_monotone_bounded
           2000 (Samples.parcel TRANSIT 10 0.25) (Samples.route 10) 100 1);
    try reflexivity.
  discriminate.
Defined.

(** C1 as stated fails, at inputs within its premises. On a route of
    total distance 0 with [deltaTimeMs = 0] the increment is [0 / 0]; on a
    10 km route with [simulationSpeed = Infinity] and [deltaTimeMs = 0] it
    is [Infinity * 0]. Either way the new progress is NaN, which is
    neither [>=] the old progress nor inside [0,1]. *)
Lemma updateParcelPosition_progress_not_monotone :
  let parcel := Samples.parcel TRANSIT 0 0.5 in
  let parcel' := SimulationEngine.updateParcelPosition 2000 parcel 0 1 in
  let healthy := Samples.parcel TRANSIT 10 0 in
  let healthy' := SimulationEngine.updateParcelPosition 2000 healthy 0 infinity in
  (SimulatedParcel.state parcel = TRANSIT /\
   SimulatedParcel.route parcel <> None /\
   SimulatedParcel.routePath parcel <> [] /\
   ge 0 0 = true /\ ge 1 0 = true /\
   ge (SimulatedParcel.progress parcel') (SimulatedParcel.progress parcel) = false /\
   ge (SimulatedParcel.progress parcel') 0 = false /\
   ge 1 (SimulatedParcel.progress parcel') = false) /\
  (SimulatedParcel.state healthy = TRANSIT /\
   SimulatedParcel.route healthy <> None /\
   SimulatedParcel.routePath healthy <> [] /\
   ge 0 0 = true /\ ge infinity 0 = true /\
   ge (SimulatedParcel.progress healthy') (SimulatedParcel.progress healthy) = false /\
   ge (SimulatedParcel.progress healthy') 0 = false /\
   ge 1 (SimulatedParcel.progress healthy') = false).
Proof. cbv zeta. repeat split; try reflexivity; discriminate. Qed.

(** The other premises of the amended C1 are needed as well: a progress
    above 1 comes down to 1, and a negative speed moves the parcel
    backwards. *)
Lemma updateParcelPosition_progress_premises_needed :
  let above := Samples.parcel TRANSIT 10 1.5 in
  let back :=
    {| SimulatedParcel.id := "p1";
       SimulatedParcel.trackingCode := "TRK-1";
       SimulatedParcel.parcelData := Samples.parcelData;
       SimulatedParcel.route := Some (Samples.route 10);
       SimulatedParcel.routePath := Samples.path;
       SimulatedParcel.currentPosition := {| lat := 4; lng := 9 |};
       SimulatedParcel.state := TRANSIT;
       SimulatedParcel.progress := 0.5;
       SimulatedParcel.pathIndex := 0;
       SimulatedParcel.startTime := None;
       SimulatedParcel.estimatedArrival := None;
       SimulatedParcel.actualArrival := None;
       SimulatedParcel.speed := -40;
       SimulatedParcel.affectedByIncidents := [] |} in
  SimulatedParcel.progress
    (SimulationEngine.updateParcelPosition 2000 above 100 1) = 1 /\
  ge (SimulatedParcel.progress
        (SimulationEngine.updateParcelPosition 2000 above 100 1))
     (SimulatedParcel.progress above) = false /\
  ge (SimulatedParcel.progress
        (SimulationEngine.updateParcelPosition 2000 back 900000 1))
     (SimulatedParcel.progress back) = false /\
  ge (SimulatedParcel.progress
        (SimulationEngine.updateParcelPosition 2000 back 900000 1)) 0 = false.
Proof. cbv zeta. repeat split; reflexivity. Qed.

(** C2 at the scenario of the spec. *)
Lemma updateParcelPosition_delivered_iff_witness :
  let parcel := Samples.parcel TRANSIT 10 0 in
  let delivered :=
    SimulationEngine.updateParcelPosition 2000 parcel 900000 1 in
  SimulatedParcel.progress delivered = 1 /\
  SimulatedParcel.state delivered = DELIVERED /\
  SimulatedParcel.actualArrival delivered = Some (NewDate 2000).
Proof.
  apply (updateParcelPosition_delivered_iff
           2000 (Samples.parcel TRANSIT 10 0) (Samples.route 10) 900000 1);
    try reflexivity.
  discriminate.
Defined.

(** C3 on two incidents around the parcel's position: the one inserted
    first is returned. *)
Lemma checkIncidentCollision_first_match_witness :
  SimulationEngine.checkIncidentCollision
    (Samples.parcel TRANSIT 10 0)
    (JSMap.set "i2" (Samples.incident "i2" ROAD_CLOSURE)
       (JSMap.set "i1" (Samples.incident "i1" TRAFFIC) JSMap.empty))
  = Some (Samples.incident "i1" TRAFFIC).
Proof.
  apply (proj2 (proj2 (proj2
           (checkIncidentCollision_first_match
              (Samples.parcel TRANSIT 10 0) JSMap.empty)))
           (Samples.incident "i1" TRAFFIC) (Samples.incident "i2" ROAD_CLOSURE)).
  - discriminate.
  - repeat split; try reflexivity. intros [].
  - repeat split; try reflexivity. intros [].
Defined.

(** C4 at a parcel half way along a route of total distance 0. *)
Lemma updateParcelPosition_zero_distance_witness :
  let parcel := Samples.parcel TRANSIT 0 0.5 in
  is_nan (SimulatedParcel.progress
            (SimulationEngine.updateParcelPosition 2000 parcel 0 1))
  = true /\
  SimulatedParcel.state
    (SimulationEngine.updateParcelPosition 2000 parcel 0 1)
  = TRANSIT /\
  SimulatedParcel.progress
    (SimulationEngine.updateParcelPosition 2000 parcel 16 1)
  = 1 /\
  SimulatedParcel.state
    (SimulationEngine.updateParcelPosition 2000 parcel 16 1)
  = DELIVERED.
Proof.
  apply (updateParcelPosition_zero_distance
           2000 (Samples.parcel TRANSIT 0 0.5) (Samples.route 0));
    try reflexivity.
  discriminate.
Defined.

(** C5 as stated fails: the state is among the fields that change. A
    parcel stopped by an incident comes back in [TRANSIT]. *)
Lemma updateParcelRoute_changes_state :
  let parcel := Samples.parcel INCIDENT 10 0.5 in
  SimulatedParcel.state
    (SimulationEngine.updateParcelRoute 2000 parcel
       (Samples.route 12) Samples.path)
  <> SimulatedParcel.state parcel.
Proof. cbv zeta. cbn. discriminate. Qed.

(** C6 at a delivered parcel, advanced twice. *)
Lemma updateParcelPosition_noop_witness :
  let parcel := Samples.parcel DELIVERED 10 1 in
  SimulationEngine.updateParcelPosition 2000 parcel 100 1 = parcel /\
  SimulationEngine.updateParcelPosition 3000
    (SimulationEngine.updateParcelPosition 2000 parcel 100 1) 50 2
  = SimulationEngine.updateParcelPosition 2000 parcel 100 1.
Proof.
  destruct (updateParcelPosition_noop 2000 (Samples.parcel DELIVERED 10 1) 100 1)
    as [Hfirst Hagain].
  - right. right. left. reflexivity.
  - split; [exact Hfirst | exact (Hagain 3000 50 2)].
Defined.

(** C7 at the store that [addParcel] leaves for a parcel without a
    route: [startParcel] puts the parcel in [TRANSIT]. *)
Lemma startParcel_starts_routeless_parcel_witness :
  let state :=
    reduceEffects initialState
      (addParcel 0 0 initialState Samples.parcelData None) in
  JSMap.get "p1" (parcels state) = Some Samples.routelessParcel /\
  SimulatedParcel.state (SimulationEngine.startParcel 5000 Samples.routelessParcel)
  = TRANSIT /\
  let state' := reduceEffects state (startParcel 5000 state "p1") in
  exists parcel',
    JSMap.get "p1" (parcels state') = Some parcel' /\
    SimulatedParcel.state parcel' = TRANSIT /\
    SimulatedParcel.route parcel' = None /\
    SimulatedParcel.routePath parcel' = [].
Proof.
  split; [reflexivity|].
  apply (startParcel_starts_routeless_parcel 5000
           (reduceEffects initialState
              (addParcel 0 0 initialState Samples.parcelData None))
           "p1" Samples.routelessParcel); reflexivity.
Defined.

(** C8 as stated fails: [DELIVERED] is not terminal and the chain is not
    one-directional, since nothing in the engine, the reducer or the
    handlers looks at the state a parcel is in. The handler [startParcel]
    stores a delivered parcel back in [TRANSIT], and a parcel stopped by an
    incident too, without any recalculation; the action [UPDATE_PARCEL]
    stores a delivered parcel back in [PLANNED]; [addParcel] with the id of
    a delivered parcel stores a [PLANNED] parcel in its place; and within
    one tick a parcel that [updateParcelPosition] returns [DELIVERED],
    arrival stamped, is marked [INCIDENT] by [markParcelIncident] and
    stored so. *)
Lemma delivered_parcel_is_not_terminal :
  let stateOf st :=
    option_map SimulatedParcel.state (JSMap.get "p1" (parcels st)) in
  let delivered := Samples.storeWith (Samples.parcel DELIVERED 10 1) in
  let stopped := Samples.storeWith (Samples.parcel INCIDENT 10 0.5) in
  let advanced :=
    SimulationEngine.updateParcelPosition 902000 (Samples.parcel TRANSIT 10 0)
      (902000 - 2000) 1 in
  (stateOf delivered = Some DELIVERED /\
   stateOf (reduceEffects delivered (startParcel 5000 delivered "p1"))
   = Some TRANSIT) /\
  (stateOf stopped = Some INCIDENT /\
   stateOf (reduceEffects stopped (startParcel 5000 stopped "p1"))
   = Some TRANSIT) /\
  stateOf (simulationReducer delivered
             (UPDATE_PARCEL "p1" (Samples.stateOnly PLANNED)))
  = Some PLANNED /\
  stateOf (reduceEffects delivered
             (addParcel 5000 5000 delivered Samples.parcelData None))
  = Some PLANNED /\
  (stateOf Samples.arrivalStore = Some TRANSIT /\
   SimulatedParcel.state advanced = DELIVERED /\
   SimulatedParcel.actualArrival advanced = Some (NewDate 902000) /\
   SimulationEngine.checkIncidentCollision advanced (incidents Samples.arrivalStore)
   = Some Samples.endIncident /\
   stateOf (reduceEffects Samples.arrivalStore
              (simulationLoop 902000 2000 Samples.arrivalStore))
   = Some INCIDENT).
Proof. cbv zeta. repeat split; vm_compute; reflexivity. Qed.

Lemma Consistent_plannedStore :
  Consistent {| store := Samples.plannedStore; pending := [] |}.
Proof.
  constructor; cbn.
  - constructor; [intros [] | constructor].
  - repeat constructor.
  - constructor.
  - constructor.
Qed.

(** C8 (amended) on a session: a planned parcel is started, stopped by an
    incident at the first tick, gets a new route, and goes on, while a
    second parcel is added and the incident resolved. *)
Lemma state_transitions_witness :
  let parcel := Samples.parcel PLANNED 10 0 in
  let sys := {| store := Samples.plannedStore; pending := [] |} in
  let events :=
    [Session.StartParcel 1000 "p1";
     Session.Tick 2016 2000;
     Session.AddParcel 2100 2100 Samples.otherParcelData None;
     Session.RecalculationDone 0 2500 (Some (Samples.route 12));
     Session.Dispatched (RESOLVE_INCIDENT "i1");
     Session.Tick 2532 2516] in
  exists parcel',
    JSMap.get "p1" (parcels (store (Session.run sys events))) = Some parcel' /\
    path (SimulatedParcel.state parcel) (SimulatedParcel.state parcel') /\
    (SimulatedParcel.state parcel = DELIVERED -> parcel' = parcel).
Proof.
  intros parcel sys events.
  assert (Hok : Session.allowedRun sys events).
  { cbn [Session.allowedRun events]. repeat split.
    - left. reflexivity.
    - left. vm_compute. reflexivity. }
  assert (Hget : JSMap.get "p1" (parcels (store sys)) = Some parcel) by reflexivity.
  exact (proj1 (state_transitions sys events Consistent_plannedStore Hok)
           "p1" parcel Hget).
Defined.

(** The session of the witness, event by event: [PLANNED], [TRANSIT]
    once started, [INCIDENT] after the first tick, [TRANSIT] once the new
    route is in and still after the next tick, the incident being
    resolved. *)
Lemma sample_session_states :
  let sys := {| store := Samples.plannedStore; pending := [] |} in
  let stateAfter events :=
    option_map SimulatedParcel.state
      (JSMap.get "p1" (parcels (store (Session.run sys events)))) in
  stateAfter [] = Some PLANNED /\
  stateAfter [Session.StartParcel 1000 "p1"] = Some TRANSIT /\
  stateAfter [Session.StartParcel 1000 "p1"; Session.Tick 2016 2000]
  = Some INCIDENT /\
  stateAfter [Session.StartParcel 1000 "p1"; Session.Tick 2016 2000;
              Session.RecalculationDone 0 2500 (Some (Samples.route 12))]
  = Some TRANSIT /\
  stateAfter [Session.StartParcel 1000 "p1"; Session.Tick 2016 2000;
              Session.RecalculationDone 0 2500 (Some (Samples.route 12));
              Session.Dispatched (RESOLVE_INCIDENT "i1");
              Session.Tick 2532 2516]
  = Some TRANSIT.
Proof. cbv zeta. repeat split; vm_compute; reflexivity. Qed.

(** A run of ticks and recalculations from a store whose parcel is
    already moving, step by step: [TRANSIT], [INCIDENT] after the first
    tick, [TRANSIT] once the new route is in, and still [TRANSIT] after the
    next tick, the incident being recorded for the parcel; a failed
    recalculation leaves the parcel in [INCIDENT]. *)
Lemma sample_run_states :
  let sys := {| store := Samples.playingStore; pending := [] |} in
  let stateAfter events :=
    option_map SimulatedParcel.state
      (JSMap.get "p1" (parcels (store (run sys events)))) in
  stateAfter [] = Some TRANSIT /\
  stateAfter [Tick 2016 2000] = Some INCIDENT /\
  stateAfter [Tick 2016 2000; RecalculationDone 0 2500 (Some (Samples.route 12))]
  = Some TRANSIT /\
  stateAfter [Tick 2016 2000; RecalculationDone 0 2500 (Some (Samples.route 12));
              Tick 2532 2516]
  = Some TRANSIT /\
  stateAfter [Tick 2016 2000; RecalculationDone 0 2500 None; Tick 2532 2516]
  = Some INCIDENT.
Proof. cbv zeta. repeat split; vm_compute; reflexivity. Qed.

(** C9 at a route whose geometry decodes to a single point. *)
Lemma addParcel_short_geometry_aborts_witness :
  let effects :=
    addParcel 0 0 initialState Samples.parcelData
      (Some Samples.shortRoute) in
  dispatched effects = [] /\
  (exists message, effects = [Toast toast_error message]) /\
  reduceEffects initialState effects = initialState.
Proof.
  apply (addParcel_short_geometry_aborts 0 0 initialState
           Samples.parcelData Samples.shortRoute).
  apply Nat.ltb_lt. reflexivity.
Defined.

(** C10 at a store with one parcel and no incident. *)
Lemma reducer_unknown_id_noop_witness :
  let state := Samples.storeWith (Samples.parcel TRANSIT 10 0) in
  simulationReducer state
    (UPDATE_PARCEL "p2" (ParcelUpdates.ofParcel Samples.routelessParcel)) = state /\
  simulationReducer state (RESOLVE_INCIDENT "i1") = state.
Proof.
  split.
  - apply (proj1 (reducer_unknown_id_noop
                    (Samples.storeWith (Samples.parcel TRANSIT 10 0)))).
    reflexivity.
  - apply (proj2 (reducer_unknown_id_noop
                    (Samples.storeWith (Samples.parcel TRANSIT 10 0)))).
    reflexivity.
Defined.

End Examples.

(* ================================================================== *)
(** * An incident stops a parcel once *)
(* ================================================================== *)

Section Recurrence.
Context {wkt : WktParser}.
Import SimulatedParcel SimulationEngine Props.

Lemma checkIncidentCollision_collides parcel incidents incident :
  checkIncidentCollision parcel incidents = Some incident ->
  collides parcel incident /\ In incident (JSMap.values incidents).
Proof.
  unfold checkIncidentCollision. intros E.
  pose proof (checkIncidentCollision_loop_sound parcel (JSMap.values incidents)) as S.
  rewrite E in S. destruct S as (before & after & -> & Hc & _).
  split; [assumption|]. apply in_or_app. right. left. reflexivity.
Qed.

(** A recorded incident id is never reported again. *)
Lemma recorded_id_not_reported parcel incidents incidentId :
  In incidentId (affectedByIncidents parcel) ->
  option_map Incident.id (checkIncidentCollision parcel incidents) <> Some incidentId.
Proof.
  intros Hin. destruct (checkIncidentCollision parcel incidents) as [found|] eqn:E;
    [|discriminate].
  apply checkIncidentCollision_collides in E as [(_ & _ & Hnot) _].
  cbn. intros [= <-]. contradiction.
Qed.

(** What [updateParcelPosition] never touches. *)
Lemma updateParcelPosition_kept now parcel deltaTimeMs simulationSpeed :
  let parcel' := updateParcelPosition now parcel deltaTimeMs simulationSpeed in
  id parcel' = id parcel /\
  trackingCode parcel' = trackingCode parcel /\
  parcelData parcel' = parcelData parcel /\
  route parcel' = route parcel /\
  routePath parcel' = routePath parcel /\
  startTime parcel' = startTime parcel /\
  estimatedArrival parcel' = estimatedArrival parcel /\
  speed parcel' = speed parcel /\
  affectedByIncidents parcel' = affectedByIncidents parcel.
Proof.
  destruct parcel as [i tc pd r rp cp s pr pi st ea aa sp ab].
  unfold updateParcelPosition. cbn.
  destruct s; try (repeat split; reflexivity).
  destruct r; try (repeat split; reflexivity).
  destruct rp; repeat split; reflexivity.
Qed.

Lemma frames_keep_affected frames : forall parcel,
  affectedByIncidents
    (fold_left
       (fun p (f : number * number * number) =>
          updateParcelPosition (fst (fst f)) p (snd (fst f)) (snd f))
       frames parcel)
  = affectedByIncidents parcel.
Proof.
  induction frames as [|f rest IH]; intros parcel; cbn [fold_left]; [reflexivity|].
  rewrite IH. apply updateParcelPosition_kept.
Qed.

(** X1: once [markParcelIncident] has recorded an incident id for a
    parcel, [checkIncidentCollision] never reports an incident of that id
    for it again: not while the parcel is stopped, not after
    [updateParcelRoute] has put it back on a route, and not after any
    number of frames of [updateParcelPosition], wherever the parcel is and
    whatever the incident map holds. *)
Theorem stopped_parcel_never_collides_again
    parcel incidentId incidents now newRoute newRoutePath
    (frames : list (number * number * number)) :
  let stopped := markParcelIncident parcel incidentId in
  let resumed := updateParcelRoute now stopped newRoute newRoutePath in
  let moved :=
    fold_left
      (fun p (f : number * number * number) =>
         updateParcelPosition (fst (fst f)) p (snd (fst f)) (snd f))
      frames resumed in
  option_map Incident.id (checkIncidentCollision stopped incidents)
    <> Some incidentId /\
  option_map Incident.id (checkIncidentCollision resumed incidents)
    <> Some incidentId /\
  option_map Incident.id (checkIncidentCollision moved incidents)
    <> Some incidentId.
Proof.
  intros stopped resumed moved.
  assert (Hin : In incidentId (affectedByIncidents stopped)).
  { cbn. apply in_or_app. right. left. reflexivity. }
  repeat split; apply recorded_id_not_reported.
  - assumption.
  - assumption.
  - subst moved. rewrite frames_keep_affected. assumption.
Qed.

End Recurrence.

(* ================================================================== *)
(** * What a run keeps of a parcel *)
(* ================================================================== *)

Section RunFrame.
Context {wkt : WktParser}.
Import SimulationState Store UseSimulation Props Runs.

(** One tick on one parcel: the identity, the speed and the start time
    stay, and at most one incident id, not recorded before, is appended. *)
Lemma tickParcel_frame now dt st parcel :
  let parcel' := tickParcel now dt st parcel in
  (SimulatedParcel.id parcel' = SimulatedParcel.id parcel /\
   SimulatedParcel.trackingCode parcel' = SimulatedParcel.trackingCode parcel /\
   SimulatedParcel.parcelData parcel' = SimulatedParcel.parcelData parcel /\
   SimulatedParcel.speed parcel' = SimulatedParcel.speed parcel /\
   SimulatedParcel.startTime parcel' = SimulatedParcel.startTime parcel) /\
  (SimulatedParcel.affectedByIncidents parcel'
   = SimulatedParcel.affectedByIncidents parcel \/
   exists incidentId,
     ~ In incidentId (SimulatedParcel.affectedByIncidents parcel) /\
     SimulatedParcel.affectedByIncidents parcel'
     = SimulatedParcel.affectedByIncidents parcel ++ [incidentId]).
Proof.
  unfold tickParcel.
  destruct (SimulatedParcel.state parcel); try (split; [repeat split | left]; reflexivity).
  pose proof (updateParcelPosition_kept now parcel dt (speed st)) as K.
  cbv zeta in K. destruct K as (Ki & Kt & Kd & _ & _ & Ks & _ & Kv & Ka).
  destruct (SimulationEngine.checkIncidentCollision _ _) as [incident|] eqn:E.
  - cbn. split; [repeat split; assumption|]. right. exists (Incident.id incident).
    apply checkIncidentCollision_collides in E as [(_ & _ & Hnot) _].
    rewrite Ka in *. auto.
  - split; [repeat split; assumption | left; assumption].
Qed.

(** One event on one parcel of a consistent system. *)
Lemma step_frame sys event k parcel :
  Consistent sys ->
  JSMap.get k (parcels (store sys)) = Some parcel ->
  exists parcel',
    JSMap.get k (parcels (store (step sys event))) = Some parcel' /\
    (SimulatedParcel.id parcel' = SimulatedParcel.id parcel /\
     SimulatedParcel.trackingCode parcel' = SimulatedParcel.trackingCode parcel /\
     SimulatedParcel.parcelData parcel' = SimulatedParcel.parcelData parcel /\
     SimulatedParcel.speed parcel' = SimulatedParcel.speed parcel /\
     SimulatedParcel.startTime parcel' = SimulatedParcel.startTime parcel) /\
    (SimulatedParcel.affectedByIncidents parcel'
     = SimulatedParcel.affectedByIncidents parcel \/
     exists incidentId,
       ~ In incidentId (SimulatedParcel.affectedByIncidents parcel) /\
       SimulatedParcel.affectedByIncidents parcel'
       = SimulatedParcel.affectedByIncidents parcel ++ [incidentId]) /\
    (match event with
     | Tick _ _ => SimulatedParcel.state parcel <> TRANSIT
     | _ => True
     end ->
     SimulatedParcel.progress parcel' = SimulatedParcel.progress parcel /\
     SimulatedParcel.pathIndex parcel' = SimulatedParcel.pathIndex parcel /\
     SimulatedParcel.actualArrival parcel' = SimulatedParcel.actualArrival parcel).
Proof.
  intros Hc Hget. pose proof Hc as [Hnd Hkeyed Hstop Hdist].
  assert (Hsame : exists parcel',
            JSMap.get k (parcels (store sys)) = Some parcel' /\
            (SimulatedParcel.id parcel' = SimulatedParcel.id parcel /\
             SimulatedParcel.trackingCode parcel' = SimulatedParcel.trackingCode parcel /\
             SimulatedParcel.parcelData parcel' = SimulatedParcel.parcelData parcel /\
             SimulatedParcel.speed parcel' = SimulatedParcel.speed parcel /\
             SimulatedParcel.startTime parcel' = SimulatedParcel.startTime parcel) /\
            (SimulatedParcel.affectedByIncidents parcel'
             = SimulatedParcel.affectedByIncidents parcel \/
             exists incidentId,
               ~ In incidentId (SimulatedParcel.affectedByIncidents parcel) /\
               SimulatedParcel.affectedByIncidents parcel'
               = SimulatedParcel.affectedByIncidents parcel ++ [incidentId]) /\
            (match event with
             | Tick _ _ => SimulatedParcel.state parcel <> TRANSIT
             | _ => True
             end ->
             SimulatedParcel.progress parcel' = SimulatedParcel.progress parcel /\
             SimulatedParcel.pathIndex parcel' = SimulatedParcel.pathIndex parcel /\
             SimulatedParcel.actualArrival parcel' = SimulatedParcel.actualArrival parcel)).
  { exists parcel. repeat split; auto. }
  destruct event as [now lastUpdate | index now response | action]; cbn [step].
  - cbn [store]. rewrite tick_parcels by assumption.
    destruct (isPlaying (store sys)); [|exact Hsame].
    set (dt := (now - lastUpdate)%float).
    rewrite (get_map_values (tickParcel now dt (store sys))), Hget. cbn [option_map].
    eexists. split; [reflexivity|].
    destruct (tickParcel_frame now dt (store sys) parcel) as [Hid Hgrow].
    split; [exact Hid|]. split; [exact Hgrow|].
    intros Hs. destruct (tickParcel_state now dt (store sys) parcel) as [Hfix _].
    rewrite Hfix by assumption. auto.
  - destruct (nth_error (pending sys) index) as [[q incident]|] eqn:Hn; [|exact Hsame].
    assert (Hq : JSMap.get (SimulatedParcel.id q) (parcels (store sys)) = Some q).
    { rewrite Forall_forall in Hstop.
      apply (Hstop (q, incident)). eapply nth_error_In. eassumption. }
    cbn [store].
    rewrite (recalculation_parcels (store sys) now q incident response Hq).
    destruct (SimulatedParcel.route q); [|exact Hsame].
    destruct response as [newRoute|]; [|exact Hsame].
    destruct (String.eqb_spec k (SimulatedParcel.id q)) as [->|Hne].
    + rewrite get_set_same. rewrite Hq in Hget. injection Hget as <-.
      eexists. split; [reflexivity|]. cbn. repeat split; auto.
    + rewrite get_set_other by assumption. exact Hsame.
  - destruct (carriesNoParcel action) eqn:E; [|exact Hsame].
    cbn [store]. rewrite reducer_no_parcel by assumption. exact Hsame.
Qed.

Lemma Consistent_run events : forall sys,
  Consistent sys -> Consistent (run sys events).
Proof.
  unfold run. induction events as [|e rest IH]; intros sys Hc; cbn [fold_left];
    auto using Consistent_step.
Qed.

(** Along a run the identity, the speed and the start time of a parcel
    stay, and its list of incident ids is extended, without a repetition
    if it had none. *)
Lemma run_frame events : forall sys k parcel,
  Consistent sys ->
  JSMap.get k (parcels (store sys)) = Some parcel ->
  exists parcel',
    JSMap.get k (parcels (store (run sys events))) = Some parcel' /\
    (SimulatedParcel.id parcel' = SimulatedParcel.id parcel /\
     SimulatedParcel.trackingCode parcel' = SimulatedParcel.trackingCode parcel /\
     SimulatedParcel.parcelData parcel' = SimulatedParcel.parcelData parcel /\
     SimulatedParcel.speed parcel' = SimulatedParcel.speed parcel /\
     SimulatedParcel.startTime parcel' = SimulatedParcel.startTime parcel) /\
    (exists added,
       SimulatedParcel.affectedByIncidents parcel'
       = SimulatedParcel.affectedByIncidents parcel ++ added) /\
    (NoDup (SimulatedParcel.affectedByIncidents parcel) ->
     NoDup (SimulatedParcel.affectedByIncidents parcel')).
Proof.
  unfold run.
  induction events as [|event rest IH]; intros sys k parcel Hc Hget; cbn [fold_left].
  - exists parcel. repeat split; auto. exists []. rewrite app_nil_r. reflexivity.
  - destruct (step_frame sys event k parcel Hc Hget)
      as (p1 & Hget1 & (Hi1 & Ht1 & Hd1 & Hv1 & Hs1) & Hgrow1 & _).
    destruct (IH (step sys event) k p1 (Consistent_step sys event Hc) Hget1)
      as (p2 & Hget2 & (Hi2 & Ht2 & Hd2 & Hv2 & Hs2) & (added & Hadd) & Hnd2).
    exists p2. split; [assumption|].
    split; [repeat split; congruence|].
    destruct Hgrow1 as [E | (x & Hx & E)]; rewrite E in *.
    + split; [exists added; assumption | assumption].
    + split.
      * exists (x :: added). rewrite Hadd, <- app_assoc. reflexivity.
      * intros Hnd. apply Hnd2. apply NoDup_app; [assumption | | ].
        -- constructor; [intros [] | constructor].
        -- intros y Hy [<-|[]]. contradiction.
Qed.

(** X2: along every run of clock ticks, completed recalculations and store
    actions that carry no parcel, the list [affectedByIncidents] of a
    parcel only grows at its end, and it never comes to hold an incident
    id twice: an incident stops a given parcel at most once in a run. *)
Theorem run_records_incident_once sys events k parcel :
  Consistent sys ->
  JSMap.get k (parcels (store sys)) = Some parcel ->
  NoDup (SimulatedParcel.affectedByIncidents parcel) ->
  exists parcel',
    JSMap.get k (parcels (store (run sys events))) = Some parcel' /\
    (exists added,
       SimulatedParcel.affectedByIncidents parcel'
       = SimulatedParcel.affectedByIncidents parcel ++ added) /\
    NoDup (SimulatedParcel.affectedByIncidents parcel').
Proof.
  intros Hc Hget Hnd.
  destruct (run_frame events sys k parcel Hc Hget) as (p' & Hget' & _ & Hadd & Hnd').
  exists p'. auto.
Qed.

(** X3: along every such run a parcel stays under its key with the id,
    tracking code, parcel data, speed and start time it had: neither the
    tick nor a recalculation changes how fast a parcel travels or when it
    started. *)
Theorem run_keeps_identity_speed_start sys events k parcel :
  Consistent sys ->
  JSMap.get k (parcels (store sys)) = Some parcel ->
  exists parcel',
    JSMap.get k (parcels (store (run sys events))) = Some parcel' /\
    SimulatedParcel.id parcel' = SimulatedParcel.id parcel /\
    SimulatedParcel.trackingCode parcel' = SimulatedParcel.trackingCode parcel /\
    SimulatedParcel.parcelData parcel' = SimulatedParcel.parcelData parcel /\
    SimulatedParcel.speed parcel' = SimulatedParcel.speed parcel /\
    SimulatedParcel.startTime parcel' = SimulatedParcel.startTime parcel.
Proof.
  intros Hc Hget.
  destruct (run_frame events sys k parcel Hc Hget) as (p' & Hget' & Hid & _).
  exists p'. tauto.
Qed.

(** One allowed event of a session leaves the progress of a stored
    parcel where it was, unless it is a tick and the parcel is in
    [TRANSIT]. *)
Lemma session_step_progress sys event k parcel :
  Consistent sys ->
  Session.allowed sys event ->
  JSMap.get k (parcels (store sys)) = Some parcel ->
  match event with
  | Session.Tick _ _ => SimulatedParcel.state parcel <> TRANSIT
  | _ => True
  end ->
  exists parcel',
    JSMap.get k (parcels (store (Session.step sys event))) = Some parcel' /\
    SimulatedParcel.progress parcel' = SimulatedParcel.progress parcel /\
    SimulatedParcel.pathIndex parcel' = SimulatedParcel.pathIndex parcel /\
    SimulatedParcel.actualArrival parcel' = SimulatedParcel.actualArrival parcel.
Proof.
  intros Hc Hok Hget Hev.
  assert (Hsame : exists parcel',
            JSMap.get k (parcels (store sys)) = Some parcel' /\
            SimulatedParcel.progress parcel' = SimulatedParcel.progress parcel /\
            SimulatedParcel.pathIndex parcel' = SimulatedParcel.pathIndex parcel /\
            SimulatedParcel.actualArrival parcel'
            = SimulatedParcel.actualArrival parcel) by (exists parcel; auto).
  destruct event as [now lastUpdate | index now response | now parcelId
                    | now now' parcelData route | action].
  - destruct (step_frame sys (Tick now lastUpdate) k parcel Hc Hget)
      as (p' & Hget' & _ & _ & Hfix).
    exists p'. split; [exact Hget' | exact (Hfix Hev)].
  - destruct (step_frame sys (RecalculationDone index now response) k parcel Hc Hget)
      as (p' & Hget' & _ & _ & Hfix).
    exists p'. split; [exact Hget' | exact (Hfix I)].
  - cbn [Session.step store]. rewrite startParcel_parcels.
    destruct (JSMap.get parcelId (parcels (store sys))) as [q|] eqn:Hq;
      [|exact Hsame].
    destruct (String.eqb_spec k parcelId) as [->|Hne].
    + rewrite Hq in Hget. injection Hget as ->. rewrite get_set_same.
      eexists. split; [reflexivity|]. repeat split; reflexivity.
    + rewrite get_set_other by assumption. exact Hsame.
  - cbn [Session.step store].
    destruct (addParcel_parcels now now' (store sys) parcelData route)
      as [-> | (q & Hsome & ->)]; [exact Hsame|].
    destruct Hok as [Hfresh | Hnone]; [|contradiction].
    rewrite get_set_other; [exact Hsame|]. congruence.
  - cbn [Session.step store]. cbn [Session.allowed] in Hok.
    rewrite reducer_no_parcel by assumption. exact Hsame.
Qed.

(** X4: the progress of a parcel moves on clock ticks only, and only
    while the parcel is in [TRANSIT]. In a session of the hook made of
    ticks, completed recalculations, starts of planned or moving parcels,
    additions under new ids and dispatches of actions that carry no parcel,
    every event that is not a tick leaves the progress, the path index and
    the arrival time of every stored parcel as they are, and so does a tick
    for a parcel that is planned, stopped by an incident or delivered. The
    actions that carry a parcel are left out: [UPDATE_PARCEL], [ADD_PARCEL]
    and [UPDATE_ALL_PARCELS] store whatever progress they are given. *)
Theorem progress_moves_only_in_transit sys events event k parcel :
  Consistent sys ->
  Session.allowedRun sys events ->
  Session.allowed (Session.run sys events) event ->
  JSMap.get k (parcels (store (Session.run sys events))) = Some parcel ->
  match event with
  | Session.Tick _ _ => SimulatedParcel.state parcel <> TRANSIT
  | _ => True
  end ->
  exists parcel',
    JSMap.get k (parcels (store (Session.step (Session.run sys events) event)))
    = Some parcel' /\
    SimulatedParcel.progress parcel' = SimulatedParcel.progress parcel /\
    SimulatedParcel.pathIndex parcel' = SimulatedParcel.pathIndex parcel /\
    SimulatedParcel.actualArrival parcel' = SimulatedParcel.actualArrival parcel.
Proof.
  intros Hc Hok Hev Hget Htick.
  apply session_step_progress; try assumption.
  apply Consistent_session_run; assumption.
Qed.

End RunFrame.

(* ================================================================== *)
(** * The effects of one clock tick *)
(* ================================================================== *)

Section TickEffects.
Context {wkt : WktParser}.
Import SimulationState Store UseSimulation Props Runs.

Lemma loop_recalculations_only now dt st rest : forall acc,
  Forall (fun e => exists q incident, e = StartRecalculation q incident)
    (recalculations acc) ->
  Forall (fun e => exists q incident, e = StartRecalculation q incident)
    (recalculations (fold_left (loopBody now dt st) rest acc)).
Proof.
  induction rest as [|[k parcel] rest IH]; intros acc Hacc; cbn [fold_left];
    [assumption|].
  apply IH. unfold loopBody.
  destruct (SimulatedParcel.state parcel); try assumption.
  destruct (SimulationEngine.checkIncidentCollision _ _).
  - cbn [recalculations]. rewrite Forall_app. split; [assumption|].
    repeat constructor. eauto.
  - destruct (isNewObject parcel); assumption.
Qed.

(** A loop over parcels none of which is in [TRANSIT] changes nothing. *)
Lemma loop_idle now dt st rest : forall acc,
  Forall (fun e => SimulatedParcel.state (snd e) <> TRANSIT) rest ->
  fold_left (loopBody now dt st) rest acc = acc.
Proof.
  induction rest as [|[k parcel] rest IH]; intros acc Hall; cbn [fold_left];
    [reflexivity|].
  inversion Hall as [|? ? Hp Hrest]; subst. cbn [snd] in Hp.
  rewrite <- (IH acc Hrest) at 2. f_equal.
  unfold loopBody. destruct (SimulatedParcel.state parcel); congruence.
Qed.

Lemma In_started effects q incident :
  In (q, incident) (started effects) <-> In (StartRecalculation q incident) effects.
Proof.
  unfold started. rewrite in_flat_map. split.
  - intros (e & Hin & He). destruct e; try contradiction.
    destruct He as [[= -> ->]|[]]. assumption.
  - intros Hin. eexists. split; [eassumption|]. left. reflexivity.
Qed.

(** The actions that one tick dispatches: the batch update, if any. *)
Lemma dispatched_simulationLoop now lastUpdate st :
  dispatched (simulationLoop now lastUpdate st) = [] \/
  exists newParcels,
    dispatched (simulationLoop now lastUpdate st) = [UPDATE_ALL_PARCELS newParcels].
Proof.
  unfold simulationLoop. destruct (isPlaying st); cbn [negb]; [|left; reflexivity].
  unfold loopParcels, JSMap.copy.
  set (start := {| updatedParcels := parcels st;
                   hasChanges := false; recalculations := [] |}).
  destruct (loop_no_changes now (now - lastUpdate)%float st (parcels st) start
              (parcels st) (fun _ => eq_refl) eq_refl) as [_ Hrec].
  unfold dispatched in *. cbn [flat_map]. rewrite !flat_map_app, Hrec.
  destruct (hasChanges _); cbn; eauto.
Qed.

(** X5: a clock tick acts on the parcel map only, and parcel by parcel.
    Under each key it stores what the engine makes of the parcel found
    there (advanced, then stopped if an incident is met); it adds, removes
    and reorders nothing; and the incidents, the hubs, the playback flag
    and speed, the placement mode and the selection stay as they were. A
    paused store is left untouched. *)
Theorem tick_acts_on_each_parcel now lastUpdate st :
  NoDup (JSMap.keys (parcels st)) ->
  let st' := reduceEffects st (simulationLoop now lastUpdate st) in
  (forall k,
     JSMap.get k (parcels st') =
     if isPlaying st
     then option_map (tickParcel now (now - lastUpdate)%float st)
            (JSMap.get k (parcels st))
     else JSMap.get k (parcels st)) /\
  JSMap.keys (parcels st') = JSMap.keys (parcels st) /\
  incidents st' = incidents st /\
  hubs st' = hubs st /\
  isPlaying st' = isPlaying st /\
  speed st' = speed st /\
  incidentPlacementMode st' = incidentPlacementMode st /\
  selectedIncidentType st' = selectedIncidentType st /\
  selectedParcelId st' = selectedParcelId st.
Proof.
  intros Hnd st'.
  pose proof (tick_parcels now lastUpdate st Hnd) as Hp. fold st' in Hp.
  split; [|split].
  - intros k. rewrite Hp. destruct (isPlaying st); [|reflexivity].
    apply (get_map_values (tickParcel now (now - lastUpdate)%float st)).
  - rewrite Hp. destruct (isPlaying st); [|reflexivity].
    apply (keys_map_values (tickParcel now (now - lastUpdate)%float st)).
  - subst st'. rewrite reduceEffects_dispatched.
    destruct (dispatched_simulationLoop now lastUpdate st) as [-> | [m ->]];
      cbn; repeat split; reflexivity.
Qed.

(** X6: the effects of [simulationLoop], in order. Paused, it does
    nothing at all: it neither reads the clock into [lastUpdateRef] nor asks
    for the next frame. Playing, it first stores the instant of the tick,
    then starts its recalculations, then dispatches at most one action, the
    batch [UPDATE_ALL_PARCELS], and always ends by asking for the next
    frame; when no parcel is in [TRANSIT] it dispatches nothing. *)
Theorem simulationLoop_effects_in_order now lastUpdate st :
  (isPlaying st = false -> simulationLoop now lastUpdate st = []) /\
  (isPlaying st = true ->
   exists requests,
     Forall (fun e => exists q incident, e = StartRecalculation q incident)
       requests /\
     (simulationLoop now lastUpdate st
      = SetLastUpdate now :: requests ++ [RequestAnimationFrame] \/
      exists newParcels,
        simulationLoop now lastUpdate st
        = SetLastUpdate now :: requests
          ++ [Dispatch (UPDATE_ALL_PARCELS newParcels); RequestAnimationFrame])) /\
  (isPlaying st = true ->
   Forall (fun e => SimulatedParcel.state (snd e) <> TRANSIT) (parcels st) ->
   simulationLoop now lastUpdate st = [SetLastUpdate now; RequestAnimationFrame]).
Proof.
  unfold simulationLoop. repeat split.
  - intros ->. reflexivity.
  - intros ->. cbn [negb].
    exists (recalculations (loopParcels now (now - lastUpdate)%float st)). split.
    + unfold loopParcels. apply loop_recalculations_only. constructor.
    + destruct (hasChanges _); [right; eexists; reflexivity | left; reflexivity].
  - intros -> Hidle. cbn [negb]. unfold loopParcels, JSMap.copy.
    rewrite loop_idle by assumption. reflexivity.
Qed.

(** X7: the recalculations that a tick starts are those of the parcels it
    stops. A playing tick starts a recalculation for a parcel and an
    incident exactly when the parcel was in [TRANSIT] under some key and
    [checkIncidentCollision] reports that incident for it once advanced;
    the request carries the parcel as it is stored, marked [INCIDENT]. In a
    map keyed by parcel id no parcel gets two requests in one tick. *)
Theorem tick_starts_recalculation_per_collision now lastUpdate st :
  isPlaying st = true ->
  (forall q incident,
     In (StartRecalculation q incident) (simulationLoop now lastUpdate st) <->
     exists k parcel,
       In (k, parcel) (parcels st) /\
       SimulatedParcel.state parcel = TRANSIT /\
       SimulationEngine.checkIncidentCollision
         (SimulationEngine.updateParcelPosition now parcel
            (now - lastUpdate)%float (speed st))
         (incidents st) = Some incident /\
       q = SimulationEngine.markParcelIncident
             (SimulationEngine.updateParcelPosition now parcel
                (now - lastUpdate)%float (speed st))
             (Incident.id incident)) /\
  (NoDup (JSMap.keys (parcels st)) ->
   Forall (fun e => SimulatedParcel.id (snd e) = fst e) (parcels st) ->
   NoDup (map (fun r => SimulatedParcel.id (fst r))
            (started (simulationLoop now lastUpdate st))) /\
   forall q incident,
     In (StartRecalculation q incident) (simulationLoop now lastUpdate st) ->
     JSMap.get (SimulatedParcel.id q)
       (parcels (reduceEffects st (simulationLoop now lastUpdate st))) = Some q /\
     SimulatedParcel.state q = INCIDENT).
Proof.
  intros Hplay.
  pose proof (started_simulationLoop now lastUpdate st) as Hs. rewrite Hplay in Hs.
  set (dt := (now - lastUpdate)%float) in *.
  split.
  - intros q incident. rewrite <- In_started, Hs.
    unfold started. rewrite in_flat_map. split.
    + intros (e & Hin & He). apply in_flat_map in Hin as ([k parcel] & Hin & Ht).
      cbn [snd] in Ht. unfold tickStarts in Ht.
      destruct (SimulatedParcel.state parcel) eqn:Hst; try contradiction.
      destruct (SimulationEngine.checkIncidentCollision _ _) as [found|] eqn:E;
        [|contradiction].
      destruct Ht as [<-|[]]. destruct He as [[= <- <-]|[]].
      exists k, parcel. auto.
    + intros (k & parcel & Hin & Hst & E & ->).
      exists (StartRecalculation
                (SimulationEngine.markParcelIncident
                   (SimulationEngine.updateParcelPosition now parcel dt (speed st))
                   (Incident.id incident))
                incident).
      split; [|left; reflexivity].
      apply in_flat_map. exists (k, parcel). split; [assumption|].
      cbn [snd]. unfold tickStarts. rewrite Hst, E. left. reflexivity.
  - intros Hnd Hkeyed. split.
    + rewrite Hs. apply (started_ids_NoDup now dt st (parcels st)); assumption.
    + intros q incident Hin. apply In_started in Hin. rewrite Hs in Hin.
      apply started_tickStarts in Hin as (k & parcel & Hin & _ & -> & Hst).
      split; [|assumption].
      rewrite tick_parcels by assumption. rewrite Hplay.
      rewrite (get_map_values (tickParcel now dt st)), tickParcel_id.
      rewrite Forall_forall in Hkeyed. specialize (Hkeyed _ Hin).
      cbn [fst snd] in Hkeyed. rewrite Hkeyed.
      rewrite (In_get k parcel); auto.
Qed.

End TickEffects.

(* ================================================================== *)
(** * The action handlers of the hook *)
(* ================================================================== *)

Section Handlers.
Context {wkt : WktParser}.
Import SimulationState Store UseSimulation Props.

(** X8: with a route whose geometry passes the format check and decodes
    to at least two points, [addParcel] dispatches one [ADD_PARCEL] and
    shows one success toast. The parcel it stores under the id of the
    parcel data is the one [createSimulatedParcel] builds, started as
    [SimulationEngine.startParcel] would start it: in [TRANSIT] from the
    second clock reading on, at progress 0 on the first point of the decoded
    path, at speed 40, with no incident recorded and the arrival estimated
    from the route's duration. *)
Theorem addParcel_starts_delivery now now' st parcelData route :
  JSString.falsy (RouteResponse.routeGeometry route) = false ->
  JSString.includes (JSString.toUpperCase (RouteResponse.routeGeometry route))
    "LINESTRING" = true ->
  2 <= List.length (parseWKTLineString (RouteResponse.routeGeometry route)) ->
  let routePath := parseWKTLineString (RouteResponse.routeGeometry route) in
  let parcel :=
    SimulationEngine.startParcel now'
      (SimulationEngine.createSimulatedParcel now parcelData route routePath) in
  let effects := addParcel now now' st parcelData (Some route) in
  effects =
    [Dispatch (ADD_PARCEL parcel);
     Toast toast_success
       ("Livraison démarrée: " ++ ParcelResponse.trackingCode parcelData)] /\
  JSMap.get (ParcelResponse.id parcelData) (parcels (reduceEffects st effects))
    = Some parcel /\
  SimulatedParcel.state parcel = TRANSIT /\
  SimulatedParcel.progress parcel = 0%float /\
  hd_error routePath = Some (SimulatedParcel.currentPosition parcel) /\
  SimulatedParcel.route parcel = Some route /\
  SimulatedParcel.speed parcel = 40%float /\
  SimulatedParcel.affectedByIncidents parcel = [] /\
  SimulatedParcel.startTime parcel = Some (NewDate now') /\
  SimulatedParcel.estimatedArrival parcel
    = Some (NewDate (now + RouteResponse.estimatedDurationMin route * 60 * 1000)%float).
Proof.
  intros Hgeom Hfmt Hlen routePath parcel effects.
  assert (Heff : effects =
            [Dispatch (ADD_PARCEL parcel);
             Toast toast_success
               ("Livraison démarrée: " ++ ParcelResponse.trackingCode parcelData)]).
  { subst effects. unfold addParcel. rewrite Hgeom, Hfmt. cbn [negb].
    fold routePath.
    destruct (Nat.eqb_spec (List.length routePath) 0) as [E|_];
      [subst routePath; lia|].
    destruct (Nat.ltb_spec (List.length routePath) 2) as [E|_];
      [subst routePath; lia|].
    reflexivity. }
  split; [exact Heff|]. rewrite Heff.
  split.
  { cbn [reduceEffects fold_left simulationReducer]. unfold JSMap.copy.
    cbn [parcels with_parcels]. apply get_set_same. }
  repeat split; try reflexivity.
  subst parcel. cbn. subst routePath.
  destruct (parseWKTLineString (RouteResponse.routeGeometry route));
    [cbn in Hlen; lia | reflexivity].
Qed.

(** X9: a route whose geometry is an ASCII text that is empty, or that
    does not contain [LINESTRING] once put in upper case, is refused before
    the geometry is decoded: whatever [parseWKTLineString] would make of the
    text, [addParcel] shows one error toast, dispatches nothing and leaves
    the store as it was. On ASCII text [JSString.toUpperCase] is the
    [toUpperCase] of JavaScript; a text with letters outside ASCII is not
    covered, since JavaScript puts some of them in upper case as ASCII
    letters. *)
Theorem addParcel_refuses_malformed_geometry now now' st parcelData route :
  JSString.isAscii (RouteResponse.routeGeometry route) = true ->
  JSString.falsy (RouteResponse.routeGeometry route) = true \/
  JSString.includes (JSString.toUpperCase (RouteResponse.routeGeometry route))
    "LINESTRING" = false ->
  let effects := addParcel now now' st parcelData (Some route) in
  (effects = [Toast toast_error "Itinéraire invalide: géométrie manquante"] \/
   effects = [Toast toast_error "Itinéraire invalide: format de géométrie incorrect"]) /\
  dispatched effects = [] /\
  reduceEffects st effects = st.
Proof.
  intros _ Hbad effects. subst effects. unfold addParcel.
  destruct (JSString.falsy _) eqn:Hf; [cbn; auto|].
  destruct Hbad as [Hbad | Hbad]; [discriminate|].
  rewrite Hbad. cbn. auto.
Qed.

(** X10: without a route, [addParcel] stores a [PLANNED] parcel that has
    no route and no path. It stands at the first hub, in the order of the
    hub list, whose id is the pickup location of the parcel data, and at the
    position (4.05, 9.7) when no hub has that id; the hub list is the one a
    successful [loadHubs] stored last, a failed [loadHubs] leaving the store
    as it was. No clock tick moves or starts the parcel. *)
Theorem addParcel_without_route_waits_at_pickup_hub
    now now' st response parcelData :
  let st1 := reduceEffects st (loadHubs response) in
  let known := match response with Some loaded => loaded | None => hubs st end in
  let st2 := reduceEffects st1 (addParcel now now' st1 parcelData None) in
  (response = None -> st1 = st) /\
  exists parcel,
    JSMap.get (ParcelResponse.id parcelData) (parcels st2) = Some parcel /\
    SimulatedParcel.state parcel = PLANNED /\
    SimulatedParcel.route parcel = None /\
    SimulatedParcel.routePath parcel = [] /\
    (forall before hub after,
       known = before ++ hub :: after ->
       GeoPointResponse.id hub = ParcelResponse.pickupLocation parcelData ->
       Forall (fun h => GeoPointResponse.id h
                        <> ParcelResponse.pickupLocation parcelData) before ->
       SimulatedParcel.currentPosition parcel
       = {| lat := GeoPointResponse.latitude hub;
            lng := GeoPointResponse.longitude hub |}) /\
    (Forall (fun h => GeoPointResponse.id h
                      <> ParcelResponse.pickupLocation parcelData) known ->
     SimulatedParcel.currentPosition parcel = {| lat := 4.05; lng := 9.7 |}) /\
    (forall t dt, tickParcel t dt st2 parcel = parcel).
Proof.
  intros st1 known st2.
  assert (Hhubs : hubs st1 = known).
  { subst st1 known. destruct response; reflexivity. }
  split; [intros ->; reflexivity|].
  subst st2. unfold addParcel.
  cbn [reduceEffects fold_left simulationReducer]. unfold JSMap.copy.
  cbn [parcels with_parcels SimulatedParcel.id].
  rewrite get_set_same, Hhubs. eexists. split; [reflexivity|].
  cbn [SimulatedParcel.state SimulatedParcel.route SimulatedParcel.routePath
       SimulatedParcel.currentPosition].
  repeat split.
  - intros before hub after -> Hid Hbefore.
    assert (Hfind : find (fun h => String.eqb (GeoPointResponse.id h)
                                     (ParcelResponse.pickupLocation parcelData))
                      (before ++ hub :: after) = Some hub).
    { clear Hhubs. induction Hbefore as [|h rest Hh _ IH]; cbn.
      - rewrite Hid, String.eqb_refl. reflexivity.
      - destruct (String.eqb_spec (GeoPointResponse.id h)
                    (ParcelResponse.pickupLocation parcelData)); [contradiction|].
        exact IH. }
    rewrite Hfind. reflexivity.
  - intros Hnone.
    assert (Hfind : find (fun h => String.eqb (GeoPointResponse.id h)
                                     (ParcelResponse.pickupLocation parcelData))
                      known = None).
    { clear Hhubs. induction Hnone as [|h rest Hh _ IH]; cbn; [reflexivity|].
      destruct (String.eqb_spec (GeoPointResponse.id h)
                  (ParcelResponse.pickupLocation parcelData)); [contradiction|].
      exact IH. }
    rewrite Hfind. reflexivity.
Qed.

(** X11: whatever its outcome, [addParcel] touches no parcel but the one
    with the id of the parcel data. Every other key keeps its parcel; the
    keys keep their order, the id being appended when it is new and a parcel
    already stored under it being replaced in place; incidents, hubs,
    playback and selection are not changed. *)
Theorem addParcel_touches_one_parcel now now' st parcelData route :
  let st' := reduceEffects st (addParcel now now' st parcelData route) in
  (forall k,
     k <> ParcelResponse.id parcelData ->
     JSMap.get k (parcels st') = JSMap.get k (parcels st)) /\
  (JSMap.keys (parcels st') = JSMap.keys (parcels st) \/
   (JSMap.get (ParcelResponse.id parcelData) (parcels st) = None /\
    JSMap.keys (parcels st')
    = JSMap.keys (parcels st) ++ [ParcelResponse.id parcelData])) /\
  incidents st' = incidents st /\
  hubs st' = hubs st /\
  isPlaying st' = isPlaying st /\
  speed st' = speed st /\
  incidentPlacementMode st' = incidentPlacementMode st /\
  selectedIncidentType st' = selectedIncidentType st /\
  selectedParcelId st' = selectedParcelId st.
Proof.
  intros st'. subst st'. rewrite reduceEffects_dispatched.
  destruct (addParcel_dispatched now now' st parcelData route)
    as [-> | (parcel & Hid & ->)]; cbn [fold_left].
  - repeat split; auto.
  - destruct (reducer_add_parcel st parcel) as (Hp & Hrest). cbv zeta in Hp.
    rewrite Hp, Hid. split; [|split].
    + intros k Hk. apply get_set_other. assumption.
    + destruct (JSMap.get (ParcelResponse.id parcelData) (parcels st)) eqn:E.
      * left. apply keys_set_present. congruence.
      * right. split; [reflexivity|]. rewrite set_absent by assumption.
        unfold JSMap.keys. rewrite map_app. reflexivity.
    + exact Hrest.
Qed.

(** X12: the handler [startParcel] acts on the named parcel only. For an
    id the map does not hold it does nothing, not even show a toast. For a
    stored parcel it puts [TRANSIT] and the start time in place and keeps
    every other field, the progress included; the other parcels, the order
    of the keys and the rest of the store are as before. *)
Theorem startParcel_touches_one_parcel now st parcelId :
  let st' := reduceEffects st (startParcel now st parcelId) in
  (JSMap.get parcelId (parcels st) = None ->
   startParcel now st parcelId = [] /\ st' = st) /\
  JSMap.get parcelId (parcels st')
    = option_map (SimulationEngine.startParcel now) (JSMap.get parcelId (parcels st)) /\
  (forall k, k <> parcelId ->
     JSMap.get k (parcels st') = JSMap.get k (parcels st)) /\
  JSMap.keys (parcels st') = JSMap.keys (parcels st) /\
  incidents st' = incidents st /\
  hubs st' = hubs st /\
  isPlaying st' = isPlaying st /\
  speed st' = speed st /\
  incidentPlacementMode st' = incidentPlacementMode st /\
  selectedIncidentType st' = selectedIncidentType st /\
  selectedParcelId st' = selectedParcelId st.
Proof.
  intros st'. subst st'. unfold startParcel.
  destruct (JSMap.get parcelId (parcels st)) as [parcel|] eqn:Hget.
  - cbn [reduceEffects fold_left simulationReducer]. unfold JSMap.copy.
    rewrite Hget, spread_ofParcel. cbn [parcels with_parcels option_map].
    split; [discriminate|]. split; [apply get_set_same|].
    split; [intros k Hk; apply get_set_other; assumption|].
    split; [apply keys_set_present; congruence|].
    repeat split; reflexivity.
  - cbn [reduceEffects fold_left option_map]. rewrite Hget.
    repeat split; auto.
Qed.

End Handlers.

(* ================================================================== *)
(** * Incidents: creation, resolution, recalculation *)
(* ================================================================== *)

Section Incidents.
Context {wkt : WktParser}.
Import SimulationState Store UseSimulation Props.

Lemma In_values_entry {V : Type} (v : V) (m : JSMap.t V) :
  In v (JSMap.values m) -> exists k, In (k, v) m.
Proof.
  unfold JSMap.values. rewrite in_map_iff. intros ([k v'] & <- & Hin). eauto.
Qed.

(** The incident map after [RESOLVE_INCIDENT]. *)
Lemma reducer_resolve st incidentId :
  incidents (simulationReducer st (RESOLVE_INCIDENT incidentId)) =
  match JSMap.get incidentId (incidents st) with
  | Some incident =>
      JSMap.set incidentId (Incident.with_resolved incident true) (incidents st)
  | None => incidents st
  end.
Proof.
  cbn [simulationReducer]. unfold JSMap.copy.
  destruct (JSMap.get incidentId (incidents st)); reflexivity.
Qed.

(** In a map keyed by incident id, the incidents of the resolved id are
    marked resolved after [RESOLVE_INCIDENT], and the map is still keyed by
    incident id. *)
Lemma resolve_marks_id st incidentId :
  NoDup (JSMap.keys (incidents st)) ->
  Forall (fun e => Incident.id (snd e) = fst e) (incidents st) ->
  let st' := simulationReducer st (RESOLVE_INCIDENT incidentId) in
  JSMap.get incidentId (incidents st')
    = option_map (fun i => Incident.with_resolved i true)
        (JSMap.get incidentId (incidents st)) /\
  JSMap.keys (incidents st') = JSMap.keys (incidents st) /\
  Forall (fun e => Incident.id (snd e) = fst e) (incidents st') /\
  (forall incident,
     In incident (JSMap.values (incidents st')) ->
     Incident.id incident = incidentId ->
     Incident.resolved incident = true).
Proof.
  intros Hnd Hkeyed st'.
  assert (Hinc : incidents st' =
            match JSMap.get incidentId (incidents st) with
            | Some incident =>
                JSMap.set incidentId (Incident.with_resolved incident true)
                  (incidents st)
            | None => incidents st
            end) by apply reducer_resolve.
  assert (Hget : JSMap.get incidentId (incidents st')
                 = option_map (fun i => Incident.with_resolved i true)
                     (JSMap.get incidentId (incidents st))).
  { rewrite Hinc. destruct (JSMap.get incidentId (incidents st)) eqn:E; cbn.
    - apply get_set_same.
    - assumption. }
  assert (Hkeys : JSMap.keys (incidents st') = JSMap.keys (incidents st)).
  { rewrite Hinc. destruct (JSMap.get incidentId (incidents st)) eqn:E;
      [|reflexivity].
    apply keys_set_present. congruence. }
  assert (Hkeyed' : Forall (fun e => Incident.id (snd e) = fst e) (incidents st')).
  { rewrite Hinc. destruct (JSMap.get incidentId (incidents st)) as [i|] eqn:E;
      [|assumption].
    apply Forall_set; [assumption | | congruence].
    intros k' Hin Ek. apply String.eqb_eq in Ek. subst k'.
    cbn [fst snd]. apply get_In in E.
    rewrite Forall_forall in Hkeyed. apply (Hkeyed _ E). }
  repeat split; try assumption.
  intros incident Hin Hid.
  apply In_values_entry in Hin as (k & Hin).
  rewrite Forall_forall in Hkeyed'. pose proof (Hkeyed' _ Hin) as Hk.
  cbn [fst snd] in Hk. subst k. rewrite Hid in Hin.
  apply In_get in Hin; [|rewrite Hkeys; assumption].
  rewrite Hget in Hin.
  destruct (JSMap.get incidentId (incidents st)); cbn in Hin; [|discriminate].
  injection Hin as <-. reflexivity.
Qed.

(** X13: in an incident map keyed by incident id, [resolveIncident]
    switches the incident off for good. Afterwards
    [checkIncidentCollision] reports no incident of that id for any parcel,
    wherever the parcel stands; the incident keeps its other fields and its
    place in the map, every other incident and the parcels are untouched,
    and resolving a second time changes nothing more. *)
Theorem resolveIncident_switches_incident_off st incidentId :
  NoDup (JSMap.keys (incidents st)) ->
  Forall (fun e => Incident.id (snd e) = fst e) (incidents st) ->
  let st' := reduceEffects st (resolveIncident incidentId) in
  (forall parcel,
     option_map Incident.id
       (SimulationEngine.checkIncidentCollision parcel (incidents st'))
     <> Some incidentId) /\
  JSMap.get incidentId (incidents st')
    = option_map (fun i => Incident.with_resolved i true)
        (JSMap.get incidentId (incidents st)) /\
  (forall k, k <> incidentId ->
     JSMap.get k (incidents st') = JSMap.get k (incidents st)) /\
  JSMap.keys (incidents st') = JSMap.keys (incidents st) /\
  parcels st' = parcels st /\
  reduceEffects st' (resolveIncident incidentId) = st'.
Proof.
  intros Hnd Hkeyed st'.
  destruct (resolve_marks_id st incidentId Hnd Hkeyed) as (Hget & Hkeys & _ & Hmarked).
  change (simulationReducer st (RESOLVE_INCIDENT incidentId)) with st' in *.
  cbv zeta in Hget, Hkeys, Hmarked.
  pose proof (reducer_resolve st incidentId) as Hinc.
  change (simulationReducer st (RESOLVE_INCIDENT incidentId)) with st' in Hinc.
  split; [|split; [exact Hget | split; [|split; [exact Hkeys | split]]]].
  - intros parcel.
    destruct (SimulationEngine.checkIncidentCollision parcel (incidents st'))
      as [found|] eqn:E; [|discriminate].
    apply checkIncidentCollision_collides in E as [(Hres & _) Hin].
    cbn. intros [= Hid]. rewrite (Hmarked found Hin Hid) in Hres. discriminate.
  - intros k Hk. rewrite Hinc.
    destruct (JSMap.get incidentId (incidents st)); [|reflexivity].
    apply get_set_other. assumption.
  - reflexivity.
  - unfold resolveIncident. cbn [reduceEffects fold_left].
    change (simulationReducer st (RESOLVE_INCIDENT incidentId)) with st'.
    cbn [simulationReducer]. unfold JSMap.copy. rewrite Hget.
    destruct (JSMap.get incidentId (incidents st)) as [i|] eqn:E; cbn [option_map].
    + replace (JSMap.set incidentId
                 (Incident.with_resolved (Incident.with_resolved i true) true)
                 (incidents st'))
        with (incidents st'); [apply with_incidents_same|].
      rewrite Hinc. clear. induction (incidents st) as [|[k v] rest IH]; cbn.
      * rewrite String.eqb_refl. reflexivity.
      * destruct (String.eqb incidentId k) eqn:Ek; cbn; rewrite Ek.
        -- reflexivity.
        -- f_equal. exact IH.
    + apply with_incidents_same.
Qed.

(** The store after the effects of [createIncident]. *)
Lemma createIncident_store now nowText position type description st :
  let st' := reduceEffects st (createIncident now nowText position type description) in
  exists incident,
    Incident.id incident = ("incident-" ++ nowText)%string /\
    Incident.type incident = type /\
    Incident.position incident = position /\
    Incident.radius incident
      = (if IncidentType_eqb type ROAD_CLOSURE then 500 else 200)%float /\
    Incident.resolved incident = false /\
    Incident.timestamp incident = NewDate now /\
    incidents st' = JSMap.set ("incident-" ++ nowText)%string incident (incidents st) /\
    parcels st' = parcels st /\
    hubs st' = hubs st /\
    isPlaying st' = isPlaying st /\
    speed st' = speed st /\
    incidentPlacementMode st' = false /\
    selectedIncidentType st' = None /\
    selectedParcelId st' = selectedParcelId st.
Proof.
  cbn. eexists. repeat split; reflexivity.
Qed.

(** X14: [createIncident] stores an unresolved incident of the given type
    at the given position under the id [incident-] followed by the clock
    reading, with a radius of 500 m for a road closure and of 200 m for
    every other type, and it leaves the placement mode switched off with no
    incident type selected. On a store without incidents, the new incident
    stops exactly the parcels that [isWithinRadius] finds within 0.5 km,
    respectively 0.2 km, of it and that have not recorded its id. The
    parcels and the other incidents are not touched. *)
Theorem createIncident_places_active_incident
    now nowText position type description st :
  let st' := reduceEffects st (createIncident now nowText position type description) in
  let radiusKm := match type with ROAD_CLOSURE => 0.5%float | _ => 0.2%float end in
  (exists incident,
     JSMap.get ("incident-" ++ nowText)%string (incidents st') = Some incident /\
     Incident.type incident = type /\
     Incident.position incident = position /\
     Incident.resolved incident = false /\
     (Incident.radius incident / 1000)%float = radiusKm /\
     (incidents st = JSMap.empty ->
      forall parcel,
        SimulationEngine.checkIncidentCollision parcel (incidents st')
        = if isWithinRadius (SimulatedParcel.currentPosition parcel) position radiusKm
             && negb (SimulationEngine.includes
                        (SimulatedParcel.affectedByIncidents parcel)
                        ("incident-" ++ nowText)%string)
          then Some incident else None)) /\
  incidentPlacementMode st' = false /\
  selectedIncidentType st' = None /\
  parcels st' = parcels st /\
  (forall k, k <> ("incident-" ++ nowText)%string ->
     JSMap.get k (incidents st') = JSMap.get k (incidents st)).
Proof.
  intros st' radiusKm.
  destruct (createIncident_store now nowText position type description st)
    as (incident & Hid & Hty & Hpos & Hrad & Hres & _ & Hinc & Hp & _ & _ & _ & Hm & Hs & _).
  fold st' in Hinc, Hp, Hm, Hs.
  assert (Hkm : (Incident.radius incident / 1000)%float = radiusKm).
  { rewrite Hrad. subst radiusKm. destruct type; reflexivity. }
  split; [|repeat split; auto].
  - exists incident. rewrite Hinc.
    split; [apply get_set_same|]. repeat split; auto.
    intros Hempty parcel. rewrite Hempty.
    unfold SimulationEngine.checkIncidentCollision. cbn.
    rewrite Hres, Hpos, Hkm, Hid. reflexivity.
  - intros k Hk. rewrite Hinc. apply get_set_other. assumption.
Qed.

(** X15: the id of an incident is made of the clock reading alone, so two
    incidents created within the same millisecond share it. The second
    takes the place of the first: the map has as many entries, in the same
    order, after the second creation as after the first, and under the
    shared id it holds the incident created last. The first incident is
    lost without having been resolved. *)
Theorem createIncident_same_instant_replaces
    now nowText st position1 type1 description1 position2 type2 description2 :
  let st1 :=
    reduceEffects st (createIncident now nowText position1 type1 description1) in
  let st2 :=
    reduceEffects st1 (createIncident now nowText position2 type2 description2) in
  JSMap.keys (incidents st2) = JSMap.keys (incidents st1) /\
  List.length (incidents st2) = List.length (incidents st1) /\
  (exists first,
     JSMap.get ("incident-" ++ nowText)%string (incidents st1) = Some first /\
     Incident.position first = position1 /\
     Incident.type first = type1 /\
     Incident.resolved first = false) /\
  (exists second,
     JSMap.get ("incident-" ++ nowText)%string (incidents st2) = Some second /\
     Incident.position second = position2 /\
     Incident.type second = type2) /\
  (forall k, k <> ("incident-" ++ nowText)%string ->
     JSMap.get k (incidents st2) = JSMap.get k (incidents st1)).
Proof.
  intros st1 st2.
  destruct (createIncident_store now nowText position1 type1 description1 st)
    as (i1 & _ & Hty1 & Hpos1 & _ & Hres1 & _ & Hinc1 & _).
  destruct (createIncident_store now nowText position2 type2 description2 st1)
    as (i2 & _ & Hty2 & Hpos2 & _ & _ & _ & Hinc2 & _).
  fold st1 in Hinc1, Hinc2. fold st2 in Hinc2.
  assert (Hhas : JSMap.get ("incident-" ++ nowText)%string (incidents st1) = Some i1).
  { rewrite Hinc1. apply get_set_same. }
  assert (Hkeys : JSMap.keys (incidents st2) = JSMap.keys (incidents st1)).
  { rewrite Hinc2. apply keys_set_present. congruence. }
  split; [exact Hkeys|]. split.
  { unfold JSMap.keys in Hkeys.
    rewrite <- (length_map fst (incidents st2)), Hkeys. apply length_map. }
  split; [exists i1; auto|]. split.
  - exists i2. rewrite Hinc2. split; [apply get_set_same | auto].
  - intros k Hk. rewrite Hinc2. apply get_set_other. assumption.
Qed.

(** X16: what a completed recalculation does to the store. A failed
    request, a parcel without a route and a parcel whose id the map no
    longer holds leave the store as it was. Otherwise the entry under the
    parcel's id is replaced by the parcel as the request saw it, put on the
    new route by [updateParcelRoute]: whatever the map held under that id in
    the meantime is overwritten, and no other entry is touched. *)
Theorem recalculation_overwrites_from_snapshot now st parcel incident response :
  let st' :=
    reduceEffects st (handleIncidentRecalculation now parcel incident response) in
  (response = None \/ SimulatedParcel.route parcel = None \/
   JSMap.get (SimulatedParcel.id parcel) (parcels st) = None ->
   st' = st) /\
  (forall newRoute,
     response = Some newRoute ->
     SimulatedParcel.route parcel <> None ->
     JSMap.get (SimulatedParcel.id parcel) (parcels st) <> None ->
     JSMap.get (SimulatedParcel.id parcel) (parcels st')
     = Some (SimulationEngine.updateParcelRoute now parcel newRoute
               (parseWKTLineString (RouteResponse.routeGeometry newRoute))) /\
     JSMap.keys (parcels st') = JSMap.keys (parcels st)) /\
  (forall k, k <> SimulatedParcel.id parcel ->
     JSMap.get k (parcels st') = JSMap.get k (parcels st)) /\
  incidents st' = incidents st.
Proof.
  intros st'. subst st'. unfold handleIncidentRecalculation.
  destruct (SimulatedParcel.route parcel) as [r|] eqn:Hr.
  2:{ cbn. split; [reflexivity|]. split; [|split; reflexivity].
      intros newRoute _ Hno. congruence. }
  destruct response as [newRoute|].
  2:{ cbn. split; [reflexivity|]. split; [|split; reflexivity].
      intros newRoute Hno. discriminate. }
  cbn [reduceEffects fold_left simulationReducer]. unfold JSMap.copy.
  destruct (JSMap.get (SimulatedParcel.id parcel) (parcels st)) as [cur|] eqn:Hget.
  - rewrite spread_ofParcel. cbn [parcels with_parcels incidents].
    split; [intros [Hno|[Hno|Hno]]; discriminate|]. split.
    + intros newRoute0 [= <-] _ _. split; [apply get_set_same|].
      apply keys_set_present. congruence.
    + split; [|reflexivity]. intros k Hk. apply get_set_other. assumption.
  - rewrite with_parcels_same. split; [reflexivity|].
    split; [|split; reflexivity].
    intros newRoute0 _ _ Hno. congruence.
Qed.

End Incidents.

(* ================================================================== *)
(** * Arrival estimate, route check and statistics of the engine *)
(* ================================================================== *)

Section EngineReports.
Context {wkt : WktParser}.
Import SimulatedParcel SimulationEngine Props.
Local Open Scope float_scope.

Lemma SFdiv_zero_nonfinite prec emax x s :
  SFnonfinite (SFdiv prec emax x (S754_zero s)) = true.
Proof. destruct x as [sx|sx| |sx mx ex]; reflexivity. Qed.

Lemma SFmul_nonfinite_l prec emax x y :
  SFnonfinite x = true -> SFnonfinite (SFmul prec emax x y) = true.
Proof.
  destruct x as [sx|sx| |sx mx ex]; destruct y as [sy|sy| |sy my ey];
    cbn; congruence.
Qed.

Lemma SFadd_nonfinite_r prec emax x y :
  SFnonfinite y = true -> SFnonfinite (SFadd prec emax x y) = true.
Proof.
  destruct x as [sx|sx| |sx mx ex]; destruct y as [sy|sy| |sy my ey];
    cbn; try congruence.
  destruct sx, sy; reflexivity.
Qed.

Lemma SFpos_leb x y : SFpos x = true -> SFleb x y = true -> SFpos y = true.
Proof.
  destruct x as [sx|[]| |[] mx ex]; destruct y as [sy|[]| |[] my ey];
    cbn; try reflexivity; try discriminate.
Qed.

Lemma eqb_zero a :
  (a =? 0) = true -> exists s, Prim2SF a = S754_zero s.
Proof.
  rewrite eqb_spec. change (Prim2SF 0) with (S754_zero false).
  destruct (Prim2SF a) as [s|[]| |[] m e]; cbn; try discriminate. eauto.
Qed.

Lemma is_finite_nonfinite a :
  SFnonfinite (Prim2SF a) = true -> is_finite a = false.
Proof. rewrite is_finite_spec. destruct (Prim2SF a); cbn; congruence. Qed.

Lemma pos_leb a b : (0 <? a) = true -> (a <=? b) = true -> (0 <? b) = true.
Proof. rewrite !ltb_zero_pos, leb_spec. apply SFpos_leb. Qed.

(** Counting up from a positive number by steps of one stays positive. *)
Lemma count_pos {A : Type} (l : list A) : forall acc,
  (0 <? acc) = true ->
  (0 <? fold_left (fun n _ => n + 1) l acc) = true.
Proof.
  induction l as [|x rest IH]; intros acc Hacc; cbn [fold_left]; [assumption|].
  apply IH. apply pos_leb with acc; [assumption|].
  apply add_nonneg_ge; [apply ltb_leb; assumption | reflexivity].
Qed.

Lemma lengthOf_pos {A : Type} (l : list A) :
  l <> [] -> gt (lengthOf l) 0 = true.
Proof.
  destruct l as [|x rest]; [congruence|]. intros _.
  unfold gt, lengthOf. cbn [fold_left]. apply count_pos. reflexivity.
Qed.

(** X17: [calculateETA] divides the remaining distance by the speed of
    the parcel without a guard. For a parcel in [TRANSIT] with a route and
    speed zero the date it returns is built from a value that is no finite
    number (an infinity or NaN), at every instant and whatever the
    progress and the distance: an invalid date. *)
Theorem calculateETA_zero_speed_invalid now parcel route0 :
  state parcel = TRANSIT ->
  route parcel = Some route0 ->
  (speed parcel =? 0) = true ->
  exists value,
    calculateETA now parcel = Some (NewDate value) /\
    isFinite value = false.
Proof.
  intros Hs Hr Hz. unfold calculateETA. rewrite Hr, Hs.
  eexists. split; [reflexivity|].
  unfold isFinite. apply is_finite_nonfinite.
  destruct (eqb_zero _ Hz) as [s Hzero].
  rewrite add_spec. apply SFadd_nonfinite_r.
  rewrite mul_spec. apply SFmul_nonfinite_l.
  rewrite mul_spec. apply SFmul_nonfinite_l.
  rewrite mul_spec. apply SFmul_nonfinite_l.
  rewrite div_spec, Hzero. apply SFdiv_zero_nonfinite.
Qed.

(** X18: [calculateETA] computes an estimate for moving parcels only. For
    a parcel it reads as stopped by an incident, delivered or not yet
    started, it returns the stored estimate at every instant: the estimate
    of [createSimulatedParcel], the route's duration after the creation,
    holds until the parcel is started, and the estimate of a parcel stopped
    by [markParcelIncident] is the one it had when it was stopped. For a
    parcel that [updateParcelRoute] has put back in [TRANSIT] it does not
    return the estimate stored with the new route: it computes the
    remaining distance of the new route over the speed of the parcel, from
    the instant of the call. *)
Theorem calculateETA_stored_unless_moving
    now asked parcel parcelData route0 routePath incidentId :
  calculateETA asked (createSimulatedParcel now parcelData route0 routePath)
  = Some (NewDate (now + RouteResponse.estimatedDurationMin route0 * 60 * 1000)) /\
  calculateETA asked (markParcelIncident parcel incidentId)
  = estimatedArrival parcel /\
  (state parcel <> TRANSIT \/ route parcel = None ->
   calculateETA asked parcel = estimatedArrival parcel) /\
  calculateETA asked (updateParcelRoute now parcel route0 routePath)
  = Some (NewDate
            (asked
             + RouteResponse.totalDistanceKm route0 * (1 - progress parcel)
               / speed parcel * 60 * 60 * 1000)).
Proof.
  repeat split.
  - unfold calculateETA. cbn. destruct (route parcel); reflexivity.
  - unfold calculateETA. intros [Hs | ->]; [|reflexivity].
    destruct (route parcel); [|reflexivity].
    destruct (state parcel); congruence.
Qed.

(** X19: [doesIncidentAffectRoute] holds exactly when some point of the
    path lies within the radius of the incident, so never for the empty
    path. It looks at the position and the radius of the incident only: a
    resolved incident affects a route as an active one does. An incident
    that [checkIncidentCollision] reports for a parcel standing on a point
    of the path affects that path. *)
Theorem doesIncidentAffectRoute_covers_collisions incident routePath :
  (doesIncidentAffectRoute incident routePath = true <->
   exists position,
     In position routePath /\
     isWithinRadius position (Incident.position incident)
       (Incident.radius incident / 1000) = true) /\
  doesIncidentAffectRoute incident [] = false /\
  (forall resolved,
     doesIncidentAffectRoute (Incident.with_resolved incident resolved) routePath
     = doesIncidentAffectRoute incident routePath) /\
  (forall parcel incidents,
     checkIncidentCollision parcel incidents = Some incident ->
     In (currentPosition parcel) routePath ->
     doesIncidentAffectRoute incident routePath = true).
Proof.
  unfold doesIncidentAffectRoute. split; [apply existsb_exists|].
  split; [reflexivity|]. split; [reflexivity|].
  intros parcel incidents E Hin.
  apply checkIncidentCollision_collides in E as [(_ & Hwithin & _) _].
  apply existsb_exists. eauto.
Qed.

(** X20: the average speed of [getSimulationStats] is guarded by the
    number of parcels. For the empty map every figure is 0, the average
    included, where the division would give NaN; for every other map the
    count is positive and the average is the sum of the speeds divided by
    the count. *)
Theorem getSimulationStats_average_guard (parcels : JSMap.t SimulatedParcel.t) :
  getSimulationStats JSMap.empty
  = {| totalParcels := 0; inTransit := 0; delivered := 0; withIncidents := 0;
       totalDistance := 0; averageSpeed := 0 |} /\
  (parcels <> [] ->
   gt (totalParcels (getSimulationStats parcels)) 0 = true /\
   averageSpeed (getSimulationStats parcels)
   = fold_left (fun sum p => sum + speed p) (JSMap.values parcels) 0
     / totalParcels (getSimulationStats parcels)).
Proof.
  split; [reflexivity|]. intros Hne.
  assert (Hpos : gt (lengthOf (JSMap.values parcels)) 0 = true).
  { apply lengthOf_pos. destruct parcels; [congruence | discriminate]. }
  unfold getSimulationStats. cbn [totalParcels averageSpeed].
  rewrite Hpos. split; reflexivity.
Qed.

Lemma lengthOf_snoc {A : Type} (l : list A) x :
  lengthOf (l ++ [x]) = lengthOf l + 1.
Proof. unfold lengthOf. rewrite fold_left_app. reflexivity. Qed.

Lemma filter_snoc {A : Type} (f : A -> bool) l x :
  filter f (l ++ [x]) = if f x then filter f l ++ [x] else filter f l.
Proof.
  rewrite filter_app. cbn. destruct (f x); [reflexivity | apply app_nil_r].
Qed.

(** X21: how [ADD_PARCEL] of a parcel under a new id moves the figures of
    [getSimulationStats]. The total goes up by one; the counter of the
    parcel's state goes up by one if the state is [TRANSIT], [DELIVERED] or
    [INCIDENT], and no counter moves for a [PLANNED] parcel; the total
    distance grows by the distance of the parcel's route, by 0 without a
    route. *)
Theorem getSimulationStats_counts_added_parcel st parcel :
  JSMap.get (id parcel) (SimulationState.parcels st) = None ->
  let before := getSimulationStats (SimulationState.parcels st) in
  let after :=
    getSimulationStats
      (SimulationState.parcels (Store.simulationReducer st (ADD_PARCEL parcel))) in
  totalParcels after = totalParcels before + 1 /\
  inTransit after
    = (match state parcel with TRANSIT => inTransit before + 1 | _ => inTransit before end) /\
  delivered after
    = (match state parcel with DELIVERED => delivered before + 1 | _ => delivered before end) /\
  withIncidents after
    = (match state parcel with
       | INCIDENT => withIncidents before + 1
       | _ => withIncidents before
       end) /\
  totalDistance after
    = totalDistance before
      + match route parcel with
        | Some r => orZero (RouteResponse.totalDistanceKm r)
        | None => 0
        end.
Proof.
  intros Hfresh before after. subst before after.
  cbn [Store.simulationReducer]. unfold JSMap.copy.
  cbn [SimulationState.parcels Store.with_parcels].
  rewrite set_absent by assumption.
  unfold getSimulationStats, JSMap.values.
  cbn [totalParcels inTransit delivered withIncidents totalDistance].
  rewrite map_app. cbn [map snd].
  rewrite lengthOf_snoc, !filter_snoc, fold_left_app. cbn [fold_left].
  destruct (state parcel); cbn [ParcelState_eqb];
    rewrite ?lengthOf_snoc; repeat split; reflexivity.
Qed.

End EngineReports.

(* ================================================================== *)
(** * The reducer on parcels: removal *)
(* ================================================================== *)

Section Removal.
Import SimulationState Store.

Lemma get_delete_other {V : Type} k k' (m : JSMap.t V) :
  k' <> k -> JSMap.get k' (JSMap.delete k m) = JSMap.get k' m.
Proof.
  intros Hne. induction m as [|[k0 v0] rest IH]; cbn; [reflexivity|].
  destruct (String.eqb_spec k k0) as [->|Hk]; cbn.
  - destruct (String.eqb_spec k' k0); [contradiction | reflexivity].
  - destruct (String.eqb_spec k' k0); [reflexivity | assumption].
Qed.

Lemma get_delete_same {V : Type} k (m : JSMap.t V) :
  NoDup (JSMap.keys m) -> JSMap.get k (JSMap.delete k m) = None.
Proof.
  induction m as [|[k0 v0] rest IH]; cbn; intros Hnd; [reflexivity|].
  inversion Hnd as [|? ? Hnot Hnd']; subst.
  destruct (String.eqb_spec k k0) as [->|Hk]; cbn.
  - apply get_None_not_key. assumption.
  - destruct (String.eqb_spec k k0); [contradiction | auto].
Qed.

Lemma delete_absent {V : Type} k (m : JSMap.t V) :
  JSMap.get k m = None -> JSMap.delete k m = m.
Proof.
  induction m as [|[k0 v0] rest IH]; cbn; [reflexivity|].
  destruct (String.eqb k k0); [discriminate|].
  intros H. rewrite IH by assumption. reflexivity.
Qed.

Lemma delete_set_absent {V : Type} k (v : V) (m : JSMap.t V) :
  JSMap.get k m = None -> JSMap.delete k (JSMap.set k v m) = m.
Proof.
  induction m as [|[k0 v0] rest IH]; cbn.
  - rewrite String.eqb_refl. reflexivity.
  - destruct (String.eqb k k0) eqn:E; [discriminate|]. cbn. rewrite E.
    intros H. rewrite IH by assumption. reflexivity.
Qed.

(** X22: [REMOVE_PARCEL] takes the entry of the given id out of the map
    and touches nothing else: the id is no longer found, every other parcel
    is, and an id the map does not hold leaves the state as it was.
    Removing a parcel right after [ADD_PARCEL] stored it under a new id
    gives back the state before the addition. The selection is not
    cleared: a removed parcel stays the selected one. *)
Theorem remove_parcel_forgets_one_parcel st parcelId :
  NoDup (JSMap.keys (parcels st)) ->
  let st' := simulationReducer st (REMOVE_PARCEL parcelId) in
  JSMap.get parcelId (parcels st') = None /\
  (forall k, k <> parcelId ->
     JSMap.get k (parcels st') = JSMap.get k (parcels st)) /\
  (JSMap.get parcelId (parcels st) = None -> st' = st) /\
  (forall parcel,
     SimulatedParcel.id parcel = parcelId ->
     JSMap.get parcelId (parcels st) = None ->
     simulationReducer (simulationReducer st (ADD_PARCEL parcel))
       (REMOVE_PARCEL parcelId) = st) /\
  selectedParcelId st' = selectedParcelId st /\
  incidents st' = incidents st.
Proof.
  intros Hnd st'. subst st'. cbn [simulationReducer]. unfold JSMap.copy.
  cbn [parcels with_parcels selectedParcelId incidents].
  split; [apply get_delete_same; assumption|].
  split; [intros k Hk; apply get_delete_other; assumption|].
  split.
  { intros Hno. rewrite delete_absent by assumption. apply with_parcels_same. }
  split; [|split; reflexivity].
  intros parcel Hid Hno. rewrite Hid, delete_set_absent by assumption.
  destruct st; reflexivity.
Qed.

End Removal.

(* ================================================================== *)
(** * The map: placing incidents and drawing *)
(* ================================================================== *)

Section MapView.
Context {wkt : WktParser}.
Import SimulationState Store UseSimulation Props EnhancedMap.

(** X23: placing an incident on the map is one click at a time. In the
    initial store a click on the map places nothing. Once
    [toggleIncidentMode] has selected a type, a click asks for one incident
    of that type at the point of the click; [createIncident] leaves the
    placement mode off, so that the next click places nothing, as it does
    after [toggleIncidentMode(null)]. *)
Theorem map_click_places_one_incident
    st latlng type now nowText position description :
  let clickOn s :=
    click (incidentPlacementMode s) (selectedIncidentType s) latlng in
  let armed := reduceEffects st (toggleIncidentMode (Some type)) in
  let placed :=
    reduceEffects armed (createIncident now nowText position type description) in
  let disarmed := reduceEffects armed (toggleIncidentMode None) in
  clickOn initialState = [] /\
  clickOn armed = [(latlng, type)] /\
  clickOn placed = [] /\
  clickOn disarmed = [].
Proof.
  cbn. destruct latlng. repeat split; reflexivity.
Qed.

Lemma incidentLayers_In incidents layer :
  In layer (incidentLayers incidents) <->
  exists incident,
    In incident (JSMap.values incidents) /\
    Incident.resolved incident = false /\
    layer = incidentLayer incident.
Proof.
  unfold incidentLayers. rewrite in_flat_map. split.
  - intros (incident & Hin & Hl). exists incident.
    destruct (Incident.resolved incident); [contradiction|].
    destruct Hl as [<-|[]]. auto.
  - intros (incident & Hin & Hres & ->). exists incident.
    rewrite Hres. split; [assumption | left; reflexivity].
Qed.

Lemma values_set_resolved k incident (m : JSMap.t Incident.t) x :
  JSMap.get k m = Some incident ->
  In x (JSMap.values (JSMap.set k (Incident.with_resolved incident true) m)) ->
  x = Incident.with_resolved incident true \/ In x (JSMap.values m).
Proof.
  induction m as [|[k0 v0] rest IH]; cbn; [discriminate|].
  destruct (String.eqb k k0); cbn.
  - intros _ [<-|Hin]; auto.
  - intros Hget [<-|Hin]; auto. destruct (IH Hget Hin); auto.
Qed.

(** X24: the map draws the incidents that can stop a parcel. Every
    incident that [checkIncidentCollision] reports for some parcel is
    drawn, with its circle of the incident's radius around the incident's
    position. In an incident map keyed by incident id, [resolveIncident]
    takes the incident of that id off the map and draws nothing new. *)
Theorem map_draws_active_incidents st incidentId :
  NoDup (JSMap.keys (incidents st)) ->
  Forall (fun e => Incident.id (snd e) = fst e) (incidents st) ->
  let st' := reduceEffects st (resolveIncident incidentId) in
  (forall parcel incident,
     SimulationEngine.checkIncidentCollision parcel (incidents st) = Some incident ->
     In (incidentLayer incident) (incidentLayers (incidents st)) /\
     center (incidentLayer incident)
     = (lat (Incident.position incident), lng (Incident.position incident)) /\
     circle_radius (incidentLayer incident) = Incident.radius incident) /\
  (forall layer,
     In layer (incidentLayers (incidents st')) ->
     layer_key layer <> incidentId /\
     In layer (incidentLayers (incidents st))).
Proof.
  intros Hnd Hkeyed st'. split.
  - intros parcel incident E.
    apply checkIncidentCollision_collides in E as [(Hres & _) Hin].
    split; [|split; reflexivity].
    apply incidentLayers_In. eauto.
  - intros layer Hin. apply incidentLayers_In in Hin as (incident & Hin & Hres & ->).
    destruct (resolve_marks_id st incidentId Hnd Hkeyed) as (_ & _ & _ & Hmarked).
    cbv zeta in Hmarked.
    change (simulationReducer st (RESOLVE_INCIDENT incidentId)) with st' in Hmarked.
    split.
    + cbn [layer_key incidentLayer]. intros Hid.
      rewrite (Hmarked incident Hin Hid) in Hres. discriminate.
    + apply incidentLayers_In. exists incident. split; [|auto].
      pose proof (reducer_resolve st incidentId) as Hinc.
      change (simulationReducer st (RESOLVE_INCIDENT incidentId)) with st' in Hinc.
      rewrite Hinc in Hin.
      destruct (JSMap.get incidentId (incidents st)) as [i|] eqn:E; [|assumption].
      apply (values_set_resolved incidentId i) in Hin; [|assumption].
      destruct Hin as [-> | Hin]; [discriminate | assumption].
Qed.

Lemma tickParcel_routePath now dt st parcel :
  SimulatedParcel.routePath (tickParcel now dt st parcel)
  = SimulatedParcel.routePath parcel.
Proof.
  unfold tickParcel. destruct (SimulatedParcel.state parcel); try reflexivity.
  pose proof (updateParcelPosition_kept now parcel dt (speed st)) as K.
  cbv zeta in K. destruct K as (_ & _ & _ & _ & Kp & _).
  destruct (SimulationEngine.checkIncidentCollision _ _); cbn; assumption.
Qed.

(** X25: a clock tick never redraws the geometry of a route. The
    polylines of the map after a tick are those before it, one for each
    parcel with a non-empty path and in the same order, with the same key,
    the same points, and the same weight and opacity for the selection; a
    tick changes at most their colour and dashes, which follow the state. *)
Theorem tick_keeps_route_geometry now lastUpdate st selected :
  NoDup (JSMap.keys (parcels st)) ->
  let st' := reduceEffects st (simulationLoop now lastUpdate st) in
  map (fun line => (polyline_key line, positions line, weight line, opacity line))
    (routes (parcels st') selected)
  = map (fun line => (polyline_key line, positions line, weight line, opacity line))
      (routes (parcels st) selected).
Proof.
  intros Hnd st'. subst st'. rewrite tick_parcels by assumption.
  destruct (isPlaying st); [|reflexivity].
  set (dt := (now - lastUpdate)%float).
  unfold routes, JSMap.values. rewrite map_map. cbn [snd].
  induction (parcels st) as [|[k parcel] rest IH]; [reflexivity|].
  cbn [map flat_map snd]. rewrite !map_app. f_equal.
  - rewrite tickParcel_routePath, tickParcel_id.
    destruct (SimulatedParcel.routePath parcel); reflexivity.
  - apply IH. inversion Hnd. assumption.
Qed.

End MapView.

(* ================================================================== *)
(** * The parcel form *)
(* ================================================================== *)

Section Form.
Import ParcelCreationForm.

(** X26: the form refuses a submission without an origin or a
    destination hub, and one whose origin and destination are the same hub,
    before anything is sent: it shows one error toast and does nothing
    else, so that no parcel is created, no route asked for, the parent is
    not notified and the loading flag is not raised. *)
Theorem handleSubmit_validates_hubs formData created routed :
  pickupHubId formData = EmptyString \/
  deliveryHubId formData = EmptyString \/
  pickupHubId formData = deliveryHubId formData ->
  exists message,
    handleSubmit formData created routed
    = [PreventDefault; FormToast toast_error message].
Proof.
  intros Hbad. unfold handleSubmit.
  destruct (JSString.falsy (pickupHubId formData)
            || JSString.falsy (deliveryHubId formData)) eqn:Hf; [eauto|].
  apply orb_false_iff in Hf as [Hp Hd].
  destruct Hbad as [E | [E | E]].
  - rewrite E in Hp. discriminate.
  - rewrite E in Hd. discriminate.
  - rewrite E, String.eqb_refl. eauto.
Qed.

(** X27: a submission with two different hubs sends the parcel request
    with these hubs as pickup and delivery locations and, once the parcel
    exists, a route request for that parcel between the same hubs. The
    parent is notified, and the form emptied, exactly when both requests
    succeeded, with the parcel and the route they returned; a route request
    that fails leaves the parcel created without the parent hearing of it.
    The loading flag raised at the start is lowered at the end on every
    path. *)
Theorem handleSubmit_notifies_after_both_requests formData created routed :
  pickupHubId formData <> EmptyString ->
  deliveryHubId formData <> EmptyString ->
  pickupHubId formData <> deliveryHubId formData ->
  let effects := handleSubmit formData created routed in
  (exists request rest,
     effects = PreventDefault :: SetLoading true :: CreateParcel request :: rest /\
     pickupLocation request = pickupHubId formData /\
     deliveryLocation request = deliveryHubId formData /\
     last rest PreventDefault = SetLoading false) /\
  (forall request,
     In (CalculateRoute request) effects ->
     exists parcel,
       created = Some parcel /\
       parcelId request = ParcelResponse.id parcel /\
       startHubId request = pickupHubId formData /\
       endHubId request = deliveryHubId formData) /\
  (created <> None -> exists request, In (CalculateRoute request) effects) /\
  (forall parcel route,
     In (OnParcelCreated parcel route) effects <->
     created = Some parcel /\ routed = Some route) /\
  (In (SetFormData emptyForm) effects <-> created <> None /\ routed <> None).
Proof.
  intros Hp Hd Hne effects. subst effects. unfold handleSubmit.
  assert (Hf : JSString.falsy (pickupHubId formData)
               || JSString.falsy (deliveryHubId formData) = false).
  { destruct (pickupHubId formData); [congruence|].
    destruct (deliveryHubId formData); [congruence | reflexivity]. }
  rewrite Hf.
  destruct (String.eqb_spec (pickupHubId formData) (deliveryHubId formData));
    [contradiction|].
  destruct created as [parcel|]; [destruct routed as [route|]|].
  - split; [eexists; eexists; repeat split|].
    split.
    { intros request Hin. cbn in Hin.
      repeat (destruct Hin as [Hin|Hin]; try discriminate); try contradiction.
      injection Hin as <-. exists parcel. auto. }
    split; [intros _; eexists; cbn; eauto 6|].
    split.
    { intros p r. split.
      - intros Hin. cbn in Hin.
        repeat (destruct Hin as [Hin|Hin]; try discriminate); try contradiction.
        injection Hin as <- <-. auto.
      - intros [[= <-] [= <-]]. cbn. auto 7. }
    split; [intros _; split; discriminate | intros _; cbn; auto 8].
  - split; [eexists; eexists; repeat split|].
    split.
    { intros request Hin. cbn in Hin.
      repeat (destruct Hin as [Hin|Hin]; try discriminate); try contradiction.
      injection Hin as <-. exists parcel. auto. }
    split; [intros _; eexists; cbn; eauto 6|].
    split.
    { intros p r. split.
      - intros Hin. cbn in Hin.
        repeat (destruct Hin as [Hin|Hin]; try discriminate); contradiction.
      - intros [_ Hr]. discriminate. }
    split.
    + intros Hin. cbn in Hin.
      repeat (destruct Hin as [Hin|Hin]; try discriminate); contradiction.
    + intros [_ Hr]. congruence.
  - split; [eexists; eexists; repeat split|].
    split.
    { intros request Hin. cbn in Hin.
      repeat (destruct Hin as [Hin|Hin]; try discriminate); contradiction. }
    split; [congruence|].
    split.
    { intros p r. split.
      - intros Hin. cbn in Hin.
        repeat (destruct Hin as [Hin|Hin]; try discriminate); contradiction.
      - intros [Hc _]. discriminate. }
    split.
    + intros Hin. cbn in Hin.
      repeat (destruct Hin as [Hin|Hin]; try discriminate); contradiction.
    + intros [Hc _]. congruence.
Qed.

End Form.

(* ================================================================== *)
(** * Parcels that do not move *)
(* ================================================================== *)

Section Standstill.
Context {wkt : WktParser}.
Import SimulationState Store UseSimulation Props.
Local Open Scope float_scope.

Lemma SFmul_finite_zero prec emax x y :
  SFfinite x = true -> SFiszero y = true ->
  SFiszero (SFmul prec emax x y) = true.
Proof.
  destruct x as [sx|sx| |sx mx ex]; destruct y as [sy|sy| |sy my ey];
    cbn; congruence.
Qed.

Lemma SFmul_zero_finite prec emax x y :
  SFiszero x = true -> SFfinite y = true ->
  SFiszero (SFmul prec emax x y) = true.
Proof.
  destruct x as [sx|sx| |sx mx ex]; destruct y as [sy|sy| |sy my ey];
    cbn; congruence.
Qed.

Lemma SFdiv_zero_pos prec emax x y :
  SFiszero x = true -> SFpos y = true ->
  SFiszero (SFdiv prec emax x y) = true.
Proof.
  destruct x as [sx|sx| |sx mx ex]; destruct y as [sy|[]| |[] my ey];
    cbn; congruence.
Qed.

Lemma SFleb_not_ltb x y : SFleb x y = true -> SFltb y x = false.
Proof.
  unfold SFleb, SFltb. rewrite (SFcompare_antisym x y).
  destruct (SFcompare x y) as [[]|]; cbn; congruence.
Qed.

Lemma SFleb_not_ltb_eq x y :
  SFleb x y = true -> SFltb x y = false -> SFeqb y x = true.
Proof.
  unfold SFleb, SFltb, SFeqb. rewrite (SFcompare_antisym x y).
  destruct (SFcompare x y) as [[]|]; cbn; congruence.
Qed.

Lemma is_finite_SFfinite a : is_finite a = SFfinite (Prim2SF a).
Proof. rewrite is_finite_spec. destruct (Prim2SF a); reflexivity. Qed.

(** A zero added to a number between 0 and 1, then capped at 1, compares
    equal to that number. *)
Lemma add_zero_min p i :
  (0 <=? p) = true -> (p <=? 1) = true ->
  SFiszero (Prim2SF i) = true ->
  (Math_min (p + i) 1 =? p) = true.
Proof.
  intros H0 H1 Hi.
  rewrite leb_zero_nonneg in H0.
  destruct (Prim2SF i) as [si|si| |si mi ei] eqn:Ei; try discriminate.
  destruct (Prim2SF p) as [sp|[]| |[] mp ep] eqn:Ep; try discriminate.
  - assert (Hr : exists s, Prim2SF (p + i) = S754_zero s).
    { rewrite add_spec, Ep, Ei. destruct sp, si; cbn; eauto. }
    destruct Hr as [s Hr].
    unfold Math_min. rewrite (is_nan_spec (p + i)), Hr. cbn [orb].
    change (is_nan 1) with false. cbn iota.
    assert (Hlt : (p + i <? 1) = true).
    { rewrite ltb_spec, Hr. reflexivity. }
    rewrite Hlt, eqb_spec, Hr, Ep. reflexivity.
  - rewrite leb_spec, Ep in H1. discriminate.
  - assert (Hr : p + i = p).
    { apply Prim2SF_inj. rewrite add_spec, Ep, Ei. reflexivity. }
    rewrite Hr. unfold Math_min. rewrite (is_nan_spec p), Ep. cbn [orb].
    change (is_nan 1) with false. cbn iota.
    assert (Hrefl : (p =? p) = true).
    { rewrite eqb_spec, Ep. unfold SFeqb.
      rewrite SFcompare_refl; [reflexivity | discriminate]. }
    destruct (p <? 1) eqn:Hlt; [exact Hrefl|].
    rewrite leb_spec in H1. rewrite ltb_spec in Hlt.
    rewrite ltb_spec, (SFleb_not_ltb _ _ H1).
    assert (Heq : (1 =? p) = true).
    { rewrite eqb_spec. apply SFleb_not_ltb_eq; assumption. }
    destruct (get_sign p); assumption.
Qed.

(** The progress increment of a frame at simulation speed zero is a zero. *)
Lemma progressIncrement_zero_speed parcel totalDistanceKm deltaTimeMs simulationSpeed :
  (simulationSpeed =? 0) = true ->
  isFinite (SimulatedParcel.speed parcel) = true ->
  isFinite (deltaTimeMs / 1000 / 60 / 60) = true ->
  gt totalDistanceKm 0 = true ->
  SFiszero
    (Prim2SF (SimulationEngine.progressIncrement parcel totalDistanceKm
                deltaTimeMs simulationSpeed)) = true.
Proof.
  unfold SimulationEngine.progressIncrement, isFinite, gt.
  rewrite !is_finite_SFfinite, ltb_zero_pos. intros Hz Hs Hh Hd.
  destruct (eqb_zero _ Hz) as [s Hzero].
  rewrite div_spec. apply SFdiv_zero_pos; [|assumption].
  rewrite mul_spec. apply SFmul_zero_finite; [|assumption].
  rewrite mul_spec. apply SFmul_finite_zero; [assumption|].
  rewrite Hzero. reflexivity.
Qed.

(** X28: a simulation speed of zero stops every parcel without pausing
    the loop. For a parcel in [TRANSIT] on a route of positive distance,
    with a finite speed and a progress in [0,1], a frame of any finite
    length at simulation speed 0 leaves the progress equal to what it was. *)
Theorem zero_simulation_speed_freezes_progress
    now parcel route0 deltaTimeMs simulationSpeed :
  SimulatedParcel.state parcel = TRANSIT ->
  SimulatedParcel.route parcel = Some route0 ->
  SimulatedParcel.routePath parcel <> [] ->
  (simulationSpeed =? 0) = true ->
  isFinite (SimulatedParcel.speed parcel) = true ->
  isFinite (deltaTimeMs / 1000 / 60 / 60) = true ->
  gt (RouteResponse.totalDistanceKm route0) 0 = true ->
  ge (SimulatedParcel.progress parcel) 0 = true ->
  ge 1 (SimulatedParcel.progress parcel) = true ->
  (SimulatedParcel.progress
     (SimulationEngine.updateParcelPosition now parcel deltaTimeMs simulationSpeed)
   =? SimulatedParcel.progress parcel) = true.
Proof.
  intros Hst Hr Hp Hz Hs Hh Hd H0 H1.
  rewrite (updateParcelPosition_advancing now parcel route0 deltaTimeMs
             simulationSpeed Hst Hr Hp).
  cbn [SimulatedParcel.progress].
  apply add_zero_min; [exact H0 | exact H1 |].
  apply progressIncrement_zero_speed; assumption.
Qed.

(** X29: a recalculated route is not validated as a new one is. When the
    geometry of the route that comes back decodes to no point, the parcel
    is stored in [TRANSIT] on an empty path all the same; from then on
    [updateParcelPosition] returns it unchanged at every frame, so that no
    tick moves it or delivers it. *)
Theorem recalculation_without_geometry_strands_parcel
    now st parcel incident newRoute :
  SimulatedParcel.route parcel <> None ->
  JSMap.get (SimulatedParcel.id parcel) (parcels st) <> None ->
  parseWKTLineString (RouteResponse.routeGeometry newRoute) = [] ->
  let st' :=
    reduceEffects st
      (handleIncidentRecalculation now parcel incident (Some newRoute)) in
  exists stranded,
    JSMap.get (SimulatedParcel.id parcel) (parcels st') = Some stranded /\
    SimulatedParcel.state stranded = TRANSIT /\
    SimulatedParcel.routePath stranded = [] /\
    (forall t deltaTimeMs simulationSpeed,
       SimulationEngine.updateParcelPosition t stranded deltaTimeMs simulationSpeed
       = stranded) /\
    (forall t deltaTimeMs store,
       SimulatedParcel.state (tickParcel t deltaTimeMs store stranded) <> DELIVERED /\
       SimulatedParcel.progress (tickParcel t deltaTimeMs store stranded)
       = SimulatedParcel.progress parcel).
Proof.
  intros Hr Hget Hparse st'. subst st'. unfold handleIncidentRecalculation.
  destruct (SimulatedParcel.route parcel) as [r|]; [|congruence].
  cbn [reduceEffects fold_left simulationReducer]. unfold JSMap.copy.
  destruct (JSMap.get (SimulatedParcel.id parcel) (parcels st)) as [cur|] eqn:E;
    [|congruence].
  rewrite spread_ofParcel, Hparse. cbn [parcels with_parcels].
  rewrite get_set_same. eexists. split; [reflexivity|].
  split; [reflexivity|]. split; [reflexivity|].
  assert (Hstay : forall t deltaTimeMs simulationSpeed,
            SimulationEngine.updateParcelPosition t
              (SimulationEngine.updateParcelRoute now parcel newRoute [])
              deltaTimeMs simulationSpeed
            = SimulationEngine.updateParcelRoute now parcel newRoute []).
  { intros. apply updateParcelPosition_guard. right. right. reflexivity. }
  split; [exact Hstay|].
  intros t deltaTimeMs store. unfold tickParcel.
  cbn [SimulatedParcel.state SimulationEngine.updateParcelRoute].
  rewrite Hstay.
  destruct (SimulationEngine.checkIncidentCollision _ _); cbn;
    split; [discriminate | reflexivity | discriminate | reflexivity].
Qed.

End Standstill.

(* ================================================================== *)
(** * The further properties on concrete inputs *)
(* ================================================================== *)

Section Scenarios.
Import SimulationState Store UseSimulation Props Runs.
Local Open Scope float_scope.
Local Open Scope string_scope.

#[local] Existing Instance SampleWkt.planar.

Lemma Consistent_playingStore :
  Consistent {| store := Samples.playingStore; pending := [] |}.
Proof.
  constructor; cbn.
  - constructor; [intros [] | constructor].
  - repeat constructor.
  - constructor.
  - constructor.
Qed.

(** X2 on a run: the parcel is stopped by the incident at the first tick
    and put on a new route; the incident is recorded once. *)
Lemma run_records_incident_once_witness :
  let sys := {| store := Samples.playingStore; pending := [] |} in
  let events :=
    [Tick 2016 2000;
     RecalculationDone 0 2500 (Some (Samples.route 12));
     Tick 2532 2516] in
  exists parcel',
    JSMap.get "p1" (parcels (store (run sys events))) = Some parcel' /\
    (exists added,
       SimulatedParcel.affectedByIncidents parcel'
       = (SimulatedParcel.affectedByIncidents (Samples.parcel TRANSIT 10 0)
          ++ added)%list) /\
    NoDup (SimulatedParcel.affectedByIncidents parcel').
Proof.
  exact (run_records_incident_once
           {| store := Samples.playingStore; pending := [] |}
           [Tick 2016 2000;
            RecalculationDone 0 2500 (Some (Samples.route 12));
            Tick 2532 2516]
           "p1" (Samples.parcel TRANSIT 10 0)
           Consistent_playingStore eq_refl (NoDup_nil string)).
Defined.

(** X3 on the same run. *)
Lemma run_keeps_identity_speed_start_witness :
  let sys := {| store := Samples.playingStore; pending := [] |} in
  let events :=
    [Tick 2016 2000;
     RecalculationDone 0 2500 (Some (Samples.route 12));
     Tick 2532 2516] in
  let parcel := Samples.parcel TRANSIT 10 0 in
  exists parcel',
    JSMap.get "p1" (parcels (store (run sys events))) = Some parcel' /\
    SimulatedParcel.id parcel' = SimulatedParcel.id parcel /\
    SimulatedParcel.trackingCode parcel' = SimulatedParcel.trackingCode parcel /\
    SimulatedParcel.parcelData parcel' = SimulatedParcel.parcelData parcel /\
    SimulatedParcel.speed parcel' = SimulatedParcel.speed parcel /\
    SimulatedParcel.startTime parcel' = SimulatedParcel.startTime parcel.
Proof.
  exact (run_keeps_identity_speed_start
           {| store := Samples.playingStore; pending := [] |}
           [Tick 2016 2000;
            RecalculationDone 0 2500 (Some (Samples.route 12));
            Tick 2532 2516]
           "p1" (Samples.parcel TRANSIT 10 0)
           Consistent_playingStore eq_refl).
Defined.

(** X4 at the parcel that the first tick stopped: the next tick leaves
    its progress where it was. The action [UPDATE_PARCEL], which is not
    among the events of the property, stores the progress it carries. *)
Lemma progress_moves_only_in_transit_witness :
  let sys := {| store := Samples.playingStore; pending := [] |} in
  let stopped :=
    SimulationEngine.markParcelIncident
      (SimulationEngine.updateParcelPosition 2016 (Samples.parcel TRANSIT 10 0) 16 1)
      "i1" in
  JSMap.get "p1" (parcels (store (Session.run sys [Session.Tick 2016 2000])))
  = Some stopped /\
  SimulatedParcel.state stopped <> TRANSIT /\
  (exists parcel',
     JSMap.get "p1"
       (parcels (store (Session.step (Session.run sys [Session.Tick 2016 2000])
                          (Session.Tick 2532 2516))))
     = Some parcel' /\
     SimulatedParcel.progress parcel' = SimulatedParcel.progress stopped /\
     SimulatedParcel.pathIndex parcel' = SimulatedParcel.pathIndex stopped /\
     SimulatedParcel.actualArrival parcel' = SimulatedParcel.actualArrival stopped) /\
  option_map SimulatedParcel.progress
    (JSMap.get "p1"
       (parcels (store (Session.step (Session.run sys [Session.Tick 2016 2000])
                          (Session.Dispatched
                             (UPDATE_PARCEL "p1" (Samples.progressOnly 0.9)))))))
  = Some 0.9.
Proof.
  intros sys stopped.
  assert (Hget : JSMap.get "p1"
                   (parcels (store (Session.run sys [Session.Tick 2016 2000])))
                 = Some stopped) by reflexivity.
  split; [exact Hget|]. split; [discriminate|]. split; [|reflexivity].
  apply (progress_moves_only_in_transit sys [Session.Tick 2016 2000]
           (Session.Tick 2532 2516) "p1" stopped Consistent_playingStore).
  - split; exact I.
  - exact I.
  - exact Hget.
  - discriminate.
Defined.

(** X5 at the playing store: the tick stops the parcel under ["p1"] and
    leaves the rest of the store alone. *)
Lemma tick_acts_on_each_parcel_witness :
  let st := Samples.playingStore in
  let st' := reduceEffects st (simulationLoop 2016 2000 st) in
  (forall k,
     JSMap.get k (parcels st') =
     if isPlaying st
     then option_map (tickParcel 2016 (2016 - 2000) st) (JSMap.get k (parcels st))
     else JSMap.get k (parcels st)) /\
  JSMap.keys (parcels st') = JSMap.keys (parcels st) /\
  incidents st' = incidents st /\
  hubs st' = hubs st /\
  isPlaying st' = isPlaying st /\
  speed st' = speed st /\
  incidentPlacementMode st' = incidentPlacementMode st /\
  selectedIncidentType st' = selectedIncidentType st /\
  selectedParcelId st' = selectedParcelId st.
Proof.
  apply (tick_acts_on_each_parcel 2016 2000 Samples.playingStore).
  cbn. constructor; [intros [] | constructor].
Defined.

(** X6 on a paused store, and on a playing store whose only parcel is
    delivered. *)
Lemma simulationLoop_effects_in_order_witness :
  let paused := Samples.storeWith (Samples.parcel TRANSIT 10 0) in
  let idle :=
    simulationReducer (Samples.storeWith (Samples.parcel DELIVERED 10 1)) PLAY in
  simulationLoop 2016 2000 paused = [] /\
  simulationLoop 2016 2000 idle = [SetLastUpdate 2016; RequestAnimationFrame] /\
  exists requests,
    Forall (fun e => exists q incident, e = StartRecalculation q incident)
      requests /\
    (simulationLoop 2016 2000 Samples.playingStore
     = (SetLastUpdate 2016 :: requests ++ [RequestAnimationFrame])%list \/
     exists newParcels,
       simulationLoop 2016 2000 Samples.playingStore
       = (SetLastUpdate 2016 :: requests
          ++ [Dispatch (UPDATE_ALL_PARCELS newParcels); RequestAnimationFrame])%list).
Proof.
  intros paused idle. split; [|split].
  - apply (proj1 (simulationLoop_effects_in_order 2016 2000 paused)). reflexivity.
  - apply (proj2 (proj2 (simulationLoop_effects_in_order 2016 2000 idle)));
      [reflexivity|].
    repeat constructor. discriminate.
  - apply (proj1 (proj2 (simulationLoop_effects_in_order 2016 2000
                           Samples.playingStore))).
    reflexivity.
Defined.

(** X7 at the playing store: the tick starts one recalculation, for the
    parcel it stops at the incident ["i1"]. *)
Lemma tick_starts_recalculation_per_collision_witness :
  let st := Samples.playingStore in
  let stopped :=
    SimulationEngine.markParcelIncident
      (SimulationEngine.updateParcelPosition 2016 (Samples.parcel TRANSIT 10 0)
         (2016 - 2000) 1)
      "i1" in
  In (StartRecalculation stopped (Samples.incident "i1" TRAFFIC))
    (simulationLoop 2016 2000 st) /\
  NoDup (map (fun r => SimulatedParcel.id (fst r))
           (started (simulationLoop 2016 2000 st))) /\
  JSMap.get "p1" (parcels (reduceEffects st (simulationLoop 2016 2000 st)))
  = Some stopped /\
  SimulatedParcel.state stopped = INCIDENT.
Proof.
  intros st stopped.
  destruct (tick_starts_recalculation_per_collision 2016 2000 st eq_refl)
    as [Hiff Hkeyed].
  assert (Hin : In (StartRecalculation stopped (Samples.incident "i1" TRAFFIC))
                  (simulationLoop 2016 2000 st)).
  { apply Hiff. exists "p1", (Samples.parcel TRANSIT 10 0).
    split; [left; reflexivity|]. split; [reflexivity|]. split; reflexivity. }
  split; [exact Hin|].
  destruct Hkeyed as [Hnd Hstored].
  - cbn. constructor; [intros [] | constructor].
  - repeat constructor.
  - split; [exact Hnd|]. exact (Hstored stopped _ Hin).
Defined.

(** X8 at the sample route: the parcel is stored in transit at the first
    point of the path. *)
Lemma addParcel_starts_delivery_witness :
  let routePath := parseWKTLineString (RouteResponse.routeGeometry (Samples.route 10)) in
  let parcel :=
    SimulationEngine.startParcel 1000
      (SimulationEngine.createSimulatedParcel 1000 Samples.parcelData
         (Samples.route 10) routePath) in
  let effects :=
    addParcel 1000 1000 initialState Samples.parcelData (Some (Samples.route 10)) in
  effects =
    [Dispatch (ADD_PARCEL parcel);
     Toast toast_success
       ("Livraison démarrée: " ++ ParcelResponse.trackingCode Samples.parcelData)] /\
  JSMap.get (ParcelResponse.id Samples.parcelData)
    (parcels (reduceEffects initialState effects))
    = Some parcel /\
  SimulatedParcel.state parcel = TRANSIT /\
  SimulatedParcel.progress parcel = 0 /\
  hd_error routePath = Some (SimulatedParcel.currentPosition parcel) /\
  SimulatedParcel.route parcel = Some (Samples.route 10) /\
  SimulatedParcel.speed parcel = 40 /\
  SimulatedParcel.affectedByIncidents parcel = [] /\
  SimulatedParcel.startTime parcel = Some (NewDate 1000) /\
  SimulatedParcel.estimatedArrival parcel
    = Some (NewDate
              (1000 + RouteResponse.estimatedDurationMin (Samples.route 10) * 60 * 1000)).
Proof.
  apply (addParcel_starts_delivery 1000 1000 initialState Samples.parcelData
           (Samples.route 10)).
  - reflexivity.
  - reflexivity.
  - apply Nat.leb_le. reflexivity.
Defined.

(** X9 at a route whose geometry is a point. *)
Lemma addParcel_refuses_malformed_geometry_witness :
  let effects :=
    addParcel 1000 1000 initialState Samples.parcelData (Some Samples.pointRoute) in
  (effects = [Toast toast_error "Itinéraire invalide: géométrie manquante"] \/
   effects = [Toast toast_error "Itinéraire invalide: format de géométrie incorrect"]) /\
  dispatched effects = [] /\
  reduceEffects initialState effects = initialState.
Proof.
  apply (addParcel_refuses_malformed_geometry 1000 1000 initialState
           Samples.parcelData Samples.pointRoute).
  - reflexivity.
  - right. reflexivity.
Defined.

(** X10 with three hubs loaded, two of which have the id of the pickup
    location: the parcel waits at the first of the two; and with no hub
    known, at the default position. *)
Lemma addParcel_without_route_waits_at_pickup_hub_witness :
  (exists parcel,
     JSMap.get "p1"
       (parcels
          (reduceEffects (reduceEffects initialState (loadHubs (Some Samples.hubs)))
             (addParcel 0 0 (reduceEffects initialState (loadHubs (Some Samples.hubs)))
                Samples.parcelData None)))
     = Some parcel /\
     SimulatedParcel.state parcel = PLANNED /\
     SimulatedParcel.currentPosition parcel = {| lat := 4; lng := 9 |}) /\
  (exists parcel,
     JSMap.get "p1"
       (parcels
          (reduceEffects (reduceEffects initialState (loadHubs None))
             (addParcel 0 0 (reduceEffects initialState (loadHubs None))
                Samples.parcelData None)))
     = Some parcel /\
     SimulatedParcel.state parcel = PLANNED /\
     SimulatedParcel.currentPosition parcel = {| lat := 4.05; lng := 9.7 |}).
Proof.
  split.
  - destruct (addParcel_without_route_waits_at_pickup_hub 0 0 initialState
                (Some Samples.hubs) Samples.parcelData)
      as (_ & parcel & Hget & Hst & _ & _ & Hhub & _).
    exists parcel. split; [exact Hget|]. split; [exact Hst|].
    apply (Hhub [Samples.hub "hub-2" 5 10] (Samples.hub "hub-1" 4 9)
             [Samples.hub "hub-1" 6 11]).
    + reflexivity.
    + reflexivity.
    + repeat constructor. discriminate.
  - destruct (addParcel_without_route_waits_at_pickup_hub 0 0 initialState
                None Samples.parcelData)
      as (_ & parcel & Hget & Hst & _ & _ & _ & Hnone & _).
    exists parcel. split; [exact Hget|]. split; [exact Hst|].
    apply Hnone. constructor.
Defined.

(** X12 at an id the store does not hold. *)
Lemma startParcel_touches_one_parcel_witness :
  let st := Samples.storeWith (Samples.parcel PLANNED 10 0) in
  startParcel 5000 st "p2" = [] /\
  reduceEffects st (startParcel 5000 st "p2") = st.
Proof.
  intros st.
  apply (proj1 (startParcel_touches_one_parcel 5000 st "p2")). reflexivity.
Defined.

(** X13 at the incident of the playing store. *)
Lemma resolveIncident_switches_incident_off_witness :
  let st := Samples.playingStore in
  let st' := reduceEffects st (resolveIncident "i1") in
  (forall parcel,
     option_map Incident.id
       (SimulationEngine.checkIncidentCollision parcel (incidents st'))
     <> Some "i1") /\
  JSMap.get "i1" (incidents st')
    = option_map (fun i => Incident.with_resolved i true)
        (JSMap.get "i1" (incidents st)) /\
  (forall k, k <> "i1" ->
     JSMap.get k (incidents st') = JSMap.get k (incidents st)) /\
  JSMap.keys (incidents st') = JSMap.keys (incidents st) /\
  parcels st' = parcels st /\
  reduceEffects st' (resolveIncident "i1") = st'.
Proof.
  apply (resolveIncident_switches_incident_off Samples.playingStore "i1").
  - cbn. constructor; [intros [] | constructor].
  - repeat constructor.
Defined.

(** X14 on the initial store: a road closure stops a parcel standing at
    its centre. *)
Lemma createIncident_places_active_incident_witness :
  let position := {| lat := 4; lng := 9 |} in
  let st' :=
    reduceEffects initialState
      (createIncident 500 "500" position ROAD_CLOSURE None) in
  exists incident,
    JSMap.get "incident-500" (incidents st') = Some incident /\
    SimulationEngine.checkIncidentCollision (Samples.parcel TRANSIT 10 0)
      (incidents st')
    = Some incident.
Proof.
  intros position st'.
  destruct (createIncident_places_active_incident 500 "500" position ROAD_CLOSURE
              None initialState)
    as ((incident & Hget & _ & _ & _ & _ & Hcollide) & _).
  exists incident. split; [exact Hget|]. subst st'.
  rewrite (Hcollide eq_refl (Samples.parcel TRANSIT 10 0)). reflexivity.
Defined.

(** X16 at the parcel that the first tick of the playing store stopped: a
    failed request leaves the store as it is, a new route replaces the
    entry. *)
Lemma recalculation_overwrites_from_snapshot_witness :
  let st := reduceEffects Samples.playingStore
              (simulationLoop 2016 2000 Samples.playingStore) in
  let stopped :=
    SimulationEngine.markParcelIncident
      (SimulationEngine.updateParcelPosition 2016 (Samples.parcel TRANSIT 10 0)
         (2016 - 2000) 1)
      "i1" in
  reduceEffects st
    (handleIncidentRecalculation 2500 stopped (Samples.incident "i1" TRAFFIC) None)
  = st /\
  JSMap.get "p1"
    (parcels
       (reduceEffects st
          (handleIncidentRecalculation 2500 stopped (Samples.incident "i1" TRAFFIC)
             (Some (Samples.route 12)))))
  = Some (SimulationEngine.updateParcelRoute 2500 stopped (Samples.route 12)
            (parseWKTLineString (RouteResponse.routeGeometry (Samples.route 12)))).
Proof.
  intros st stopped. split.
  - apply (proj1 (recalculation_overwrites_from_snapshot 2500 st stopped
                    (Samples.incident "i1" TRAFFIC) None)).
    left. reflexivity.
  - apply (proj1 (proj2 (recalculation_overwrites_from_snapshot 2500 st stopped
                           (Samples.incident "i1" TRAFFIC)
                           (Some (Samples.route 12))))
             (Samples.route 12)).
    + reflexivity.
    + discriminate.
    + discriminate.
Defined.

(** X17 at a parcel in transit with speed 0: the estimate is built from
    an infinity. *)
Lemma calculateETA_zero_speed_invalid_witness :
  exists value,
    SimulationEngine.calculateETA 2000 Samples.stalledParcel = Some (NewDate value) /\
    isFinite value = false.
Proof.
  apply (calculateETA_zero_speed_invalid 2000 Samples.stalledParcel
           (Samples.route 10)); reflexivity.
Defined.

(** X18 at a delivered parcel. *)
Lemma calculateETA_stored_unless_moving_witness :
  SimulationEngine.calculateETA 5000 (Samples.parcel DELIVERED 10 1)
  = Some (NewDate 901000).
Proof.
  apply (proj1 (proj2 (proj2
           (calculateETA_stored_unless_moving 0 5000
              (Samples.parcel DELIVERED 10 1) Samples.parcelData
              (Samples.route 10) Samples.path "i1")))).
  left. discriminate.
Defined.

(** X19 at the incident that stops the sample parcel at the start of its
    path. *)
Lemma doesIncidentAffectRoute_covers_collisions_witness :
  SimulationEngine.doesIncidentAffectRoute (Samples.incident "i1" TRAFFIC)
    Samples.path = true.
Proof.
  apply (proj2 (proj2 (proj2
           (doesIncidentAffectRoute_covers_collisions
              (Samples.incident "i1" TRAFFIC) Samples.path)))
           (Samples.parcel TRANSIT 10 0)
           (incidents Samples.playingStore)).
  - reflexivity.
  - left. reflexivity.
Defined.

(** X20 at a store with one parcel. *)
Lemma getSimulationStats_average_guard_witness :
  let parcels := parcels (Samples.storeWith (Samples.parcel TRANSIT 10 0)) in
  gt (SimulationEngine.totalParcels (SimulationEngine.getSimulationStats parcels)) 0
  = true /\
  SimulationEngine.averageSpeed (SimulationEngine.getSimulationStats parcels)
  = fold_left (fun sum p => sum + SimulatedParcel.speed p) (JSMap.values parcels) 0
    / SimulationEngine.totalParcels (SimulationEngine.getSimulationStats parcels).
Proof.
  apply (proj2 (getSimulationStats_average_guard
                  (parcels (Samples.storeWith (Samples.parcel TRANSIT 10 0))))).
  discriminate.
Defined.

(** X21 when a parcel in transit is added to the initial store. *)
Lemma getSimulationStats_counts_added_parcel_witness :
  let parcel := Samples.parcel TRANSIT 10 0 in
  let before := SimulationEngine.getSimulationStats (parcels initialState) in
  let after :=
    SimulationEngine.getSimulationStats
      (parcels (simulationReducer initialState (ADD_PARCEL parcel))) in
  SimulationEngine.totalParcels after = SimulationEngine.totalParcels before + 1 /\
  SimulationEngine.inTransit after
    = (match SimulatedParcel.state parcel with
       | TRANSIT => SimulationEngine.inTransit before + 1
       | _ => SimulationEngine.inTransit before
       end) /\
  SimulationEngine.delivered after
    = (match SimulatedParcel.state parcel with
       | DELIVERED => SimulationEngine.delivered before + 1
       | _ => SimulationEngine.delivered before
       end) /\
  SimulationEngine.withIncidents after
    = (match SimulatedParcel.state parcel with
       | INCIDENT => SimulationEngine.withIncidents before + 1
       | _ => SimulationEngine.withIncidents before
       end) /\
  SimulationEngine.totalDistance after
    = SimulationEngine.totalDistance before
      + match SimulatedParcel.route parcel with
        | Some r => SimulationEngine.orZero (RouteResponse.totalDistanceKm r)
        | None => 0
        end.
Proof.
  apply (getSimulationStats_counts_added_parcel initialState
           (Samples.parcel TRANSIT 10 0)).
  reflexivity.
Defined.

(** X22 at the store with one parcel. *)
Lemma remove_parcel_forgets_one_parcel_witness :
  let st := Samples.storeWith (Samples.parcel TRANSIT 10 0) in
  let st' := simulationReducer st (REMOVE_PARCEL "p1") in
  JSMap.get "p1" (parcels st') = None /\
  (forall k, k <> "p1" -> JSMap.get k (parcels st') = JSMap.get k (parcels st)) /\
  (JSMap.get "p1" (parcels st) = None -> st' = st) /\
  (forall parcel,
     SimulatedParcel.id parcel = "p1" ->
     JSMap.get "p1" (parcels st) = None ->
     simulationReducer (simulationReducer st (ADD_PARCEL parcel))
       (REMOVE_PARCEL "p1") = st) /\
  selectedParcelId st' = selectedParcelId st /\
  incidents st' = incidents st.
Proof.
  apply (remove_parcel_forgets_one_parcel
           (Samples.storeWith (Samples.parcel TRANSIT 10 0)) "p1").
  cbn. constructor; [intros [] | constructor].
Defined.

(** X24 at the playing store: its incident is drawn until it is
    resolved. *)
Lemma map_draws_active_incidents_witness :
  let st := Samples.playingStore in
  let st' := reduceEffects st (resolveIncident "i1") in
  In (EnhancedMap.incidentLayer (Samples.incident "i1" TRAFFIC))
    (EnhancedMap.incidentLayers (incidents st)) /\
  (forall layer,
     In layer (EnhancedMap.incidentLayers (incidents st')) ->
     EnhancedMap.layer_key layer <> "i1" /\
     In layer (EnhancedMap.incidentLayers (incidents st))).
Proof.
  intros st st'.
  destruct (map_draws_active_incidents st "i1") as [Hdrawn Hgone].
  - cbn. constructor; [intros [] | constructor].
  - repeat constructor.
  - split; [|exact Hgone].
    apply (Hdrawn (Samples.parcel TRANSIT 10 0) (Samples.incident "i1" TRAFFIC)).
    reflexivity.
Defined.

(** X25 at the playing store, its parcel selected. *)
Lemma tick_keeps_route_geometry_witness :
  let st := Samples.playingStore in
  let st' := reduceEffects st (simulationLoop 2016 2000 st) in
  map (fun line =>
         (EnhancedMap.polyline_key line, EnhancedMap.positions line,
          EnhancedMap.weight line, EnhancedMap.opacity line))
    (EnhancedMap.routes (parcels st') (Some "p1"))
  = map (fun line =>
           (EnhancedMap.polyline_key line, EnhancedMap.positions line,
            EnhancedMap.weight line, EnhancedMap.opacity line))
      (EnhancedMap.routes (parcels st) (Some "p1")).
Proof.
  apply (tick_keeps_route_geometry 2016 2000 Samples.playingStore (Some "p1")).
  cbn. constructor; [intros [] | constructor].
Defined.

(** X26 at the empty form. *)
Lemma handleSubmit_validates_hubs_witness :
  exists message,
    ParcelCreationForm.handleSubmit ParcelCreationForm.emptyForm None None
    = [ParcelCreationForm.PreventDefault;
       ParcelCreationForm.FormToast toast_error message].
Proof.
  apply (handleSubmit_validates_hubs ParcelCreationForm.emptyForm None None).
  left. reflexivity.
Defined.

(** X27 at a filled form, both requests succeeding: the parent gets the
    parcel and the route. *)
Lemma handleSubmit_notifies_after_both_requests_witness :
  In (ParcelCreationForm.OnParcelCreated Samples.parcelData (Samples.route 10))
    (ParcelCreationForm.handleSubmit Samples.form (Some Samples.parcelData)
       (Some (Samples.route 10))).
Proof.
  destruct (handleSubmit_notifies_after_both_requests Samples.form
              (Some Samples.parcelData) (Some (Samples.route 10)))
    as (_ & _ & _ & Hnotify & _); try discriminate.
  apply Hnotify. split; reflexivity.
Defined.

(** X28 at a parcel a quarter of the way, for a frame of 100 ms at
    simulation speed 0. *)
Lemma zero_simulation_speed_freezes_progress_witness :
  (SimulatedParcel.progress
     (SimulationEngine.updateParcelPosition 2000 (Samples.parcel TRANSIT 10 0.25)
        100 0)
   =? SimulatedParcel.progress (Samples.parcel TRANSIT 10 0.25))%float = true.
Proof.
  apply (zero_simulation_speed_freezes_progress 2000
           (Samples.parcel TRANSIT 10 0.25) (Samples.route 10) 100 0);
    try reflexivity.
  discriminate.
Defined.

(** X29 at a stopped parcel whose new route comes back with a point for
    geometry. *)
Lemma recalculation_without_geometry_strands_parcel_witness :
  let parcel := Samples.parcel INCIDENT 10 0.5 in
  let st := Samples.storeWith parcel in
  let st' :=
    reduceEffects st
      (handleIncidentRecalculation 2500 parcel (Samples.incident "i1" TRAFFIC)
         (Some Samples.pointRoute)) in
  exists stranded,
    JSMap.get (SimulatedParcel.id parcel) (parcels st') = Some stranded /\
    SimulatedParcel.state stranded = TRANSIT /\
    SimulatedParcel.routePath stranded = [] /\
    (forall t deltaTimeMs simulationSpeed,
       SimulationEngine.updateParcelPosition t stranded deltaTimeMs simulationSpeed
       = stranded) /\
    (forall t deltaTimeMs store,
       SimulatedParcel.state (tickParcel t deltaTimeMs store stranded) <> DELIVERED /\
       SimulatedParcel.progress (tickParcel t deltaTimeMs store stranded)
       = SimulatedParcel.progress parcel).
Proof.
  apply (recalculation_without_geometry_strands_parcel 2500
           (Samples.storeWith (Samples.parcel INCIDENT 10 0.5))
           (Samples.parcel INCIDENT 10 0.5) (Samples.incident "i1" TRAFFIC)
           Samples.pointRoute).
  - discriminate.
  - discriminate.
  - reflexivity.
Defined.

End Scenarios.
